(** * The pricing pipeline of [server.js]

    A shallow embedding of the repricing service: the rounding policy
    ([roundToTwo], [applyRounding]), the margin formula
    ([computePriceFromCost]), the bulk cost feed ([loadAliExpressCSV]), the
    paginated remote lookup ([getPrintifyVariantCostBySku]) and the
    reconciliation loop ([runPricingJob]).

    JavaScript numbers are IEEE 754 binary64 values; they are modelled
    bit for bit with the executable specification of the Standard Library
    ([SpecFloat], precision 53, [emax] 1024), so every definition below can
    be evaluated on concrete inputs.  The external world (the storefront,
    the remote catalog) is a pair of oracles that answer as a function of
    the interaction so far; every request the code issues is appended to a
    trace. *)

From Stdlib Require Import ZArith QArith Qpower Qabs Lqa List Bool Lia.
From Stdlib Require Import Strings.Ascii Strings.String.
From Stdlib Require Import Floats.SpecFloat.
From stdpp Require Import gmap strings.

Set Default Proof Using "Type".
#[local] Open Scope Z_scope.

(** ** JavaScript values and the built-ins the source calls *)

Module JS.

(** *** Numbers *)

Definition prec : Z := 53.
Definition emax : Z := 1024.

Definition number : Type := spec_float.

Definition NaN : number := S754_nan.
Definition zero : number := S754_zero false.

Definition add : number -> number -> number := SFadd prec emax.
Definition sub : number -> number -> number := SFsub prec emax.
Definition mul : number -> number -> number := SFmul prec emax.
Definition div : number -> number -> number := SFdiv prec emax.

(** [a <= b], [a > b] and [a < b]: false as soon as one side is NaN. *)
Definition le (a b : number) : bool := SFleb a b.
Definition gt (a b : number) : bool := SFltb b a.
Definition lt (a b : number) : bool := SFltb a b.

(** [a == b] on numbers: IEEE equality ([-0 == 0], [NaN] equals nothing). *)
Definition eq (a b : number) : bool := SFeqb a b.

Definition isNaN (a : number) : bool :=
  match a with S754_nan => true | _ => false end.

(** ToBoolean on a number: [0], [-0] and [NaN] are falsy. *)
Definition num_truthy (a : number) : bool :=
  match a with S754_zero _ | S754_nan => false | _ => true end.

(** The Number value of an integer (exact below [2^53], rounded to nearest
    even above). *)
Definition of_Z (n : Z) : number := binary_normalize prec emax n 0 false.

(** The Number value of [m * 10^k], [m > 0]: the nearest binary64 value,
    ties to even.  This is what a decimal literal of the source denotes
    ([lit 961 (-3)] is [0.961]) and what [parseFloat] returns. *)
Definition lit (m : Z) (k : Z) : number :=
  match m with
  | Zpos p =>
      if 0 <=? k then of_Z (m * 10 ^ k)
      else div (S754_finite false p 0) (S754_finite false (Z.to_pos (10 ^ (- k))) 0)
  | _ => zero
  end.

(** [Number.EPSILON] is [2^-52]. *)
Definition EPSILON : number := S754_finite false (2 ^ 52) (-104).

(** The signed mantissa of a finite number. *)
Definition smant (s : bool) (m : positive) : Z := cond_Zopp s (Zpos m).

(** [Math.abs]. *)
Definition Math_abs : number -> number := SFabs.

(** [Math.floor]: the largest integer not above the argument.  A finite
    number with a non-negative exponent is already an integer; otherwise
    the mantissa is shifted right (an arithmetic shift rounds down).  A
    result of zero keeps the sign of the argument. *)
Definition Math_floor (x : number) : number :=
  match x with
  | S754_finite s m e =>
      if 0 <=? e then x
      else match Z.shiftr (smant s m) (- e) with
           | 0 => S754_zero s
           | n => of_Z n
           end
  | _ => x
  end.

(** [Math.ceil]: the smallest integer not below the argument. *)
Definition Math_ceil (x : number) : number :=
  match x with
  | S754_finite s m e =>
      if 0 <=? e then x
      else match - Z.shiftr (- smant s m) (- e) with
           | 0 => S754_zero s
           | n => of_Z n
           end
  | _ => x
  end.

(** [Math.round]: the integer closest to the argument, a tie going to the
    larger one, that is [floor (x + 1/2)] computed exactly. *)
Definition Math_round (x : number) : number :=
  match x with
  | S754_finite s m e =>
      if 0 <=? e then x
      else match Z.shiftr (smant s m + 2 ^ (- e - 1)) (- e) with
           | 0 => S754_zero s
           | n => of_Z n
           end
  | _ => x
  end.

(** *** Strings

    A string is a sequence of code units below [0x100] (the Latin-1 range);
    on that range the definitions are those of ECMAScript. *)

Definition code (c : ascii) : Z := Z.of_N (Ascii.N_of_ascii c).

(** White space and line terminators below [0x100]: TAB, LF, VT, FF, CR,
    SPACE and NO-BREAK SPACE. *)
Definition is_space (c : ascii) : bool :=
  let n := code c in
  ((9 <=? n) && (n <=? 13)) || (n =? 32) || (n =? 160).

Fixpoint trimStart (s : string) : string :=
  match s with
  | String c r => if is_space c then trimStart r else s
  | EmptyString => EmptyString
  end.

Definition reverse (s : string) : string :=
  string_of_list_ascii (List.rev (list_ascii_of_string s)).

Definition trimEnd (s : string) : string := reverse (trimStart (reverse s)).

(** [s.trim()]. *)
Definition trim (s : string) : string := trimEnd (trimStart s).

(** Lower-casing of one code unit: [A-Z], and the Latin-1 capitals
    [U+00C0 .. U+00DE] except the multiplication sign [U+00D7]. *)
Definition lower (c : ascii) : ascii :=
  let n := code c in
  if ((65 <=? n) && (n <=? 90)) || ((192 <=? n) && (n <=? 222) && negb (n =? 215))
  then Ascii.ascii_of_N (Z.to_N (n + 32))
  else c.

(** [s.toLowerCase()]. *)
Fixpoint toLowerCase (s : string) : string :=
  match s with
  | String c r => String (lower c) (toLowerCase r)
  | EmptyString => EmptyString
  end.

(** [s.includes(t)]: [t] occurs in [s] as a contiguous substring. *)
Fixpoint includes (s t : string) : bool :=
  String.prefix t s ||
  match s with
  | String _ r => includes r t
  | EmptyString => false
  end.

(** *** [parseFloat] on a string

    Leading white space is skipped, then the longest prefix that is a
    StrDecimalLiteral is read: an optional sign, then [Infinity] or decimal
    digits with an optional fraction and an optional exponent.  No such
    prefix gives [NaN]. *)

Definition digit (c : ascii) : option Z :=
  let n := code c in
  if (48 <=? n) && (n <=? 57) then Some (n - 48) else None.

(** Reads the longest run of digits: the value accumulated on [acc], the
    number of digits read added to [cnt], and the rest of the string. *)
Fixpoint read_digits (s : string) (acc cnt : Z) : Z * Z * string :=
  match s with
  | String c r =>
      match digit c with
      | Some d => read_digits r (10 * acc + d) (cnt + 1)
      | None => (acc, cnt, s)
      end
  | EmptyString => (acc, cnt, s)
  end.

(** The exponent part [e±ddd]; it counts only when at least one digit
    follows. *)
Definition read_exponent (s : string) : Z :=
  match s with
  | String c r =>
      if (code c =? 101) || (code c =? 69) then
        let '(neg, r') :=
          match r with
          | String c' r'' =>
              if code c' =? 45 then (true, r'')
              else if code c' =? 43 then (false, r'')
              else (false, r)
          | EmptyString => (false, r)
          end in
        let '(v, n, _) := read_digits r' 0 0 in
        if n =? 0 then 0 else if neg then - v else v
      else 0
  | EmptyString => 0
  end.

Definition read_unsigned (s : string) : number :=
  if String.prefix "Infinity" s then S754_infinity false
  else
    let '(ip, ni, r1) := read_digits s 0 0 in
    let '(m, nf, r2) :=
      match r1 with
      | String c r =>
          if code c =? 46 then read_digits r ip 0 else (ip, 0, r1)
      | EmptyString => (ip, 0, r1)
      end in
    if (ni =? 0) && (nf =? 0) then NaN
    else lit m (read_exponent r2 - nf).

Definition parseFloat_string (s : string) : number :=
  match trimStart s with
  | String c r =>
      if code c =? 45 then SFopp (read_unsigned r)
      else if code c =? 43 then read_unsigned r
      else read_unsigned (String c r)
  | EmptyString => NaN
  end.

(** *** Values

    The JSON values the fields of a fetched record can hold. *)

Inductive value : Type :=
  | VUndefined
  | VNull
  | VBool (b : bool)
  | VNum (n : number)
  | VStr (s : string).

(** ToBoolean. *)
Definition truthy (v : value) : bool :=
  match v with
  | VUndefined | VNull => false
  | VBool b => b
  | VNum n => num_truthy n
  | VStr s => negb (String.eqb s "")
  end.

(** [a || b]. *)
Definition or (a b : value) : value := if truthy a then a else b.

(** [parseFloat v]: the argument is first converted to a string.  The string
    of a number reads back as that number (the string of [-0] is ["0"]);
    ["undefined"], ["null"], ["true"] and ["false"] do not start a
    numeral. *)
Definition parseFloat (v : value) : number :=
  match v with
  | VStr s => parseFloat_string s
  | VNum (S754_zero _) => zero
  | VNum n => n
  | _ => NaN
  end.

End JS.

Declare Scope js_scope.
Delimit Scope js_scope with js.
Notation "a + b" := (JS.add a b) : js_scope.
Notation "a - b" := (JS.sub a b) : js_scope.
Notation "a * b" := (JS.mul a b) : js_scope.
Notation "a / b" := (JS.div a b) : js_scope.
Notation "a <= b" := (JS.le a b) : js_scope.
Notation "a > b" := (JS.gt a b) : js_scope.
Notation "a || b" := (JS.or a b) : js_scope.

(** The decimal literals of the source. *)
Definition n0_01 : JS.number := JS.lit 1 (-2).
Definition n0_30 : JS.number := JS.lit 30 (-2).
Definition n0_95 : JS.number := JS.lit 95 (-2).
Definition n1_95 : JS.number := JS.lit 195 (-2).
Definition n0_961 : JS.number := JS.lit 961 (-3).
Definition n0_009 : JS.number := JS.lit 9 (-3).
Definition n100 : JS.number := JS.of_Z 100.
Definition n0 : JS.number := JS.zero.

(** ** Configuration (lines 13-22)

    The environment variables the pipeline reads; an unset variable is
    [None]. *)

Record env : Type := {
  env_ROUND_MODE : option string;
  env_PRINTIFY_TOKEN : option string;
  env_PRINTIFY_SHOP_ID : option string
}.

(** [a || b] where [a] is a string or undefined and [b] a string. *)
Definition str_or (a : option string) (b : string) : string :=
  match a with
  | Some s => if String.eqb s "" then b else s
  | None => b
  end.

(** [process.env.ROUND_MODE || 'none']. *)
Definition ROUND_MODE (cfg : env) : string := str_or (env_ROUND_MODE cfg) "none".

(** [!PRINTIFY_TOKEN || !PRINTIFY_SHOP_ID] *)
Definition printify_unconfigured (cfg : env) : bool :=
  String.eqb (str_or (env_PRINTIFY_TOKEN cfg) "") "" ||
  String.eqb (str_or (env_PRINTIFY_SHOP_ID cfg) "") "".

(** ** Rounding helpers (lines 30-51) *)

Definition roundToTwo (n : JS.number) : JS.number :=
  (JS.Math_round ((n + JS.EPSILON) * n100) / n100)%js.

Definition applyRounding (ROUND_MODE : string) (priceNum : JS.number) : JS.number :=
  if String.eqb ROUND_MODE "none" || String.eqb ROUND_MODE "" then roundToTwo priceNum
  else if String.eqb ROUND_MODE ".99" then
    let nextWhole := JS.Math_ceil priceNum in
    roundToTwo (nextWhole - n0_01)%js
  else if String.eqb ROUND_MODE ".95" then
    let whole := JS.Math_floor priceNum in
    let candidate1 := (whole + n0_95)%js in
    let candidate2 := (whole + n1_95)%js in
    let diff1 := JS.Math_abs (candidate1 - priceNum)%js in
    let diff2 := JS.Math_abs (candidate2 - priceNum)%js in
    roundToTwo (if (diff1 <= diff2)%js then candidate1 else candidate2)
  else if String.eqb ROUND_MODE "whole" then
    roundToTwo (JS.Math_round priceNum)
  else roundToTwo priceNum.

(** ** Price for a 1% profit (lines 156-161) *)

Definition computePriceFromCost (ROUND_MODE : string) (cost : JS.value) : JS.number :=
  let P := ((JS.parseFloat cost + n0_30) / n0_961)%js in
  applyRounding ROUND_MODE P.

(** ** The bulk cost feed (lines 54-76)

    [csv.parse] with [columns: true] turns every line after the header into
    an object from column names to strings.  The file is missing, or reading
    or parsing it throws, or it yields its records.

    The table is a plain object; the finite map holds its own
    properties. *)

Inductive csv_file : Type :=
  | CsvMissing
  | CsvUnreadable
  | CsvRecords (records : list (gmap string string)).

(** [map[key] = v] on a plain object, [v] a number: an own property is
    created or overwritten, whatever [Object.prototype] holds under that
    name, except for the key [__proto__]: that name is an accessor of
    [Object.prototype] whose setter ignores a number, so nothing is
    stored. *)
Definition object_set (map : gmap string JS.number) (key : string) (v : JS.number)
  : gmap string JS.number :=
  if String.eqb key "__proto__" then map else <[key := v]> map.

(** One iteration of the loop of lines 65-69. *)
Definition load_row (map : gmap string JS.number) (r : gmap string string)
  : gmap string JS.number :=
  let sku := JS.trim (str_or (r !! "sku") (str_or (r !! "SKU") "")) in
  let cost :=
    JS.parseFloat_string
      (str_or (r !! "cost") (str_or (r !! "cost_usd")
        (str_or (r !! "price") (str_or (r !! "price_usd") "0")))) in
  if negb (String.eqb sku "") then object_set map sku (if JS.isNaN cost then n0 else cost)
  else map.

(** The table [aliexpressCostBySku] after the call. *)
Definition loadAliExpressCSV (f : csv_file) : gmap string JS.number :=
  match f with
  | CsvMissing => ∅
  | CsvUnreadable => ∅
  | CsvRecords records => fold_left load_row records ∅
  end.

(** [aliexpressCostBySku[sku] || 0] (line 183).  For a SKU that is not an
    own property and names a member of [Object.prototype] ([constructor],
    [toString], [__proto__], ...), the source reads that member, a function
    or an object: it passes the test of line 186, the price computed from it
    is NaN and the comparison of line 194 is false, so the variant is
    counted as skipped and nothing is sent, which is also what the cost [0]
    read here leads to. *)
Definition csv_cost (aliexpressCostBySku : gmap string JS.number) (sku : string) : JS.number :=
  match aliexpressCostBySku !! sku with
  | Some c => if JS.num_truthy c then c else n0
  | None => n0
  end.

(** ** The outside world

    Every request is recorded; the answer to a request may depend on the
    requests made before it. *)

Inductive event : Type :=
  | GetPrintifyPage (page : Z)
  | PutVariantPrice (id : Z) (price : JS.number).

(** A variant of a remote-catalog product. *)
Record pvariant : Type := {
  pv_sku : JS.value;
  pv_offer_id : JS.value;
  pv_price : JS.value;
  pv_retail_price : JS.value;
  pv_default_price : JS.value;
  pv_variant_price : JS.value
}.

(** An entry of a remote-catalog page: [None] stands for an entry that is
    falsy or has no [variants]; otherwise [variants] is an array of
    objects. *)
Definition pproduct : Type := option (list pvariant).

(** What [axios.get] on a page of the remote catalog gives: the request or
    the reading of the body throws, or [resp.data.data || resp.data || []]
    is not an array, or it is that array. *)
Inductive response : Type :=
  | RespFailed
  | RespNotArray
  | RespList (list_ : list pproduct).

Record world : Type := {
  printify_page : list event -> Z -> response;
  shopify_put : list event -> Z -> JS.number -> bool
}.

(** Computations that talk to the world: they extend the trace (most recent
    request last) and give no result when the loop bound is exhausted. *)
Definition M (A : Type) : Type := list event -> option (A * list event).

#[global] Instance M_ret : MRet M := fun A a tr => Some (a, tr).
#[global] Instance M_bind : MBind M := fun A B k c tr =>
  match c tr with
  | Some (a, tr') => k a tr'
  | None => None
  end.

Definition diverge {A : Type} : M A := fun _ => None.

Definition axios_get_printify (w : world) (page : Z) : M response :=
  fun tr => Some (printify_page w tr page, tr ++ [GetPrintifyPage page]).

(** [updateShopifyVariantPrice] (lines 143-153): one PUT; a failure is
    caught and reported as [false].  The event records the number whose
    [toFixed(2)] rendering the request body carries. *)
Definition updateShopifyVariantPrice (w : world) (variantId : Z) (price : JS.number) : M bool :=
  fun tr => Some (shopify_put w tr variantId price, tr ++ [PutVariantPrice variantId price]).

(** ** Remote-catalog lookup by SKU (lines 84-117) *)

(** How a block of statements ends: it returns a value, throws, or falls
    through. *)
Inductive completion (A : Type) : Type :=
  | Return (a : A)
  | Throw
  | Next.
Arguments Return {A} a.
Arguments Throw {A}.
Arguments Next {A}.

(** [v.trim()] on a value: only strings have the method. *)
Definition trim_method (v : JS.value) : option string :=
  match v with
  | JS.VStr s => Some (JS.trim s)
  | _ => None
  end.

(** Lines 101-105. *)
Fixpoint first_price (possible : list JS.value) : JS.number :=
  match possible with
  | pval :: rest =>
      if JS.truthy pval && negb (JS.isNaN (JS.parseFloat pval)) then JS.parseFloat pval
      else first_price rest
  | [] => n0
  end.

(** Lines 96-107. *)
Fixpoint scan_variants (sku : string) (variants : list pvariant) : completion JS.number :=
  match variants with
  | v :: rest =>
      match trim_method (pv_sku v || pv_offer_id v || JS.VStr "")%js with
      | None => Throw
      | Some vSku =>
          if String.eqb vSku "" then scan_variants sku rest
          else if String.eqb vSku sku then
            Return (first_price [pv_price v; pv_retail_price v; pv_default_price v;
                                 pv_variant_price v])
          else scan_variants sku rest
      end
  | [] => Next
  end.

(** Lines 94-108. *)
Fixpoint scan_products (sku : string) (list_ : list pproduct) : completion JS.number :=
  match list_ with
  | None :: rest => scan_products sku rest
  | Some variants :: rest =>
      match scan_variants sku variants with
      | Next => scan_products sku rest
      | c => c
      end
  | [] => Next
  end.

Definition perPage : Z := 50.

(** The [while (true)] loop of lines 89-111, at most [fuel] iterations. *)
Fixpoint printify_loop (w : world) (sku : string) (fuel : nat) (page : Z) : M JS.number :=
  match fuel with
  | O => diverge
  | S fuel' =>
      resp ← axios_get_printify w page;
      match resp with
      | RespFailed => mret n0
      | RespNotArray => mret n0
      | RespList list_ =>
          if Z.of_nat (length list_) =? 0 then mret n0
          else match scan_products sku list_ with
               | Return c => mret c
               | Throw => mret n0
               | Next =>
                   if Z.of_nat (length list_) <? perPage then mret n0
                   else printify_loop w sku fuel' (page + 1)
               end
      end
  end.

Definition getPrintifyVariantCostBySku (cfg : env) (w : world) (fuel : nat) (sku : string)
  : M JS.number :=
  if printify_unconfigured cfg then mret n0
  else printify_loop w sku fuel 1.

(** ** The pricing pass (lines 164-210) *)

Record variant : Type := {
  v_id : Z;
  v_sku : JS.value;
  v_price : JS.value
}.

(** A fetched product.  The storefront types [vendor] as a string or null
    and a variant [id] as an integer; [variants] may be absent and is
    otherwise an array of objects. *)
Record product : Type := {
  p_vendor : option string;
  p_title : JS.value;
  p_variants : option (list variant)
}.

Record counts : Type := {
  updated : nat;
  skipped : nat;
  errors : nat
}.

Definition incr_updated (c : counts) : counts :=
  {| updated := S (updated c); skipped := skipped c; errors := errors c |}.
Definition incr_skipped (c : counts) : counts :=
  {| updated := updated c; skipped := S (skipped c); errors := errors c |}.
Definition incr_errors (c : counts) : counts :=
  {| updated := updated c; skipped := skipped c; errors := S (errors c) |}.

(** [v.toLowerCase()] on a value: only strings have the method. *)
Definition toLowerCase_method (v : JS.value) : option string :=
  match v with
  | JS.VStr s => Some (JS.toLowerCase s)
  | _ => None
  end.

(** The supplier test of line 180, [vendor] already lower-cased (line 173):
    [None] when evaluating it throws. *)
Definition is_printify (vendor : string) (p : product) : option bool :=
  if JS.includes vendor "printify" then Some true
  else match toLowerCase_method (p_title p || JS.VStr "")%js with
       | Some t => Some (JS.includes t "printify")
       | None => None
       end.

(** [!supplierCost || supplierCost <= 0] (line 186). *)
Definition no_cost (supplierCost : JS.number) : bool :=
  negb (JS.num_truthy supplierCost) || (supplierCost <= n0)%js.

Section PricingJob.

Variable cfg : env.
Variable w : world.
Variable fuel : nat.
Variable aliexpressCostBySku : gmap string JS.number.

(** Lines 186-199, once the supplier cost is known. *)
Definition price_variant (v : variant) (supplierCost : JS.number) (c : counts) : M counts :=
  if no_cost supplierCost then mret (incr_skipped c)
  else
    let newPrice := computePriceFromCost (ROUND_MODE cfg) (JS.VNum supplierCost) in
    let currentPrice := JS.parseFloat (v_price v || JS.VStr "0")%js in
    if (JS.Math_abs (currentPrice - newPrice) > n0_009)%js then
      ok ← updateShopifyVariantPrice w (v_id v) newPrice;
      mret (if ok : bool then incr_updated c else incr_errors c)
    else mret (incr_skipped c).

(** The body of the inner loop (lines 175-204): the [try] block and its
    [catch]. *)
Definition process_variant (vendor : string) (p : product) (v : variant) (c : counts)
  : M counts :=
  match trim_method (v_sku v || JS.VStr "")%js with
  | None => mret (incr_errors c)
  | Some sku =>
      match is_printify vendor p with
      | None => mret (incr_errors c)
      | Some true =>
          supplierCost ← getPrintifyVariantCostBySku cfg w fuel sku;
          price_variant v supplierCost c
      | Some false =>
          price_variant v (csv_cost aliexpressCostBySku sku) c
      end
  end.

Fixpoint process_variants (vendor : string) (p : product) (vs : list variant) (c : counts)
  : M counts :=
  match vs with
  | v :: rest => c' ← process_variant vendor p v c; process_variants vendor p rest c'
  | [] => mret c
  end.

Definition process_product (p : product) (c : counts) : M counts :=
  let vendor := JS.toLowerCase (str_or (p_vendor p) "") in
  process_variants vendor p (default [] (p_variants p)) c.

Fixpoint process_products (products : list product) (c : counts) : M counts :=
  match products with
  | p :: rest => c' ← process_product p c; process_products rest c'
  | [] => mret c
  end.

End PricingJob.

(** [runPricingJob]: the feed is reloaded, [products] is what
    [fetchAllShopifyProducts] returned, and the pass starts from an empty
    trace. *)
Definition runPricingJob (cfg : env) (w : world) (fuel : nat) (f : csv_file)
  (products : list product) : option (counts * list event) :=
  let aliexpressCostBySku := loadAliExpressCSV f in
  process_products cfg w fuel aliexpressCostBySku products
    {| updated := 0; skipped := 0; errors := 0 |} [].
(** ** Vocabulary of the specification *)

Definition n0_0091 : JS.number := JS.lit 91 (-4).

(** The variants a pass iterates over. *)
Fixpoint variant_count (products : list product) : nat :=
  match products with
  | p :: rest => (length (default [] (p_variants p)) + variant_count rest)%nat
  | [] => 0%nat
  end.

(** The key and the value a feed row contributes to the table. *)
Definition row_sku (r : gmap string string) : string :=
  JS.trim (str_or (r !! "sku") (str_or (r !! "SKU") "")).

Definition row_cost_text (r : gmap string string) : string :=
  str_or (r !! "cost") (str_or (r !! "cost_usd")
    (str_or (r !! "price") (str_or (r !! "price_usd") "0"))).

Definition row_cost (r : gmap string string) : JS.number :=
  let cost := JS.parseFloat_string (row_cost_text r) in
  if JS.isNaN cost then n0 else cost.

Definition total (c : counts) : nat := (updated c + skipped c + errors c)%nat.

(** A page that holds at least [perPage] entries. *)
Definition full_page (r : response) : bool :=
  match r with
  | RespList list_ => perPage <=? Z.of_nat (length list_)
  | _ => false
  end.

(** The remote catalog never serves a full page from page [bound] on. *)
Definition catalog_ends (w : world) (bound : nat) : Prop :=
  forall tr page, Z.of_nat bound <= page -> full_page (printify_page w tr page) = false.

(** [u] is a capital letter and [l] the small letter that goes with it:
    [A-Z] with [a-z], and the accented capitals from [U+00C0] to [U+00DE],
    the sign [U+00D7] apart, with the letters 32 places further. *)
Definition letter_pair (u l : ascii) : Prop :=
  ((65 <= JS.code u <= 90) \/ (192 <= JS.code u <= 222 /\ JS.code u <> 215)) /\
  JS.code l = JS.code u + 32.

(** The same character, or the same letter in the other case. *)
Definition same_letter (a b : ascii) : Prop :=
  a = b \/ letter_pair a b \/ letter_pair b a.

(** Two texts of the same length that agree letter by letter, case
    ignored. *)
Fixpoint same_text (s t : string) : Prop :=
  match s, t with
  | EmptyString, EmptyString => True
  | String a s', String b t' => same_letter a b /\ same_text s' t'
  | _, _ => False
  end.

(** [marker] occurs in [s] when letter case is ignored. *)
Definition contains_ci (s marker : string) : Prop :=
  exists pre mid post, s = pre +:+ mid +:+ post /\ same_text mid marker.

(** The trace after [k] more pages, [first] onwards, have been requested. *)
Definition fetched (tr : list event) (first : Z) (k : nat) : list event :=
  tr ++ map (fun i => GetPrintifyPage (first + Z.of_nat i)) (seq 0 k).

(** The identifier the scan compares: [(v.sku || v.offer_id || '').trim()]. *)
Definition ident (v : pvariant) : option string :=
  trim_method (pv_sku v || pv_offer_id v || JS.VStr "")%js.

Definition matches (sku : string) (v : pvariant) : Prop :=
  ident v = Some sku /\ sku <> "".

Definition passed_over (sku : string) (v : pvariant) : Prop :=
  exists s, ident v = Some s /\ (s = "" \/ s <> sku).

(** All the variants of a page, in the order they are scanned. *)
Fixpoint variants_of (list_ : list pproduct) : list pvariant :=
  match list_ with
  | Some variants :: rest => variants ++ variants_of rest
  | None :: rest => variants_of rest
  | [] => []
  end.

(** Page [page], requested after [tr], is full and holds no match. *)
Definition full_without_match (w : world) (sku : string) (tr : list event) (page : Z) : Prop :=
  exists list_, printify_page w tr page = RespList list_ /\
                perPage <= Z.of_nat (length list_) /\
                scan_products sku list_ = Next.

(** ** Vocabulary for binary64 values *)

(** A mantissa [m] at exponent [e] that needs no further shift, apart from
    the carry [m = 2^53]. *)
Definition fits (m e : Z) : Prop :=
  0 <= m <= 2 ^ 53 /\ -1074 <= e /\ (-1074 < e -> 2 ^ 52 <= m).

(** The number with sign [s] and value [m * 2^e], for such a mantissa. *)
Definition pack (s : bool) (m e : Z) : JS.number :=
  match m with
  | Zpos p => if m =? 2 ^ 53 then S754_finite s (Z.to_pos (2 ^ 52)) (e + 1)
              else S754_finite s p e
  | _ => S754_zero s
  end.

(** The rational value of a finite number. *)
Definition val (x : JS.number) : Q :=
  match x with
  | S754_finite s m e => inject_Z (JS.smant s m) * 2 ^ e
  | _ => 0
  end.

Definition finite (x : JS.number) : Prop :=
  match x with
  | S754_finite _ _ _ | S754_zero _ => True
  | _ => False
  end.

Definition valid (x : JS.number) : Prop := valid_binary JS.prec JS.emax x = true.

Definition sign_of (x : JS.number) : bool :=
  match x with
  | S754_zero s | S754_infinity s | S754_finite s _ _ => s
  | S754_nan => false
  end.

(** [r] is finite and within [2^(K-53)] of the exact result [v], with its
    sign. *)
Definition rounds_to (r : JS.number) (v : Q) (K : Z) : Prop :=
  valid r /\ finite r /\
  (v - 2 ^ (K - 53) <= val r <= v + 2 ^ (K - 53))%Q /\
  (0 <= v -> 0 <= val r)%Q /\ (v <= 0 -> val r <= 0)%Q /\
  (0 < v -> sign_of r = false)%Q /\ (v < 0 -> sign_of r = true)%Q.

(** The number an integer rounding returns for the integer [n]. *)
Definition int_result (s : bool) (n : Z) : JS.number :=
  match n with
  | 0%Z => S754_zero s
  | k => JS.of_Z k
  end.

(** The amount of [n] cents, as the code produces it. *)
Definition cents (n : Z) : JS.number := JS.div (int_result false n) n100.

(** The largest amount the theorems below are stated for. *)
Definition max_amount : JS.number := JS.of_Z 1000000000.

Definition n0_005 : JS.number := JS.lit 5 (-3).

Definition n0_004 : JS.number := JS.lit 4 (-3).

Definition n1 : JS.number := JS.of_Z 1.

Definition max_cost : JS.number := JS.of_Z 1000000.

(** [|priceFromCost(cost) * 0.961 - 0.30 - cost|], computed as the code
    computes. *)
Definition inversion_gap (mode : string) (cost : JS.number) : JS.number :=
  JS.Math_abs (computePriceFromCost mode (JS.VNum cost) * n0_961 - n0_30 - cost)%js.

(** The same for the formula result [P] before the rounding policy. *)
Definition formula_gap (cost : JS.number) : JS.number :=
  let P := ((JS.parseFloat (JS.VNum cost) + n0_30) / n0_961)%js in
  JS.Math_abs (P * n0_961 - n0_30 - cost)%js.

(** [0.00000001]. *)
Definition float_tolerance : JS.number := JS.lit 1 (-8).

(** How far the rounding policy may move the inversion: half a cent in mode
    [none], one unit in the modes that pick a price ending. *)
Definition rounding_slack (mode : string) : JS.number :=
  if (String.eqb mode ".99" || String.eqb mode ".95" || String.eqb mode "whole")%bool
  then n1 else n0_005.

(** ** Concrete inputs *)

Definition n4_00 : JS.number := JS.lit 400 (-2).
Definition n4_47 : JS.number := JS.lit 447 (-2).
Definition n4_48 : JS.number := JS.lit 448 (-2).
Definition n4_99 : JS.number := JS.lit 499 (-2).
Definition n7_20 : JS.number := JS.lit 720 (-2).
Definition n0_49 : JS.number := JS.lit 49 (-2).

(** Two amounts above thirty-five million millions. *)
Definition huge_a : JS.number := JS.lit 35215096703674875 (-3).
Definition huge_b : JS.number := JS.lit 3518722158866374 (-2).

Definition env_default : env :=
  {| env_ROUND_MODE := None; env_PRINTIFY_TOKEN := None; env_PRINTIFY_SHOP_ID := None |}.

Definition env_whole : env :=
  {| env_ROUND_MODE := Some "whole"; env_PRINTIFY_TOKEN := None;
     env_PRINTIFY_SHOP_ID := None |}.

Definition env_printify : env :=
  {| env_ROUND_MODE := None; env_PRINTIFY_TOKEN := Some "token";
     env_PRINTIFY_SHOP_ID := Some "42" |}.

(** A storefront that accepts every update, and a remote catalog that
    fails. *)
Definition world_accepting : world :=
  {| printify_page := fun _ _ => RespFailed; shopify_put := fun _ _ _ => true |}.

(** The feed and the catalog of the end-to-end scenario. *)
Definition scenario_feed : csv_file :=
  CsvRecords [ {[ "sku" := "SKU123"; "cost" := "4.00" ]} ].

Definition scenario_variant (id : Z) : variant :=
  {| v_id := id; v_sku := JS.VStr "SKU123"; v_price := JS.VStr "4.00" |}.

Definition scenario_products (id : Z) : list product :=
  [ {| p_vendor := Some "Generic"; p_title := JS.VStr "Mug";
       p_variants := Some [scenario_variant id] |} ].

(** A feed with a duplicate SKU, a blank SKU and an unparsable cost. *)
Definition feed_rows_before : list (gmap string string) :=
  [ {[ "sku" := "A1"; "cost" := "2.50" ]}; {[ "sku" := "  "; "cost" := "9.00" ]} ].
Definition feed_row_last : gmap string string := {[ "SKU" := " A1 "; "price" := "3.75" ]}.
Definition feed_row_bad : gmap string string := {[ "sku" := "B2"; "cost" := "n/a" ]}.

(** A remote catalog of three full pages; the variant sought is the last
    entry of page 3. *)
Definition pv_other : pvariant :=
  {| pv_sku := JS.VStr "OTHER"; pv_offer_id := JS.VUndefined; pv_price := JS.VNum (JS.of_Z 100);
     pv_retail_price := JS.VUndefined; pv_default_price := JS.VUndefined;
     pv_variant_price := JS.VUndefined |}.

Definition pv_sought : pvariant :=
  {| pv_sku := JS.VStr " TEE-1 "; pv_offer_id := JS.VUndefined; pv_price := JS.VUndefined;
     pv_retail_price := JS.VStr "12.50"; pv_default_price := JS.VNum (JS.of_Z 9);
     pv_variant_price := JS.VUndefined |}.

Definition page_plain : list pproduct := repeat (Some [pv_other]) 50.
Definition page_match : list pproduct := repeat (Some [pv_other]) 49 ++ [Some [pv_sought]].

Definition world_three_pages : world :=
  {| printify_page := fun _ page =>
       if page =? 1 then RespList page_plain
       else if page =? 2 then RespList page_plain
       else if page =? 3 then RespList page_match
       else RespList page_plain;
     shopify_put := fun _ _ _ => true |}.

Definition product_printify : product :=
  {| p_vendor := Some "Printify Prints"; p_title := JS.VStr "Tee"; p_variants := None |}.

Definition product_generic : product :=
  {| p_vendor := Some "Generic"; p_title := JS.VStr "Mug"; p_variants := None |}.

Definition variant_tee : variant :=
  {| v_id := 1; v_sku := JS.VStr "TEE-1"; v_price := JS.VStr "10.00" |}.

(** A variant priced at the tolerance, and one just beyond it. *)
Definition variant_at_tolerance : variant :=
  {| v_id := 2; v_sku := JS.VStr "X"; v_price := JS.VStr "0.009" |}.
Definition variant_beyond_tolerance : variant :=
  {| v_id := 3; v_sku := JS.VStr "X"; v_price := JS.VStr "0.0091" |}.

Definition counts_zero : counts := {| updated := 0; skipped := 0; errors := 0 |}.

(** ** Fetching the storefront catalog (lines 120-141) *)

Record shop_env : Type := {
  env_SHOP_DOMAIN : option string;
  env_SHOP_API_KEY : option string;
  env_SHOP_API_PASSWORD : option string
}.

(** A template literal renders an unset variable as [undefined]. *)
Definition interpolate (v : option string) : string := default "undefined" v.

(** Line 25. *)
Definition SHOP_BASE (sc : shop_env) : string :=
  String.append "https://" (String.append (interpolate (env_SHOP_API_KEY sc))
    (String.append ":" (String.append (interpolate (env_SHOP_API_PASSWORD sc))
      (String.append "@" (String.append (interpolate (env_SHOP_DOMAIN sc))
        "/admin/api/2024-10"))))).

(** What a page of the storefront catalog carries: [body.products], which
    may be absent and is otherwise an array of products, and the [link]
    header, which may be absent and is otherwise a string. *)
Record shop_page : Type := {
  body_products : option (list product);
  headers_link : option string
}.

(** The request, or the reading of its body, throws, or it gives a page. *)
Inductive shop_response : Type :=
  | ShopFailed
  | ShopPage (resp : shop_page).

(** The storefront answers a request for an endpoint as a function of the
    endpoints requested before. *)
Definition storefront : Type := list string -> string -> shop_response.

Definition dquote : ascii := Ascii.ascii_of_N 34.

(** The text [rel=] followed by [next] between double quotes. *)
Definition rel_next : string :=
  String.append "rel=" (String dquote (String.append "next" (String dquote EmptyString))).

(** The longest prefix free of [>], and what follows it. *)
Fixpoint span_not_gt (s : string) : string * string :=
  match s with
  | String c r =>
      if Ascii.eqb c ">" then (EmptyString, s)
      else let '(a, b) := span_not_gt r in (String c a, b)
  | EmptyString => (EmptyString, EmptyString)
  end.

(** The pattern of line 131 at the start of [s]: [<], one or more
    characters other than [>], then [>;], white space, and [rel_next].  The
    greedy run can only succeed at its full length, since the character that
    ends a shorter run is not [>]; likewise for the white space.  The result
    is the first capture group. *)
Definition match_at (s : string) : option string :=
  match s with
  | String c r =>
      if Ascii.eqb c "<" then
        let '(url, rest) := span_not_gt r in
        if String.eqb url "" then None
        else match rest with
             | String c1 (String c2 t) =>
                 if Ascii.eqb c1 ">" && Ascii.eqb c2 ";" &&
                    String.prefix rel_next (JS.trimStart t)
                 then Some url else None
             | _ => None
             end
      else None
  | EmptyString => None
  end.

(** [link.match(...)]: the leftmost position where the pattern matches. *)
Fixpoint link_match (s : string) : option string :=
  match match_at s with
  | Some url => Some url
  | None =>
      match s with
      | String _ r => link_match r
      | EmptyString => None
      end
  end.

(** The value of [endpoint] after lines 129-135. *)
Definition next_endpoint (link : option string) : option string :=
  match link with
  | Some l =>
      if negb (String.eqb l "") && JS.includes l rel_next then link_match l else None
  | None => None
  end.

(** The loop of lines 124-136, at most [fuel] requests; [asked] lists the
    endpoints requested so far.  A failure leaves the loop with the results
    gathered before it (lines 137-139). *)
Fixpoint fetch_loop (s : storefront) (fuel : nat) (endpoint : option string)
    (results : list product) (asked : list string) {struct fuel}
  : option (list product * list string) :=
  match endpoint with
  | None => Some (results, asked)
  | Some url =>
      if String.eqb url "" then Some (results, asked)
      else match fuel with
           | O => None
           | S fuel' =>
               match s asked url with
               | ShopFailed => Some (results, asked ++ [url])
               | ShopPage resp =>
                   fetch_loop s fuel' (next_endpoint (headers_link resp))
                     (results ++ default [] (body_products resp)) (asked ++ [url])
               end
           end
  end.

Definition first_endpoint (sc : shop_env) : string :=
  String.append (SHOP_BASE sc) "/products.json?limit=250".

Definition fetchAllShopifyProducts (sc : shop_env) (s : storefront) (fuel : nat)
  : option (list product * list string) :=
  fetch_loop s fuel (Some (first_endpoint sc)) [] [].

(** A whole pass (lines 164-210): the catalog is fetched, then priced. *)
Definition pricing_pass (cfg : env) (sc : shop_env) (s : storefront) (w : world)
    (fuel : nat) (f : csv_file) : option (counts * list string * list event) :=
  match fetchAllShopifyProducts sc s fuel with
  | Some (products, asked) =>
      match runPricingJob cfg w fuel f products with
      | Some (c, tr) => Some (c, asked, tr)
      | None => None
      end
  | None => None
  end.

(** The count of line 71 and of the refresh route (lines 78-81):
    [Object.keys(map).length]. *)
Definition loaded_count (f : csv_file) : nat := size (loadAliExpressCSV f).

(** ** The price an update carries (line 146) *)

Definition digit_char (d : Z) : ascii := Ascii.ascii_of_N (Z.to_N (48 + d)).

(** The decimal digits of [n >= 0], most significant first, before [acc]. *)
Fixpoint decimal_digits (fuel : nat) (n : Z) (acc : string) : string :=
  match fuel with
  | O => acc
  | S fuel' =>
      let acc' := String (digit_char (n mod 10)) acc in
      if n / 10 =? 0 then acc' else decimal_digits fuel' (n / 10) acc'
  end.

Definition decimal (n : Z) : string := decimal_digits (S (Z.to_nat (Z.log2 n))) n EmptyString.

(** The integer [n >= 0] written with a point before its last two digits,
    and at least one digit before the point. *)
Definition two_decimals (n : Z) : string :=
  String.append (decimal (n / 100))
    (String "." (String (digit_char (n mod 100 / 10))
                   (String (digit_char (n mod 10)) EmptyString))).

(** [x.toFixed(2)], for [|x| < 10^21]: the sign, then the integer [n]
    closest to [100 |x|] (the larger one on a tie), written with two
    decimals.  Larger finite numbers are written in exponent notation, which
    is not modelled ([None]). *)
Definition toFixed2 (x : JS.number) : option string :=
  match x with
  | S754_nan => Some "NaN"
  | S754_infinity s => Some (if s then "-Infinity" else "Infinity")
  | S754_zero _ => Some "0.00"
  | S754_finite s m e =>
      if (0 <=? e) && (10 ^ 21 <=? Zpos m * 2 ^ e) then None
      else
        let n := if 0 <=? e then 100 * Zpos m * 2 ^ e
                 else Z.shiftr (200 * Zpos m + 2 ^ (- e)) (1 - e) in
        Some (String.append (if s then "-" else "") (two_decimals n))
  end.

(** ** Vocabulary for traces *)

(** The update requests of a trace. *)
Fixpoint puts (tr : list event) : list (Z * JS.number) :=
  match tr with
  | PutVariantPrice id price :: rest => (id, price) :: puts rest
  | GetPrintifyPage _ :: rest => puts rest
  | [] => []
  end.

(** The number of update requests of [tr] the storefront accepts, when
    [tr] is issued after [before]. *)
Fixpoint accepted (w : world) (before tr : list event) : nat :=
  match tr with
  | e :: rest =>
      (match e with
       | PutVariantPrice id price => if shopify_put w before id price then 1 else 0
       | GetPrintifyPage _ => 0
       end + accepted w (before ++ [e]) rest)%nat
  | [] => 0%nat
  end.

(** All the variants of a catalog, in the order a pass visits them. *)
Fixpoint all_variants (products : list product) : list variant :=
  match products with
  | p :: rest => default [] (p_variants p) ++ all_variants rest
  | [] => []
  end.

(** The update a pass may send for a variant: the variant's id, with a price
    computed from a cost that passed the test of line 186. *)
Definition update_for (cfg : env) (v : variant) (u : Z * JS.number) : Prop :=
  u.1 = v_id v /\
  exists cost, no_cost cost = false /\
               u.2 = computePriceFromCost (ROUND_MODE cfg) (JS.VNum cost).

(** What a stretch of a pass over the variants [vs] does to the counters
    and to the trace: the trace is extended; the updates sent are for some
    of the variants, in their order, at most one each; [updated] grows by
    the number of updates the storefront accepted, and every other update
    sent is counted in [errors]. *)
Definition pass_step (cfg : env) (w : world) (vs : list variant)
    (c : counts) (tr : list event) (c' : counts) (tr' : list event) : Prop :=
  exists ext sent,
    tr' = tr ++ ext /\
    sublist sent vs /\ Forall2 (update_for cfg) sent (puts ext) /\
    updated c' = (updated c + accepted w tr ext)%nat /\
    (length (puts ext) + updated c + errors c <= updated c' + errors c')%nat /\
    (skipped c <= skipped c')%nat.

(** [0.18]. *)
Definition n0_18 : JS.number := JS.lit 18 (-2).

(** ** Vocabulary for the catalog fetch *)

(** The character [c] does not occur in [s]. *)
Fixpoint lacks (c : ascii) (s : string) : bool :=
  match s with
  | String c' r => negb (Ascii.eqb c' c) && lacks c r
  | EmptyString => true
  end.

(** A link header entry: [<url>; rel=] and the relation between double
    quotes. *)
Definition link_entry (url rel : string) : string :=
  String "<" (String.append url
    (String.append ">; rel=" (String dquote (String.append rel (String dquote EmptyString))))).

(** Starting from [endpoint], the storefront serves [pages] in turn, each
    leading to the next, and the last leads to [final]. *)
Fixpoint walk (s : storefront) (asked : list string) (endpoint : option string)
    (pages : list (string * shop_page)) (final : option string) : Prop :=
  match pages with
  | [] => endpoint = final
  | (url, pg) :: rest =>
      endpoint = Some url /\ s asked url = ShopPage pg /\
      walk s (asked ++ [url]) (next_endpoint (headers_link pg)) rest final
  end.

(** The products of a run of pages, in order. *)
Fixpoint products_of (pages : list (string * shop_page)) : list product :=
  match pages with
  | (_, pg) :: rest => default [] (body_products pg) ++ products_of rest
  | [] => []
  end.

(** ** Further concrete inputs *)

Definition n1_005 : JS.number := JS.lit 1005 (-3).

(** A storefront that refuses every update. *)
Definition world_refusing : world :=
  {| printify_page := fun _ _ => RespFailed; shopify_put := fun _ _ _ => false |}.

(** A remote catalog whose first page holds a variant with a numeric SKU
    before the variant sought. *)
Definition pv_numeric : pvariant :=
  {| pv_sku := JS.VNum (JS.of_Z 5); pv_offer_id := JS.VUndefined; pv_price := JS.VUndefined;
     pv_retail_price := JS.VUndefined; pv_default_price := JS.VUndefined;
     pv_variant_price := JS.VUndefined |}.

Definition world_malformed : world :=
  {| printify_page := fun _ _ => RespList [Some [pv_other; pv_numeric; pv_sought]];
     shopify_put := fun _ _ _ => true |}.

Definition variant_blank : variant :=
  {| v_id := 4; v_sku := JS.VStr "  "; v_price := JS.VStr "10.00" |}.

Definition variant_numeric : variant :=
  {| v_id := 5; v_sku := JS.VNum (JS.of_Z 123); v_price := JS.VStr "10.00" |}.

Definition variant_unpriced : variant :=
  {| v_id := 6; v_sku := JS.VStr "SKU123"; v_price := JS.VUndefined |}.

Definition variant_mispriced : variant :=
  {| v_id := 8; v_sku := JS.VStr "SKU123"; v_price := JS.VStr "n/a" |}.

Definition product_titled : product :=
  {| p_vendor := Some "Acme"; p_title := JS.VStr "Tee by PRINTIFY"; p_variants := None |}.

Definition product_numbered : product :=
  {| p_vendor := None; p_title := JS.VNum (JS.of_Z 5); p_variants := None |}.

Definition shop_env_unset : shop_env :=
  {| env_SHOP_DOMAIN := Some "shop.example"; env_SHOP_API_KEY := None;
     env_SHOP_API_PASSWORD := None |}.

Definition url_two : string := "https://shop.example/products.json?page_info=two".
Definition url_one : string := "https://shop.example/products.json?page_info=one".

Definition shop_page_one : shop_page :=
  {| body_products := Some (scenario_products 7);
     headers_link := Some (link_entry url_two "next") |}.

Definition shop_page_two : shop_page :=
  {| body_products := Some [product_generic];
     headers_link := Some (link_entry url_one "previous") |}.

(** A storefront of two linked pages, one whose second page fails, and one
    that is down. *)
Definition storefront_two_pages : storefront := fun _ url =>
  if String.eqb url (first_endpoint shop_env_unset) then ShopPage shop_page_one
  else if String.eqb url url_two then ShopPage shop_page_two
  else ShopFailed.

Definition storefront_failing_second : storefront := fun _ url =>
  if String.eqb url (first_endpoint shop_env_unset) then ShopPage shop_page_one
  else ShopFailed.

Definition storefront_down : storefront := fun _ _ => ShopFailed.

Definition variant_b2 : variant :=
  {| v_id := 9; v_sku := JS.VStr "B2"; v_price := JS.VStr "10.00" |}.

(** A feed that prices the SKU of [variant_tee], and the prices the two
    routes lead to for it: from the feed cost 4.00, and from the remote cost
    12.50. *)
Definition feed_tee : csv_file :=
  CsvRecords [ {[ "sku" := "TEE-1"; "cost" := "4.00" ]} ].

Definition n13_32 : JS.number := JS.lit 1332 (-2).

(** A feed row with the SKU [__proto__]. *)
Definition feed_row_proto : gmap string string := {[ "sku" := "__proto__"; "cost" := "5" ]}.

(** Variants priced 0.009 above and 0.009 below the target 4.47, and one
    priced at the target. *)
Definition variant_4_479 : variant :=
  {| v_id := 10; v_sku := JS.VStr "SKU123"; v_price := JS.VStr "4.479" |}.
Definition variant_4_461 : variant :=
  {| v_id := 11; v_sku := JS.VStr "SKU123"; v_price := JS.VStr "4.461" |}.
Definition variant_4_47 : variant :=
  {| v_id := 12; v_sku := JS.VStr "SKU123"; v_price := JS.VStr "4.47" |}.

(** Variants priced 0.0089 and 0.0091 above the target 4.47. *)
Definition variant_4_4789 : variant :=
  {| v_id := 13; v_sku := JS.VStr "SKU123"; v_price := JS.VStr "4.4789" |}.
Definition variant_4_4791 : variant :=
  {| v_id := 14; v_sku := JS.VStr "SKU123"; v_price := JS.VStr "4.4791" |}.

(** ** Binary64 rounding *)

Section Digits.

Lemma digits2_pos_bounds (p : positive) :
  2 ^ (Zpos (digits2_pos p) - 1) <= Zpos p < 2 ^ Zpos (digits2_pos p).
Proof.
  induction p as [p IH|p IH|]; cbn [digits2_pos]; [| |cbn; lia].
  - rewrite Pos2Z.inj_succ, Z.pow_succ_r by lia.
    replace (Z.succ (Zpos (digits2_pos p)) - 1) with (Z.succ (Zpos (digits2_pos p) - 1)) by lia.
    rewrite Z.pow_succ_r by lia. lia.
  - rewrite Pos2Z.inj_succ, Z.pow_succ_r by lia.
    replace (Z.succ (Zpos (digits2_pos p)) - 1) with (Z.succ (Zpos (digits2_pos p) - 1)) by lia.
    rewrite Z.pow_succ_r by lia. lia.
Qed.

Lemma Zdigits2_bounds (m : Z) :
  0 < m -> 2 ^ (Zdigits2 m - 1) <= m < 2 ^ Zdigits2 m.
Proof. destruct m as [|p|p]; [lia| |lia]. intros _. apply digits2_pos_bounds. Qed.

Lemma Zdigits2_nonneg (m : Z) : 0 <= Zdigits2 m.
Proof. destruct m; cbn; lia. Qed.

Lemma Zdigits2_pos (m : Z) : 0 < m -> 0 < Zdigits2 m.
Proof. destruct m; cbn; lia. Qed.

(** [m < 2^k] bounds the number of digits by [k], and [2^k <= m] demands
    more than [k]. *)
Lemma Zdigits2_le (m k : Z) : 0 <= k -> 0 <= m < 2 ^ k -> Zdigits2 m <= k.
Proof.
  intros Hk [H0 Hm]. destruct (Z.eq_dec m 0) as [->|Hne]; [cbn; lia|].
  pose proof (Zdigits2_bounds m ltac:(lia)) as [Hlo _].
  pose proof (Zdigits2_pos m ltac:(lia)).
  destruct (Z_le_gt_dec (Zdigits2 m) k) as [|Hgt]; [assumption|].
  assert (2 ^ k <= 2 ^ (Zdigits2 m - 1)) by (apply Z.pow_le_mono_r; lia). lia.
Qed.

Lemma Zdigits2_gt (m k : Z) : 0 <= k -> 2 ^ k <= m -> k < Zdigits2 m.
Proof.
  intros Hk Hm. assert (0 < m) by (pose proof (Z.pow_pos_nonneg 2 k); lia).
  pose proof (Zdigits2_bounds m ltac:(lia)) as [_ Hhi].
  destruct (Z_lt_le_dec k (Zdigits2 m)) as [|Hle]; [assumption|].
  assert (2 ^ Zdigits2 m <= 2 ^ k) by (apply Z.pow_le_mono_r; lia). lia.
Qed.

End Digits.

Section Shift.

Lemma shr_1_half (r : shr_record) : 0 <= shr_m r -> shr_m (shr_1 r) = shr_m r / 2.
Proof.
  destruct r as [m r s]. cbn [shr_m]. intros H.
  destruct m as [|[p|p|]|p]; cbn [shr_1 shr_m]; try reflexivity; try lia.
  - apply Z.div_unique with 1; lia.
  - apply Z.div_unique with 0; lia.
Qed.

Lemma iter_shr_1 (p : positive) :
  forall r : shr_record, 0 <= shr_m r ->
  shr_m (SpecFloat.iter_pos shr_1 p r) = shr_m r / 2 ^ Zpos p.
Proof.
  induction p as [p IH|p IH|]; intros r Hr; cbn [SpecFloat.iter_pos].
  - assert (0 <= shr_m (shr_1 r)) by (rewrite shr_1_half by lia; apply Z.div_pos; lia).
    assert (0 <= shr_m (SpecFloat.iter_pos shr_1 p (shr_1 r))).
    { rewrite IH by lia. apply Z.div_pos; [lia|]. apply Z.pow_pos_nonneg; lia. }
    rewrite !IH, shr_1_half by lia.
    rewrite !Z.div_div by (try apply Z.pow_pos_nonneg; lia).
    f_equal. replace (Z.pos p~1) with (1 + Z.pos p + Z.pos p) by lia.
    rewrite !Z.pow_add_r, Z.pow_1_r by lia. ring.
  - assert (0 <= shr_m (SpecFloat.iter_pos shr_1 p r)).
    { rewrite IH by lia. apply Z.div_pos; [lia|]. apply Z.pow_pos_nonneg; lia. }
    rewrite !IH by lia.
    rewrite !Z.div_div by (try apply Z.pow_pos_nonneg; lia).
    f_equal. replace (Z.pos p~0) with (Z.pos p + Z.pos p) by lia.
    rewrite !Z.pow_add_r by lia. ring.
  - rewrite shr_1_half by lia. reflexivity.
Qed.

Lemma shr_m_of_loc (m : Z) (l : location) : shr_m (shr_record_of_loc m l) = m.
Proof. now destruct l as [|[]]. Qed.

Lemma round_nearest_even_cases (m : Z) (l : location) :
  round_nearest_even m l = m \/ round_nearest_even m l = m + 1.
Proof. destruct l as [|[]]; cbn; try destruct (Z.even m); auto. Qed.

End Shift.

Section RoundAux.

Lemma fexp_eq (e : Z) : fexp JS.prec JS.emax e = Z.max (e - 53) (-1074).
Proof. reflexivity. Qed.

Lemma shr_fexp_fits (m e : Z) :
  fits m e ->
  (m < 2 ^ 53 /\ exists r, shr_fexp JS.prec JS.emax m e loc_Exact = (r, e) /\ shr_m r = m) \/
  (m = 2 ^ 53 /\
   exists r, shr_fexp JS.prec JS.emax m e loc_Exact = (r, e + 1) /\ shr_m r = 2 ^ 52).
Proof.
  intros ((H0 & Hm) & He & Hn). unfold shr_fexp. rewrite fexp_eq.
  destruct (Z.eq_dec m (2 ^ 53)) as [->|Hne].
  - right. split; [reflexivity|].
    change (Zdigits2 (2 ^ 53)) with 54.
    replace (Z.max _ _ - e) with 1 by lia. cbn. eexists. split; reflexivity.
  - left. split; [lia|].
    assert (Hd : Zdigits2 m <= 53) by (apply Zdigits2_le; lia).
    pose proof (Zdigits2_nonneg m).
    assert (Hn0 : Z.max (Zdigits2 m + e - 53) (-1074) - e <= 0) by lia.
    unfold shr. destruct (Z.max _ _ - e) as [|p|p]; [|lia|]; cbn; eexists; (split; reflexivity).
Qed.

Lemma pack_valid (s : bool) (m e : Z) :
  fits m e -> e <= 970 -> valid_binary JS.prec JS.emax (pack s m e) = true.
Proof.
  intros ((H0 & Hm) & He & Hn) Hmax. unfold pack.
  destruct m as [|p|p]; [reflexivity| |reflexivity].
  destruct (Z.eqb_spec (Zpos p) (2 ^ 53)) as [Heq|Hne]; cbn [valid_binary]; unfold bounded, canonical_mantissa.
  - apply andb_true_intro. split; [apply Z.eqb_eq|apply Z.leb_le; unfold JS.emax, JS.prec; lia].
    rewrite fexp_eq. change (Z.pos (digits2_pos (Z.to_pos (2 ^ 52)))) with 53. lia.
  - apply andb_true_intro. split; [apply Z.eqb_eq|apply Z.leb_le; unfold JS.emax, JS.prec; lia].
    rewrite fexp_eq.
    assert (Hd : Zdigits2 (Zpos p) <= 53) by (apply Zdigits2_le; lia). cbn [Zdigits2] in Hd.
    destruct (Z.eq_dec e (-1074)) as [->|He']; [lia|].
    assert (52 < Zdigits2 (Zpos p)) by (apply Zdigits2_gt; lia). cbn [Zdigits2] in *. lia.
Qed.

Lemma round_aux_pack (sx : bool) (mx ex : Z) (lx : location) :
  0 <= mx ->
  let e1 := fexp JS.prec JS.emax (Zdigits2 mx + ex) in
  ex <= e1 -> e1 <= 970 ->
  exists mr,
    (mr = mx / 2 ^ (e1 - ex) \/ mr = mx / 2 ^ (e1 - ex) + 1) /\
    (lx = loc_Exact -> e1 = ex -> mr = mx) /\
    fits mr e1 /\
    binary_round_aux JS.prec JS.emax sx mx ex lx = pack sx mr e1.
Proof.
  intros Hmx e1 Hn He1.
  assert (He1' : e1 = Z.max (Zdigits2 mx + ex - 53) (-1074)) by reflexivity.
  assert (He1f : fexp JS.prec JS.emax (Zdigits2 mx + ex) = e1) by reflexivity.
  clearbody e1.
  remember (mx / 2 ^ (e1 - ex)) as m' eqn:Hm'.
  assert (Hp : 0 < 2 ^ (e1 - ex)) by (apply Z.pow_pos_nonneg; lia).
  assert (Hm'0 : 0 <= m') by (subst m'; apply Z.div_pos; lia).
  assert (Hfit : m' < 2 ^ 53 /\ (-1074 < e1 -> 2 ^ 52 <= m')).
  { destruct (Z.eq_dec mx 0) as [->|Hne].
    - subst m'. rewrite Z.div_0_l by lia. cbn [Zdigits2] in He1'. split; [lia|]. lia.
    - pose proof (Zdigits2_bounds mx ltac:(lia)) as [Hlo Hhi].
      pose proof (Zdigits2_pos mx ltac:(lia)) as Hd.
      split.
      + subst m'. apply Z.div_lt_upper_bound; [lia|].
        rewrite <- Z.pow_add_r by lia.
        eapply Z.lt_le_trans; [exact Hhi|]. apply Z.pow_le_mono_r; lia.
      + intros Hgt. subst m'. apply Z.div_le_lower_bound; [lia|].
        rewrite <- Z.pow_add_r by lia.
        eapply Z.le_trans; [|exact Hlo]. apply Z.pow_le_mono_r; lia. }
  unfold binary_round_aux.
  assert (Hshr : exists r, shr_fexp JS.prec JS.emax mx ex lx = (r, e1) /\ shr_m r = m' /\
                           (e1 = ex -> r = shr_record_of_loc mx lx)).
  { unfold shr_fexp. rewrite He1f. unfold shr. rewrite Hm'.
    destruct (e1 - ex) as [|p|p] eqn:Hd.
    - exists (shr_record_of_loc mx lx).
      split; [f_equal; lia|]. split; [|reflexivity].
      rewrite shr_m_of_loc. cbn. now rewrite Z.div_1_r.
    - eexists. split; [f_equal; lia|]. split; [|lia].
      rewrite iter_shr_1 by (rewrite shr_m_of_loc; lia).
      now rewrite shr_m_of_loc.
    - lia. }
  destruct Hshr as (r & -> & Hr & Hr0).
  set (mr := round_nearest_even (shr_m r) (loc_of_shr_record r)).
  assert (Hmr : mr = m' \/ mr = m' + 1).
  { unfold mr. rewrite <- Hr. apply round_nearest_even_cases. }
  assert (Hfits : fits mr e1) by (unfold fits; destruct Hfit; lia).
  exists mr. split; [exact Hmr|]. split; [|split; [exact Hfits|]].
  { intros -> He. unfold mr. rewrite (Hr0 He). reflexivity. }
  unfold pack.
  destruct (shr_fexp_fits mr e1 Hfits) as [(Hlt & r2 & -> & ->)|(Heq & r2 & -> & ->)].
  - destruct mr as [|p|p]; [reflexivity| |unfold fits in Hfits; lia].
    destruct (Z.eqb_spec (Zpos p) (2 ^ 53)); [lia|].
    replace (e1 <=? JS.emax - JS.prec) with true by (symmetry; apply Z.leb_le; unfold JS.emax, JS.prec; lia).
    reflexivity.
  - rewrite Heq. cbn -[Z.leb].
    replace (e1 + 1 <=? _) with true by (symmetry; apply Z.leb_le; unfold JS.emax, JS.prec; lia).
    reflexivity.
Qed.

End RoundAux.

Section Values.

#[local] Open Scope Q_scope.

Lemma pow2_pos (e : Z) : 0 < 2 ^ e.
Proof. apply Qpower_0_lt. reflexivity. Qed.

Lemma pow2_add (a b : Z) : 2 ^ (a + b) == 2 ^ a * 2 ^ b.
Proof. apply Qpower_plus. discriminate. Qed.

Lemma pow2_le (a b : Z) : (a <= b)%Z -> 2 ^ a <= 2 ^ b.
Proof. intros H. apply Qpower_le_compat_l; [exact H|]. discriminate. Qed.

Lemma pow2_lt (a b : Z) : (a < b)%Z -> 2 ^ a < 2 ^ b.
Proof. intros H. apply Qpower_lt_compat_l; [exact H|]. reflexivity. Qed.

Lemma pow2_lt_inv (a b : Z) : 2 ^ a < 2 ^ b -> (a < b)%Z.
Proof. intros H. eapply Qpower_lt_compat_l_inv; [exact H|]. reflexivity. Qed.

Lemma pow2_inject (n : Z) : (0 <= n)%Z -> inject_Z (2 ^ n) == 2 ^ n.
Proof. intros H. now rewrite Zpower_Qpower. Qed.

(** The value of a packed mantissa. *)
Lemma val_pack (s : bool) (m e : Z) :
  fits m e -> val (pack s m e) == inject_Z (cond_Zopp s m) * 2 ^ e.
Proof.
  intros ((H0 & Hm) & _). unfold pack.
  destruct m as [|p|p]; [destruct s; cbn [val pack cond_Zopp Z.opp]; apply Qeq_sym, Qmult_0_l| |lia].
  destruct (Z.eqb_spec (Zpos p) (2 ^ 53)) as [Heq|Hne]; [|reflexivity].
  rewrite Heq. cbn [val]. rewrite pow2_add.
  destruct s; cbn [JS.smant cond_Zopp]; rewrite ?inject_Z_opp;
    change (inject_Z (Z.pos (Z.to_pos (2 ^ 52)))) with (inject_Z (2 ^ 52));
    rewrite !pow2_inject by lia; change (2 ^ 53)%Q with (2 ^ 52 * 2 ^ 1)%Q; ring.
Qed.

Lemma pack_finite (s : bool) (m e : Z) : finite (pack s m e).
Proof. unfold pack. destruct m; try exact I. destruct (Z.eqb _ _); exact I. Qed.

Lemma pack_sign (s : bool) (m e : Z) : sign_of (pack s m e) = s.
Proof. unfold pack. destruct m; try reflexivity. now destruct (Z.eqb _ _). Qed.

(** The rounding of a positive quantity [v], given by its truncation
    [mx * 2^ex]: the result is within [2^(K-53)] of [v] when [v < 2^K]. *)
Lemma round_aux_near (sx : bool) (mx ex : Z) (lx : location) (v : Q) (K : Z) :
  (0 <= mx)%Z ->
  (ex <= fexp JS.prec JS.emax (Zdigits2 mx + ex))%Z ->
  inject_Z mx * 2 ^ ex <= v -> v < inject_Z (mx + 1) * 2 ^ ex ->
  (lx = loc_Exact -> v == inject_Z mx * 2 ^ ex) ->
  v < 2 ^ K -> (-1021 <= K <= 1023)%Z ->
  exists a : Q,
    let r := binary_round_aux JS.prec JS.emax sx mx ex lx in
    valid r /\ finite r /\ sign_of r = sx /\
    val r == (if sx then - a else a) /\
    0 <= a /\ v - 2 ^ (K - 53) <= a <= v + 2 ^ (K - 53) /\
    (lx = loc_Exact -> fexp JS.prec JS.emax (Zdigits2 mx + ex) = ex -> a == v).
Proof.
  intros Hmx Hn Hlo Hhi Hex HK HKr.
  set (e1 := fexp JS.prec JS.emax (Zdigits2 mx + ex)) in *.
  assert (He1 : (e1 <= K - 53)%Z).
  { unfold e1. rewrite fexp_eq. fold e1.
    destruct (Z.eq_dec mx 0%Z) as [->|Hne].
    - unfold e1 in Hn. rewrite fexp_eq in Hn. cbn [Zdigits2] in *. lia.
    - pose proof (Zdigits2_bounds mx ltac:(lia)) as [Hd _].
      assert (Hlt : 2 ^ (Zdigits2 mx - 1 + ex) < 2 ^ K).
      { eapply Qle_lt_trans; [|exact HK]. eapply Qle_trans; [|exact Hlo].
        rewrite pow2_add. apply Qmult_le_compat_r; [|apply Qlt_le_weak, pow2_pos].
        rewrite <- pow2_inject by (pose proof (Zdigits2_pos mx); lia).
        rewrite <- Zle_Qle. exact Hd. }
      apply pow2_lt_inv in Hlt. lia. }
  destruct (round_aux_pack sx mx ex lx Hmx Hn ltac:(fold e1; lia)) as (mr & Hmr & Hexact & Hfits & Hr).
  fold e1 in Hmr, Hexact, Hfits, Hr.
  exists (inject_Z mr * 2 ^ e1). cbn zeta. rewrite Hr.
  split; [apply pack_valid; [exact Hfits|lia]|].
  split; [apply pack_finite|].
  split; [apply pack_sign|].
  split.
  { rewrite val_pack by exact Hfits. destruct sx; cbn [cond_Zopp]; rewrite ?inject_Z_opp; ring. }
  assert (Hmr0 : (0 <= mr)%Z) by (destruct Hfits as ((? & _) & _); lia).
  split.
  { apply Qmult_le_0_compat; [|apply Qlt_le_weak, pow2_pos]. now rewrite <- (Zle_Qle 0%Z). }
  set (n := (e1 - ex)%Z) in *.
  assert (Hpn : (0 < 2 ^ n)%Z) by (apply Z.pow_pos_nonneg; lia).
  assert (HE : 2 ^ e1 == inject_Z (2 ^ n) * 2 ^ ex).
  { rewrite pow2_inject by lia. rewrite <- pow2_add. replace (n + ex)%Z with e1 by lia. reflexivity. }
  pose proof (Z.mul_div_le mx (2 ^ n) Hpn) as Hfl.
  pose proof (Z.mul_succ_div_gt mx (2 ^ n) Hpn) as Hce.
  set (m' := (mx / 2 ^ n)%Z) in *.
  pose proof (pow2_pos ex) as HP. pose proof (pow2_pos e1) as HE1.
  assert (Hfl' : inject_Z m' * 2 ^ e1 <= inject_Z mx * 2 ^ ex).
  { rewrite HE, Qmult_assoc. apply Qmult_le_compat_r; [|lra].
    rewrite <- inject_Z_mult, <- Zle_Qle. lia. }
  assert (Hce' : inject_Z (mx + 1) * 2 ^ ex <= inject_Z (m' + 1) * 2 ^ e1).
  { rewrite HE, Qmult_assoc. apply Qmult_le_compat_r; [|lra].
    rewrite <- inject_Z_mult, <- Zle_Qle. lia. }
  assert (Hulp : 2 ^ e1 <= 2 ^ (K - 53)) by (apply pow2_le; lia).
  rewrite !inject_Z_plus in Hce'. rewrite inject_Z_plus in Hhi.
  change (inject_Z 1) with 1 in Hce', Hhi.
  split.
  { destruct Hmr as [->| ->]; rewrite ?inject_Z_plus; change (inject_Z 1) with 1; lra. }
  intros Hl He. rewrite (Hexact Hl He), (Hex Hl).
  replace e1 with ex by lia. reflexivity.
Qed.

End Values.

Section Normalize.

Lemma Zdigits2_unique (m k : Z) : (2 ^ (k - 1) <= m < 2 ^ k)%Z -> (0 < k)%Z -> Zdigits2 m = k.
Proof.
  intros [Hlo Hhi] Hk.
  assert (0 < m)%Z by (pose proof (Z.pow_pos_nonneg 2 (k - 1)); lia).
  pose proof (Zdigits2_le m k ltac:(lia) ltac:(lia)).
  pose proof (Zdigits2_gt m (k - 1) ltac:(lia) Hlo). lia.
Qed.

Lemma iter_xO (d m : positive) : Zpos (Pos.iter xO m d) = (Zpos m * 2 ^ Zpos d)%Z.
Proof.
  induction d as [|d IH] using Pos.peano_ind; [cbn; lia|].
  rewrite Pos.iter_succ, Pos2Z.inj_xO, IH, Pos2Z.inj_succ, Z.pow_succ_r by lia. ring.
Qed.

Lemma shl_align_eq (mx : positive) (ex e' : Z) :
  shl_align mx ex e' =
  if (e' <? ex)%Z then (Z.to_pos (Zpos mx * 2 ^ (ex - e')), e') else (mx, ex).
Proof.
  unfold shl_align. destruct (Z.ltb_spec e' ex) as [Hlt|Hge].
  - destruct (e' - ex)%Z as [|d|d] eqn:Hd; try lia.
    f_equal. apply Pos2Z.inj. rewrite iter_xO.
    assert (0 < 2 ^ (ex - e'))%Z by (apply Z.pow_pos_nonneg; lia).
    rewrite Z2Pos.id by lia. do 2 f_equal. lia.
  - destruct (e' - ex)%Z as [|d|d] eqn:Hd; try lia; reflexivity.
Qed.

#[local] Open Scope Q_scope.

(** [binary_round]: rounding of [mx * 2^ex], whatever the size of [mx]. *)
Lemma binary_round_near (sx : bool) (mx : positive) (ex K : Z) :
  inject_Z (Zpos mx) * 2 ^ ex < 2 ^ K -> (-1021 <= K <= 1023)%Z ->
  exists a : Q,
    let r := binary_round JS.prec JS.emax sx mx ex in
    valid r /\ finite r /\ sign_of r = sx /\ val r == (if sx then - a else a) /\ 0 <= a /\
    inject_Z (Zpos mx) * 2 ^ ex - 2 ^ (K - 53) <= a <= inject_Z (Zpos mx) * 2 ^ ex + 2 ^ (K - 53) /\
    ((fexp JS.prec JS.emax (Zdigits2 (Zpos mx) + ex) <= ex)%Z -> a == inject_Z (Zpos mx) * 2 ^ ex).
Proof.
  intros HK HKr. unfold binary_round.
  change (Z.pos (digits2_pos mx)) with (Zdigits2 (Zpos mx)).
  set (et := fexp JS.prec JS.emax (Zdigits2 (Zpos mx) + ex)).
  rewrite shl_align_eq.
  pose proof (pow2_pos ex) as HP.
  destruct (Z.ltb_spec et ex) as [Hlt|Hge].
  - set (d := (ex - et)%Z).
    assert (Hpd : (0 < 2 ^ d)%Z) by (apply Z.pow_pos_nonneg; unfold d; lia).
    assert (Hmz : Zpos (Z.to_pos (Zpos mx * 2 ^ d)) = (Zpos mx * 2 ^ d)%Z) by (apply Z2Pos.id; lia).
    rewrite Hmz.
    assert (Hv : inject_Z (Zpos mx * 2 ^ d) * 2 ^ et == inject_Z (Zpos mx) * 2 ^ ex).
    { rewrite inject_Z_mult, pow2_inject by (unfold d; lia).
      rewrite <- Qmult_assoc, <- pow2_add. replace (d + et)%Z with ex by (unfold d; lia). reflexivity. }
    assert (Hdig : Zdigits2 (Zpos mx * 2 ^ d) = (Zdigits2 (Zpos mx) + d)%Z).
    { pose proof (Zdigits2_bounds (Zpos mx) ltac:(lia)) as [Hlo Hhi].
      pose proof (Zdigits2_pos (Zpos mx) ltac:(lia)).
      apply Zdigits2_unique; [|unfold d; lia].
      replace (Zdigits2 (Zpos mx) + d - 1)%Z with (Zdigits2 (Zpos mx) - 1 + d)%Z by lia.
      rewrite !Z.pow_add_r by (unfold d; lia). nia. }
    assert (Hfe : fexp JS.prec JS.emax (Zdigits2 (Zpos mx * 2 ^ d) + et) = et).
    { rewrite Hdig. replace (Zdigits2 (Zpos mx) + d + et)%Z with (Zdigits2 (Zpos mx) + ex)%Z
        by (unfold d; lia). reflexivity. }
    destruct (round_aux_near sx (Zpos mx * 2 ^ d) et loc_Exact (inject_Z (Zpos mx) * 2 ^ ex) K)
      as (a & Hval & Hfin & Hsg & Ha & Ha0 & Hnear & Hexact); try assumption.
    + lia.
    + rewrite Hfe. lia.
    + rewrite Hv. lra.
    + rewrite inject_Z_plus, Qmult_plus_distr_l, Hv. pose proof (pow2_pos et).
      change (inject_Z 1) with 1. lra.
    + intros _. now rewrite Hv.
    + exists a. cbn zeta in *. repeat split; try assumption; try apply Hnear.
      intros _. apply Hexact; [reflexivity|exact Hfe].
  - destruct (round_aux_near sx (Zpos mx) ex loc_Exact (inject_Z (Zpos mx) * 2 ^ ex) K)
      as (a & Hval & Hfin & Hsg & Ha & Ha0 & Hnear & Hexact); try assumption.
    + lia.
    + lra.
    + rewrite inject_Z_plus, Qmult_plus_distr_l. change (inject_Z 1) with 1. lra.
    + intros _. reflexivity.
    + exists a. cbn zeta in *. repeat split; try assumption; try apply Hnear.
      intros Hle. apply Hexact; [reflexivity|]. fold et. lia.
Qed.

(** Rounding of the integer combination [m * 2^e]. *)
Lemma normalize_near (m e K : Z) :
  Qabs (inject_Z m * 2 ^ e) < 2 ^ K -> (-1021 <= K <= 1023)%Z ->
  let r := binary_normalize JS.prec JS.emax m e false in
  valid r /\ finite r /\
  Qabs (val r - inject_Z m * 2 ^ e) <= 2 ^ (K - 53) /\
  ((0 <= m)%Z -> 0 <= val r /\ sign_of r = false) /\
  ((m < 0)%Z -> val r <= 0 /\ sign_of r = true) /\
  ((fexp JS.prec JS.emax (Zdigits2 m + e) <= e)%Z -> val r == inject_Z m * 2 ^ e).
Proof.
  intros HK HKr. pose proof (pow2_pos e) as HP. pose proof (pow2_pos (K - 53)) as HU.
  destruct m as [|p|p]; cbn [binary_normalize].
  - split; [reflexivity|]. split; [exact I|]. cbn [val]. split.
    { assert (Hz : 0 - inject_Z 0 * 2 ^ e == 0) by ring.
      rewrite Hz. change (Qabs 0) with 0. lra. }
    repeat split; intros; first [lia | apply Qle_refl | ring].
  - rewrite Qabs_pos in HK by (apply Qmult_le_0_compat; [now rewrite <- (Zle_Qle 0%Z)|lra]).
    destruct (binary_round_near false p e K HK HKr) as (a & Hval & Hfin & Hsg & Ha & Ha0 & Hnear & Hexact).
    cbn zeta in *. repeat split; try assumption; try lia.
    + rewrite Ha. apply Qabs_Qle_condition. lra.
    + lra.
    + intros Hle. rewrite Ha. now apply Hexact.
  - assert (Hneg : inject_Z (Z.neg p) * 2 ^ e == - (inject_Z (Zpos p) * 2 ^ e)).
    { change (Z.neg p) with (- Zpos p)%Z. rewrite inject_Z_opp. ring. }
    rewrite Hneg, Qabs_opp in HK.
    rewrite Qabs_pos in HK by (apply Qmult_le_0_compat; [now rewrite <- (Zle_Qle 0%Z)|lra]).
    destruct (binary_round_near true p e K HK HKr) as (a & Hval & Hfin & Hsg & Ha & Ha0 & Hnear & Hexact).
    cbn zeta in *. repeat split; try assumption; try lia.
    + rewrite Ha, Hneg. apply Qabs_Qle_condition. lra.
    + lra.
    + intros Hle. rewrite Ha, Hneg. apply Qopp_comp. now apply Hexact.
Qed.

End Normalize.

Section Compare.

#[local] Open Scope Q_scope.

Lemma valid_finite_fits (s : bool) (m : positive) (e : Z) :
  valid (S754_finite s m e) ->
  (Zpos m < 2 ^ 53)%Z /\ (-1074 <= e <= 971)%Z /\ (-1074 < e -> 2 ^ 52 <= Zpos m)%Z.
Proof.
  unfold valid. cbn [valid_binary]. unfold bounded, canonical_mantissa.
  intros H. apply andb_prop in H as [Hc He].
  apply Z.eqb_eq in Hc. apply Z.leb_le in He. rewrite fexp_eq in Hc.
  unfold JS.emax, JS.prec in He.
  pose proof (digits2_pos_bounds m) as [Hlo Hhi].
  assert (Hd : (Zpos (digits2_pos m) <= 53)%Z) by lia.
  split; [|split; [lia|]].
  - eapply Z.lt_le_trans; [exact Hhi|]. apply Z.pow_le_mono_r; lia.
  - intros Hgt. replace (Zpos (digits2_pos m)) with 53%Z in Hlo by lia. exact Hlo.
Qed.

Lemma Qcompare_intro (c : comparison) (a b : Q) :
  (c = Lt -> a < b) -> (c = Eq -> a == b) -> (c = Gt -> b < a) -> c = (a ?= b).
Proof.
  intros HL HE HG. symmetry. destruct c.
  - apply (proj1 (Qeq_alt a b)). now apply HE.
  - apply (proj1 (Qlt_alt a b)). now apply HL.
  - apply (proj1 (Qgt_alt a b)). now apply HG.
Qed.

Lemma mag_lt (m1 m2 : positive) (e1 e2 : Z) :
  valid (S754_finite false m1 e1) -> valid (S754_finite false m2 e2) -> (e1 < e2)%Z ->
  inject_Z (Zpos m1) * 2 ^ e1 < inject_Z (Zpos m2) * 2 ^ e2.
Proof.
  intros H1 H2 Hlt.
  apply valid_finite_fits in H1 as (Hm1 & He1 & _).
  apply valid_finite_fits in H2 as (_ & He2 & Hm2). specialize (Hm2 ltac:(lia)).
  replace e2 with ((e2 - e1) + e1)%Z by lia. rewrite pow2_add.
  pose proof (pow2_pos e1) as Hp.
  pose proof (pow2_le 1 (e2 - e1) ltac:(lia)) as Hq. change (2 ^ 1) with 2 in Hq.
  rewrite Zlt_Qlt in Hm1. rewrite Zle_Qle in Hm2.
  set (A := inject_Z (Zpos m1)) in *. set (B := inject_Z (Zpos m2)) in *.
  set (p := 2 ^ e1) in *. set (q := 2 ^ (e2 - e1)) in *.
  change (inject_Z (2 ^ 53)) with (9007199254740992 # 1) in Hm1.
  change (inject_Z (2 ^ 52)) with (4503599627370496 # 1) in Hm2.
  assert (HBq : 9007199254740992 # 1 <= B * q).
  { assert (0 <= (B - (4503599627370496 # 1)) * (q - 2)) by (apply Qmult_le_0_compat; lra). lra. }
  rewrite Qmult_assoc. apply Qmult_lt_compat_r; lra.
Qed.

Lemma mag_compare (m1 m2 : positive) (e1 e2 : Z) :
  valid (S754_finite false m1 e1) -> valid (S754_finite false m2 e2) ->
  match (e1 ?= e2)%Z with
  | Lt => Lt
  | Gt => Gt
  | Eq => Pos.compare_cont Eq m1 m2
  end = (inject_Z (Zpos m1) * 2 ^ e1 ?= inject_Z (Zpos m2) * 2 ^ e2).
Proof.
  intros H1 H2. apply Qcompare_intro; destruct (Z.compare_spec e1 e2) as [->|Hlt|Hgt];
    try discriminate; intros Hc.
  - pose proof (pow2_pos e2). apply Qmult_lt_compat_r; [assumption|].
    rewrite <- Zlt_Qlt. now apply Pos.compare_lt_iff.
  - now apply mag_lt.
  - apply Pos.compare_eq in Hc. now subst.
  - pose proof (pow2_pos e2). apply Qmult_lt_compat_r; [assumption|].
    rewrite <- Zlt_Qlt. apply Pos.compare_gt_iff in Hc. exact Hc.
  - now apply mag_lt.
Qed.

Lemma val_finite_pos (m : positive) (e : Z) : 0 < inject_Z (Zpos m) * 2 ^ e.
Proof. apply Qmult_lt_0_compat; [reflexivity|apply pow2_pos]. Qed.

(** On valid finite numbers the comparison of the code is the comparison
    of the values. *)
Lemma compare_val (x y : JS.number) :
  valid x -> valid y -> finite x -> finite y ->
  SFcompare x y = Some (val x ?= val y).
Proof.
  intros Hx Hy Fx Fy.
  destruct x as [sx|sx| |sx mx ex], y as [sy|sy| |sy my ey]; try contradiction;
    cbn [SFcompare val]; unfold JS.smant; f_equal.
  - pose proof (val_finite_pos my ey).
    destruct sy; cbn [cond_Zopp]; apply Qcompare_intro; try discriminate; intros _;
      rewrite ?inject_Z_opp; lra.
  - pose proof (val_finite_pos mx ex).
    destruct sx; cbn [cond_Zopp]; apply Qcompare_intro; try discriminate; intros _;
      rewrite ?inject_Z_opp; lra.
  - pose proof (val_finite_pos mx ex). pose proof (val_finite_pos my ey).
    destruct sx, sy; cbn [cond_Zopp].
    + rewrite !inject_Z_opp.
      pose proof (mag_compare mx my ex ey Hx Hy) as Hc.
      apply Qcompare_intro; intros Hr.
      * assert (Hgt : (inject_Z (Zpos mx) * 2 ^ ex ?= inject_Z (Zpos my) * 2 ^ ey) = Gt).
        { rewrite <- Hc. destruct (ex ?= ey)%Z; try discriminate; try reflexivity.
          destruct (Pos.compare_cont Eq mx my); try discriminate; reflexivity. }
        apply Qgt_alt in Hgt. lra.
      * assert (Heq : (inject_Z (Zpos mx) * 2 ^ ex ?= inject_Z (Zpos my) * 2 ^ ey) = Eq).
        { rewrite <- Hc. destruct (ex ?= ey)%Z; try discriminate; try reflexivity.
          destruct (Pos.compare_cont Eq mx my); try discriminate; reflexivity. }
        apply Qeq_alt in Heq. lra.
      * assert (Hlt : (inject_Z (Zpos mx) * 2 ^ ex ?= inject_Z (Zpos my) * 2 ^ ey) = Lt).
        { rewrite <- Hc. destruct (ex ?= ey)%Z; try discriminate; try reflexivity.
          destruct (Pos.compare_cont Eq mx my); try discriminate; reflexivity. }
        apply Qlt_alt in Hlt. lra.
    + rewrite inject_Z_opp.
      apply Qcompare_intro; try discriminate; intros _. lra.
    + rewrite inject_Z_opp.
      apply Qcompare_intro; try discriminate; intros _. lra.
    + exact (mag_compare mx my ex ey Hx Hy).
Qed.

(** [a <= b] of the code, on valid finite numbers. *)
Lemma le_val (x y : JS.number) :
  valid x -> valid y -> finite x -> finite y ->
  JS.le x y = true <-> val x <= val y.
Proof.
  intros Hx Hy Fx Fy. unfold JS.le, SFleb. rewrite (compare_val x y Hx Hy Fx Fy).
  rewrite Qle_alt. destruct (val x ?= val y); split; intros H; try reflexivity; try discriminate.
  now contradiction H.
Qed.

(** [a < b] of the code, on valid finite numbers. *)
Lemma lt_val (x y : JS.number) :
  valid x -> valid y -> finite x -> finite y ->
  JS.lt x y = true <-> val x < val y.
Proof.
  intros Hx Hy Fx Fy. unfold JS.lt, SFltb. rewrite (compare_val x y Hx Hy Fx Fy).
  rewrite Qlt_alt. destruct (val x ?= val y); split; intros H; try reflexivity; discriminate.
Qed.

End Compare.

Section Operations.

#[local] Open Scope Q_scope.

Lemma val_smant (s : bool) (m : positive) (e : Z) :
  val (S754_finite s m e) == (if s then - (inject_Z (Zpos m) * 2 ^ e) else inject_Z (Zpos m) * 2 ^ e).
Proof. destruct s; cbn [val]; unfold JS.smant; cbn [cond_Zopp]; rewrite ?inject_Z_opp; ring. Qed.

Lemma sign_of_pos (r : JS.number) : finite r -> 0 < val r -> sign_of r = false.
Proof.
  destruct r as [s|s| |s m e]; try contradiction; intros _ H; [cbn [val] in H; lra|].
  rewrite val_smant in H.
  pose proof (val_finite_pos m e). destruct s; [lra|reflexivity].
Qed.

Lemma sign_of_neg (r : JS.number) : finite r -> val r < 0 -> sign_of r = true.
Proof.
  destruct r as [s|s| |s m e]; try contradiction; intros _ H; [cbn [val] in H; lra|].
  rewrite val_smant in H.
  pose proof (val_finite_pos m e). destruct s; [reflexivity|lra].
Qed.

Lemma rounds_to_exact (r : JS.number) (v : Q) (K : Z) :
  valid r -> finite r -> val r == v -> rounds_to r v K.
Proof.
  intros Hv Hf He. pose proof (pow2_pos (K - 53)).
  split; [assumption|]. split; [assumption|]. split; [lra|].
  split; [lra|]. split; [lra|]. split; intros H0.
  - apply sign_of_pos; [assumption|lra].
  - apply sign_of_neg; [assumption|lra].
Qed.

(** The normalisation of [m * 2^e] is within [2^(K-53)] of it when it is
    below [2^K] in magnitude. *)
Lemma normalize_rounds (m e K : Z) (v : Q) :
  v == inject_Z m * 2 ^ e -> - 2 ^ K < v < 2 ^ K -> (-1021 <= K <= 1023)%Z ->
  rounds_to (binary_normalize JS.prec JS.emax m e false) v K.
Proof.
  intros Hv HK HKr. pose proof (pow2_pos e) as HP.
  assert (Habs : Qabs (inject_Z m * 2 ^ e) < 2 ^ K).
  { rewrite <- Hv. apply Qabs_Qlt_condition. lra. }
  destruct (normalize_near m e K Habs HKr) as (Hval & Hfin & Hn & Hp & Hm & _).
  apply Qabs_Qle_condition in Hn.
  assert (Hsgn : (m < 0)%Z -> v < 0).
  { intros Hlt. rewrite Zlt_Qlt in Hlt.
    assert (inject_Z m * 2 ^ e < 0 * 2 ^ e) by (apply Qmult_lt_compat_r; assumption).
    lra. }
  assert (Hsgp : (0 < m)%Z -> 0 < v).
  { intros Hlt. rewrite Zlt_Qlt in Hlt.
    assert (0 < inject_Z m * 2 ^ e) by (apply Qmult_lt_0_compat; assumption).
    lra. }
  split; [assumption|]. split; [assumption|]. split; [lra|].
  split; [|split; [|split]]; intros H0.
  - destruct (Z_lt_le_dec m 0) as [Hlt|Hge]; [specialize (Hsgn Hlt); lra|]. now apply Hp.
  - destruct (Z_lt_le_dec m 0) as [Hlt|Hge]; [now apply Hm|].
    destruct (Z.eq_dec m 0%Z) as [->|]; [apply Qle_refl|]. specialize (Hsgp ltac:(lia)). lra.
  - destruct (Z_lt_le_dec m 0) as [Hlt|Hge]; [specialize (Hsgn Hlt); lra|]. now apply Hp.
  - destruct (Z_lt_le_dec m 0) as [Hlt|Hge]; [now apply Hm|].
    destruct (Z.eq_dec m 0%Z) as [->|]; [rewrite Hv, Qmult_0_l in H0; lra|].
    specialize (Hsgp ltac:(lia)). lra.
Qed.

(** Integers below [2^53] are represented exactly. *)
Lemma of_Z_exact (n : Z) :
  (- 2 ^ 53 < n < 2 ^ 53)%Z ->
  valid (JS.of_Z n) /\ finite (JS.of_Z n) /\ val (JS.of_Z n) == inject_Z n.
Proof.
  intros Hn. unfold JS.of_Z.
  assert (Habs : Qabs (inject_Z n * 2 ^ 0) < 2 ^ 53).
  { change (2 ^ 0) with 1. rewrite Qmult_1_r. apply Qabs_Qlt_condition.
    change (2 ^ 53) with (inject_Z (2 ^ 53)). rewrite <- inject_Z_opp, <- !Zlt_Qlt. lia. }
  destruct (normalize_near n 0 53 Habs ltac:(lia)) as (Hval & Hfin & _ & _ & _ & Hex).
  split; [exact Hval|]. split; [exact Hfin|].
  rewrite Hex; [change (2 ^ 0) with 1; ring|].
  rewrite fexp_eq. rewrite Z.add_0_r.
  assert (Zdigits2 n <= 53)%Z.
  { destruct n as [|p|p]; [cbn; lia| |].
    - apply Zdigits2_le; lia.
    - change (Zdigits2 (Z.neg p)) with (Zdigits2 (Zpos p)). apply Zdigits2_le; lia. }
  lia.
Qed.

Lemma shl_align_val (mx : positive) (ex ez : Z) :
  (ez <= ex)%Z ->
  inject_Z (Zpos (fst (shl_align mx ex ez))) * 2 ^ ez == inject_Z (Zpos mx) * 2 ^ ex.
Proof.
  intros Hle. rewrite shl_align_eq.
  destruct (Z.ltb_spec ez ex) as [Hlt|Hge]; cbn [fst].
  - assert (0 < 2 ^ (ex - ez))%Z by (apply Z.pow_pos_nonneg; lia).
    rewrite Z2Pos.id by lia.
    rewrite inject_Z_mult, pow2_inject by lia.
    rewrite <- Qmult_assoc, <- pow2_add. now replace (ex - ez + ez)%Z with ex by lia.
  - now replace ez with ex by lia.
Qed.

Lemma aligned_sum (sx sy : bool) (mx my : positive) (ex ey : Z) (neg : bool) :
  let ez := Z.min ex ey in
  let a := cond_Zopp sx (Zpos (fst (shl_align mx ex ez))) in
  let b := cond_Zopp sy (Zpos (fst (shl_align my ey ez))) in
  inject_Z (if neg then a - b else a + b)%Z * 2 ^ ez ==
  if neg then val (S754_finite sx mx ex) - val (S754_finite sy my ey)
  else val (S754_finite sx mx ex) + val (S754_finite sy my ey).
Proof.
  intros ez a b.
  pose proof (shl_align_val mx ex ez ltac:(unfold ez; lia)) as Hx.
  pose proof (shl_align_val my ey ez ltac:(unfold ez; lia)) as Hy.
  unfold a, b.
  destruct neg; rewrite !val_smant; destruct sx, sy; cbn [cond_Zopp];
    unfold Z.sub; rewrite ?inject_Z_plus, ?inject_Z_opp; lra.
Qed.

(** A sum below [2^K] in magnitude is within [2^(K-53)] of the exact sum. *)
Lemma add_rounds (x y : JS.number) (K : Z) :
  valid x -> valid y -> finite x -> finite y ->
  - 2 ^ K < val x + val y < 2 ^ K -> (-1021 <= K <= 1023)%Z ->
  rounds_to (JS.add x y) (val x + val y) K.
Proof.
  intros Hx Hy Fx Fy HK HKr.
  destruct x as [sx|sx| |sx mx ex], y as [sy|sy| |sy my ey]; try contradiction;
    unfold JS.add; cbn [SFadd].
  - apply rounds_to_exact; [destruct sx, sy; reflexivity|destruct sx, sy; exact I|].
    destruct sx, sy; cbn; ring.
  - apply rounds_to_exact; [assumption|assumption|cbn [val]; ring].
  - apply rounds_to_exact; [assumption|assumption|cbn [val]; ring].
  - apply normalize_rounds; [|assumption|assumption].
    symmetry. exact (aligned_sum sx sy mx my ex ey false).
Qed.

(** A difference below [2^K] in magnitude is within [2^(K-53)] of the
    exact difference. *)
Lemma sub_rounds (x y : JS.number) (K : Z) :
  valid x -> valid y -> finite x -> finite y ->
  - 2 ^ K < val x - val y < 2 ^ K -> (-1021 <= K <= 1023)%Z ->
  rounds_to (JS.sub x y) (val x - val y) K.
Proof.
  intros Hx Hy Fx Fy HK HKr.
  destruct x as [sx|sx| |sx mx ex], y as [sy|sy| |sy my ey]; try contradiction;
    unfold JS.sub; cbn [SFsub].
  - apply rounds_to_exact; [destruct sx, sy; reflexivity|destruct sx, sy; exact I|].
    destruct sx, sy; cbn; ring.
  - apply rounds_to_exact; [exact Hy|exact I|].
    rewrite !val_smant. cbn [val]. destruct sy; cbn [negb]; ring.
  - apply rounds_to_exact; [assumption|assumption|cbn [val]; ring].
  - apply normalize_rounds; [|assumption|assumption].
    symmetry. exact (aligned_sum sx sy mx my ex ey true).
Qed.

End Operations.

Section MulDiv.

#[local] Open Scope Q_scope.

(** From a positive rounding to the signed statement. *)
Lemma round_aux_rounds (s : bool) (mx ex : Z) (lx : location) (u v : Q) (K : Z) :
  (0 <= mx)%Z ->
  (ex <= fexp JS.prec JS.emax (Zdigits2 mx + ex))%Z ->
  inject_Z mx * 2 ^ ex <= u -> u < inject_Z (mx + 1) * 2 ^ ex ->
  (lx = loc_Exact -> u == inject_Z mx * 2 ^ ex) ->
  0 < u -> v == (if s then - u else u) ->
  - 2 ^ K < v < 2 ^ K -> (-1021 <= K <= 1023)%Z ->
  rounds_to (binary_round_aux JS.prec JS.emax s mx ex lx) v K.
Proof.
  intros Hmx Hn Hlo Hhi Hex Hu0 Hv HK HKr.
  pose proof (pow2_pos ex) as HP.
  assert (HuK : u < 2 ^ K) by (destruct s; lra).
  destruct (round_aux_near s mx ex lx u K Hmx Hn Hlo Hhi Hex HuK HKr)
    as (a & Hval & Hfin & Hsg & Ha & Ha0 & Hnear & _).
  cbn zeta in *. split; [assumption|]. split; [assumption|].
  split; [|split; [|split; [|split]]]; [|intros H0|intros H0|intros H0|intros H0];
    try (rewrite Ha; destruct s; lra); rewrite Hsg; destruct s; first [reflexivity | lra].
Qed.

(** A product below [2^K] in magnitude is within [2^(K-53)] of the exact
    product. *)
Lemma mul_rounds (x y : JS.number) (K : Z) :
  valid x -> valid y -> finite x -> finite y ->
  - 2 ^ K < val x * val y < 2 ^ K -> (-1021 <= K <= 1023)%Z ->
  rounds_to (JS.mul x y) (val x * val y) K.
Proof.
  intros Hx Hy Fx Fy HK HKr.
  destruct x as [sx|sx| |sx mx ex], y as [sy|sy| |sy my ey]; try contradiction;
    unfold JS.mul; cbn [SFmul];
    try (apply rounds_to_exact; [reflexivity|exact I|cbn [val]; ring]).
  pose proof (valid_finite_fits _ _ _ Hx) as (Hmx & Hex & Hnx).
  pose proof (valid_finite_fits _ _ _ Hy) as (Hmy & Hey & Hny).
  apply round_aux_rounds with (u := inject_Z (Zpos (mx * my)) * 2 ^ (ex + ey)); try assumption.
  - lia.
  - rewrite fexp_eq.
    destruct (Z.eq_dec ex (-1074)%Z) as [Hex'|Hex'], (Z.eq_dec ey (-1074)%Z) as [Hey'|Hey'].
    + lia.
    + assert (52 < Zdigits2 (Zpos (mx * my)))%Z; [|lia].
      apply Zdigits2_gt; [lia|]. rewrite Pos2Z.inj_mul. specialize (Hny ltac:(lia)). nia.
    + assert (52 < Zdigits2 (Zpos (mx * my)))%Z; [|lia].
      apply Zdigits2_gt; [lia|]. rewrite Pos2Z.inj_mul. specialize (Hnx ltac:(lia)). nia.
    + assert (52 < Zdigits2 (Zpos (mx * my)))%Z; [|lia].
      apply Zdigits2_gt; [lia|]. rewrite Pos2Z.inj_mul. specialize (Hnx ltac:(lia)). nia.
  - apply Qle_refl.
  - rewrite inject_Z_plus, Qmult_plus_distr_l. pose proof (pow2_pos (ex + ey)).
    change (inject_Z 1) with 1. lra.
  - reflexivity.
  - apply val_finite_pos.
  - rewrite !val_smant.
    destruct sx, sy; cbn [xorb]; rewrite Pos2Z.inj_mul, inject_Z_mult, pow2_add; ring.
Qed.

Lemma new_location_exact (n r : Z) : new_location n r = loc_Exact -> r = 0%Z.
Proof.
  unfold new_location, new_location_even, new_location_odd.
  destruct (Z.even n); destruct (Z.eqb_spec r 0); try discriminate; auto.
Qed.

(** The integer quotient the division starts from, and its remainder. *)
Lemma div_core (mx my : positive) (ex ey : Z) :
  exists q e' l,
    SFdiv_core_binary JS.prec JS.emax (Zpos mx) ex (Zpos my) ey = (q, e', l) /\
    (0 <= q)%Z /\ (e' <= fexp JS.prec JS.emax (Zdigits2 q + e'))%Z /\
    inject_Z q * 2 ^ e' <= (inject_Z (Zpos mx) * 2 ^ ex) / (inject_Z (Zpos my) * 2 ^ ey) /\
    (inject_Z (Zpos mx) * 2 ^ ex) / (inject_Z (Zpos my) * 2 ^ ey) < inject_Z (q + 1) * 2 ^ e' /\
    (l = loc_Exact ->
     (inject_Z (Zpos mx) * 2 ^ ex) / (inject_Z (Zpos my) * 2 ^ ey) == inject_Z q * 2 ^ e').
Proof.
  unfold SFdiv_core_binary.
  set (d1 := Zdigits2 (Zpos mx)). set (d2 := Zdigits2 (Zpos my)).
  set (D := (d1 + ex - (d2 + ey))%Z).
  set (e' := Z.min (fexp JS.prec JS.emax D) (ex - ey)).
  set (s := (ex - ey - e')%Z).
  assert (Hs : (0 <= s)%Z) by (unfold s, e'; lia).
  set (m' := match s with Zpos _ => Z.shiftl (Zpos mx) s | Z0 => Zpos mx | Zneg _ => 0%Z end).
  assert (Hm' : m' = (Zpos mx * 2 ^ s)%Z).
  { unfold m'. destruct s as [|p|p] eqn:Hp; [cbn; lia| |lia].
    rewrite Z.shiftl_mul_pow2 by lia. reflexivity. }
  pose proof (Z_div_mod m' (Zpos my) ltac:(lia)) as Hdm.
  destruct (Z.div_eucl m' (Zpos my)) as [q r]. destruct Hdm as [Hdm Hr].
  assert (Hps : (0 < 2 ^ s)%Z) by (apply Z.pow_pos_nonneg; lia).
  assert (Hq0 : (0 <= q)%Z) by nia.
  exists q, e', (new_location (Zpos my) r). split; [reflexivity|]. split; [exact Hq0|].
  pose proof (Zdigits2_bounds (Zpos mx) ltac:(lia)) as [Hlo1 Hhi1].
  pose proof (Zdigits2_bounds (Zpos my) ltac:(lia)) as [Hlo2 Hhi2].
  pose proof (Zdigits2_pos (Zpos mx) ltac:(lia)) as Hd1.
  pose proof (Zdigits2_pos (Zpos my) ltac:(lia)) as Hd2.
  fold d1 in Hlo1, Hhi1, Hd1. fold d2 in Hlo2, Hhi2, Hd2.
  split.
  { assert (Hdq : (D - e' <= Zdigits2 q)%Z).
    { pose proof (Zdigits2_nonneg q).
      destruct (Z_lt_le_dec (D - e' - 1) 0) as [|Ht]; [lia|].
      assert (D - e' - 1 < Zdigits2 q)%Z; [|lia].
      apply Zdigits2_gt; [lia|].
      assert (Hle : (Zpos my * 2 ^ (D - e' - 1) <= m')%Z).
      { rewrite Hm'. replace (D - e' - 1)%Z with (d1 - d2 + s - 1)%Z in * by (unfold D, s; lia).
        assert (2 ^ d2 * 2 ^ (d1 - d2 + s - 1) = 2 ^ (d1 - 1) * 2 ^ s)%Z.
        { rewrite <- !Z.pow_add_r by lia. f_equal. lia. }
        assert (0 < 2 ^ (d1 - d2 + s - 1))%Z by (apply Z.pow_pos_nonneg; lia).
        nia. }
      assert (0 < 2 ^ (D - e' - 1))%Z by (apply Z.pow_pos_nonneg; lia).
      nia. }
    rewrite !fexp_eq. unfold e' at 1. rewrite fexp_eq. lia. }
  assert (HQ : (inject_Z (Zpos mx) * 2 ^ ex) / (inject_Z (Zpos my) * 2 ^ ey) ==
               (inject_Z m' / inject_Z (Zpos my)) * 2 ^ e').
  { rewrite Hm', inject_Z_mult, pow2_inject by lia.
    replace ex with (s + e' + ey)%Z at 1 by (unfold s; lia). rewrite !pow2_add.
    pose proof (pow2_pos ey). field. split; first [lra | discriminate]. }
  pose proof (pow2_pos e') as HP.
  assert (Hmy : 0 < inject_Z (Zpos my)) by reflexivity.
  assert (Hfrac : inject_Z m' / inject_Z (Zpos my) == inject_Z q + inject_Z r / inject_Z (Zpos my)).
  { rewrite Hdm, inject_Z_plus, inject_Z_mult. field. lra. }
  assert (Hr0 : 0 <= inject_Z r / inject_Z (Zpos my)).
  { apply Qle_shift_div_l; [assumption|]. rewrite Qmult_0_l. rewrite <- (Zle_Qle 0%Z). lia. }
  assert (Hr1 : inject_Z r / inject_Z (Zpos my) < 1).
  { apply Qlt_shift_div_r; [assumption|]. rewrite Qmult_1_l. rewrite <- Zlt_Qlt. lia. }
  rewrite HQ, Hfrac, inject_Z_plus. change (inject_Z 1) with 1.
  set (f := inject_Z r / inject_Z (Zpos my)) in *.
  split; [|split].
  - apply Qmult_le_compat_r; lra.
  - apply Qmult_lt_compat_r; lra.
  - intros Hl. apply new_location_exact in Hl. unfold f. rewrite Hl.
    change (inject_Z 0) with 0. field. lra.
Qed.

(** A quotient below [2^K] in magnitude is within [2^(K-53)] of the exact
    quotient. *)
Lemma div_rounds (x y : JS.number) (K : Z) :
  finite x -> (exists s m e, y = S754_finite s m e) ->
  - 2 ^ K < val x / val y < 2 ^ K -> (-1021 <= K <= 1023)%Z ->
  rounds_to (JS.div x y) (val x / val y) K.
Proof.
  intros Fx (sy & my & ey & ->) HK HKr.
  destruct x as [sx|sx| |sx mx ex]; try contradiction; unfold JS.div; cbn [SFdiv].
  - apply rounds_to_exact; [reflexivity|exact I|].
    cbn [val]. unfold Qdiv. ring.
  - destruct (div_core mx my ex ey) as (q & e' & l & -> & Hq & Hn & Hlo & Hhi & Hex).
    pose proof (val_finite_pos my ey). pose proof (val_finite_pos mx ex).
    eapply round_aux_rounds; try eassumption.
    + apply Qlt_shift_div_l; [assumption|]. now rewrite Qmult_0_l.
    + rewrite !val_smant. pose proof (pow2_pos ey).
      assert (0 < inject_Z (Zpos my)) by reflexivity.
      destruct sx, sy; cbn [xorb]; field; try split; lra.
Qed.

End MulDiv.

Section IntegerRounding.

#[local] Open Scope Q_scope.

Lemma val_inj (x y : JS.number) :
  valid x -> valid y -> (0 < val x \/ val x < 0) -> finite x -> finite y ->
  val x == val y -> x = y.
Proof.
  intros Hx Hy Hnz Fx Fy He.
  pose proof (compare_val x y Hx Hy Fx Fy) as Hc.
  apply Qeq_alt in He. rewrite He in Hc.
  destruct x as [sx|sx| |sx mx ex]; try contradiction; [cbn [val] in Hnz; lra|].
  destruct y as [sy|sy| |sy my ey]; try contradiction.
  - cbn [SFcompare] in Hc. destruct sx; discriminate.
  - cbn [SFcompare] in Hc. injection Hc as Hc.
    destruct sx, sy; try discriminate;
      destruct (Z.compare_spec ex ey) as [->|?|?]; try discriminate;
      (destruct (Pos.compare_cont Eq mx my) eqn:Hm; try discriminate;
       apply Pos.compare_eq in Hm; now subst).
Qed.

Lemma int_between (n N : Z) (q : Q) :
  inject_Z n <= q -> q < inject_Z n + 1 -> inject_Z N <= q -> q < inject_Z N + 1 -> n = N.
Proof.
  intros H1 H2 H3 H4.
  assert (Ha : inject_Z n < inject_Z (N + 1)) by (rewrite inject_Z_plus; change (inject_Z 1) with 1; lra).
  assert (Hb : inject_Z N < inject_Z (n + 1)) by (rewrite inject_Z_plus; change (inject_Z 1) with 1; lra).
  rewrite <- Zlt_Qlt in Ha, Hb. lia.
Qed.

Lemma shift_floor (a k : Z) :
  (0 <= k)%Z ->
  inject_Z (Z.shiftr a k) <= inject_Z a * 2 ^ (- k) /\
  inject_Z a * 2 ^ (- k) < inject_Z (Z.shiftr a k) + 1.
Proof.
  intros Hk. rewrite Z.shiftr_div_pow2 by lia.
  assert (Hp : (0 < 2 ^ k)%Z) by (apply Z.pow_pos_nonneg; lia).
  pose proof (Z.mul_div_le a (2 ^ k) Hp) as Hlo.
  pose proof (Z.mul_succ_div_gt a (2 ^ k) Hp) as Hhi.
  set (n := (a / 2 ^ k)%Z) in *.
  pose proof (pow2_pos (- k)) as HP. pose proof (pow2_pos k) as HPk.
  assert (Hinv : 2 ^ k * 2 ^ (- k) == 1).
  { rewrite <- pow2_add. now replace (k + - k)%Z with 0%Z by lia. }
  rewrite Zle_Qle in Hlo. rewrite Zlt_Qlt in Hhi.
  rewrite inject_Z_mult in Hlo, Hhi. unfold Z.succ in Hhi. rewrite inject_Z_plus in Hhi.
  change (inject_Z 1) with 1 in Hhi. rewrite pow2_inject in Hlo, Hhi by lia.
  set (A := inject_Z a) in *. set (B := inject_Z n) in *.
  set (p := 2 ^ k) in *. set (q := 2 ^ (- k)) in *.
  assert (H1 : p * B * q <= A * q) by (apply Qmult_le_compat_r; lra).
  assert (H2 : A * q < p * (B + 1) * q) by (apply Qmult_lt_compat_r; lra).
  assert (H3 : p * B * q == B) by (rewrite (Qmult_comm p B), <- Qmult_assoc, Hinv; ring).
  assert (H4 : p * (B + 1) * q == B + 1)
    by (rewrite (Qmult_comm p (B + 1)), <- Qmult_assoc, Hinv; ring).
  lra.
Qed.

(** A valid number below [2^52] in magnitude has a negative exponent. *)
Lemma small_exponent (s : bool) (m : positive) (e : Z) :
  valid (S754_finite s m e) ->
  - 2 ^ 52 < val (S754_finite s m e) < 2 ^ 52 -> (e < 0)%Z.
Proof.
  intros Hv Hb. apply valid_finite_fits in Hv as (_ & He & Hn).
  destruct (Z_lt_le_dec e 0) as [|Hge]; [assumption|exfalso].
  specialize (Hn ltac:(lia)).
  rewrite val_smant in Hb.
  pose proof (pow2_le 0 e Hge) as Hp. change (2 ^ 0) with 1 in Hp.
  rewrite Zle_Qle in Hn. change (inject_Z (2 ^ 52)) with (2 ^ 52) in Hn.
  assert (2 ^ 52 <= inject_Z (Zpos m) * 2 ^ e).
  { assert (0 <= (inject_Z (Zpos m) - 2 ^ 52) * (2 ^ e - 1)) by (apply Qmult_le_0_compat; lra).
    change (2 ^ 52) with (4503599627370496 # 1) in *. lra. }
  destruct s; lra.
Qed.

(** The integer roundings return their integer exactly. *)
Lemma int_result_exact (s : bool) (n : Z) :
  (- 2 ^ 53 < n < 2 ^ 53)%Z ->
  valid (int_result s n) /\ finite (int_result s n) /\ val (int_result s n) == inject_Z n.
Proof.
  intros Hn. destruct n; [repeat split| |]; apply of_Z_exact; exact Hn.
Qed.

(** [Math.floor] returns the floor of the value. *)
Lemma Math_floor_spec (x : JS.number) :
  valid x -> finite x -> - 2 ^ 52 < val x < 2 ^ 52 ->
  exists n : Z,
    JS.Math_floor x = int_result (sign_of x) n /\
    inject_Z n <= val x /\ val x < inject_Z n + 1.
Proof.
  intros Hv Hf Hb. destruct x as [s|s| |s m e]; try contradiction.
  - exists 0%Z. split; [reflexivity|]. cbn [val]. change (inject_Z 0) with 0. lra.
  - pose proof (small_exponent s m e Hv Hb) as He.
    cbn [JS.Math_floor]. destruct (Z.leb_spec 0 e) as [|_]; [lia|].
    exists (Z.shiftr (JS.smant s m) (- e)). split; [unfold int_result; now destruct (Z.shiftr _ _)|].
    pose proof (shift_floor (JS.smant s m) (- e) ltac:(lia)) as Hsf.
    rewrite Z.opp_involutive in Hsf. cbn [val]. exact Hsf.
Qed.

(** [Math.ceil] returns the ceiling of the value. *)
Lemma Math_ceil_spec (x : JS.number) :
  valid x -> finite x -> - 2 ^ 52 < val x < 2 ^ 52 ->
  exists n : Z,
    JS.Math_ceil x = int_result (sign_of x) n /\
    inject_Z n - 1 < val x /\ val x <= inject_Z n.
Proof.
  intros Hv Hf Hb. destruct x as [s|s| |s m e]; try contradiction.
  - exists 0%Z. split; [reflexivity|]. cbn [val]. change (inject_Z 0) with 0. lra.
  - pose proof (small_exponent s m e Hv Hb) as He.
    cbn [JS.Math_ceil]. destruct (Z.leb_spec 0 e) as [|_]; [lia|].
    exists (- Z.shiftr (- JS.smant s m) (- e))%Z. split; [unfold int_result; now destruct (Z.shiftr _ _)|].
    pose proof (shift_floor (- JS.smant s m) (- e) ltac:(lia)) as Hsf.
    rewrite Z.opp_involutive in Hsf. cbn [val].
    rewrite !inject_Z_opp in *. lra.
Qed.

(** [Math.round] returns the floor of the value plus one half. *)
Lemma Math_round_spec (x : JS.number) :
  valid x -> finite x -> - 2 ^ 52 < val x < 2 ^ 52 ->
  exists n : Z,
    JS.Math_round x = int_result (sign_of x) n /\
    inject_Z n <= val x + (1 # 2) /\ val x + (1 # 2) < inject_Z n + 1.
Proof.
  intros Hv Hf Hb. destruct x as [s|s| |s m e]; try contradiction.
  - exists 0%Z. split; [reflexivity|]. cbn [val]. change (inject_Z 0) with 0. lra.
  - pose proof (small_exponent s m e Hv Hb) as He.
    cbn [JS.Math_round]. destruct (Z.leb_spec 0 e) as [|_]; [lia|].
    exists (Z.shiftr (JS.smant s m + 2 ^ (- e - 1)) (- e)). split; [unfold int_result; now destruct (Z.shiftr _ _)|].
    pose proof (shift_floor (JS.smant s m + 2 ^ (- e - 1)) (- e) ltac:(lia)) as Hsf.
    rewrite Z.opp_involutive in Hsf. cbn [val].
    rewrite inject_Z_plus, Qmult_plus_distr_l, pow2_inject in Hsf by lia.
    assert (Hh : 2 ^ (- e - 1) * 2 ^ e == 1 # 2).
    { rewrite <- pow2_add. now replace (- e - 1 + e)%Z with (-1)%Z by lia. }
    rewrite Hh in Hsf. exact Hsf.
Qed.

End IntegerRounding.

(** ** The rounding helpers on amounts up to [2^30] *)

Ltac pow2_consts :=
  repeat match goal with
  | |- context [Qpower 2 ?e] =>
      let c := eval vm_compute in (Qpower 2 e) in change (Qpower 2 e) with c
  | H : context [Qpower 2 ?e] |- _ =>
      let c := eval vm_compute in (Qpower 2 e) in change (Qpower 2 e) with c in H
  end.

Section RoundToTwo.

#[local] Open Scope Q_scope.

Lemma const_facts :
  (valid n100 /\ finite n100 /\ val n100 == 100) /\
  (valid JS.EPSILON /\ finite JS.EPSILON /\ val JS.EPSILON == 1 # 4503599627370496) /\
  (valid n0_01 /\ finite n0_01 /\ val n0_01 == 5764607523034235 # 576460752303423488) /\
  (valid n0_30 /\ finite n0_30 /\ val n0_30 == 5404319552844595 # 18014398509481984) /\
  (valid n0_95 /\ finite n0_95 /\ val n0_95 == 8556839292003942 # 9007199254740992) /\
  (valid n1_95 /\ finite n1_95 /\ val n1_95 == 8782019273372467 # 4503599627370496) /\
  (valid n0_961 /\ finite n0_961 /\ val n0_961 == 8655918483806093 # 9007199254740992).
Proof. repeat split; vm_compute; reflexivity. Qed.

Lemma finite_val_zero (a : JS.number) : finite a -> val a == 0 -> a = S754_zero (sign_of a).
Proof.
  destruct a as [s|s| |s m e]; try contradiction; intros _ H; [reflexivity|].
  rewrite val_smant in H. pose proof (val_finite_pos m e). destruct s; lra.
Qed.

Lemma inject_Z_sub (a b : Z) : inject_Z (a - b) = inject_Z a - inject_Z b.
Proof. unfold Z.sub, Qminus. now rewrite inject_Z_plus, inject_Z_opp. Qed.

Lemma int_close (a b : Z) : -1 < inject_Z a - inject_Z b -> inject_Z a - inject_Z b < 1 -> a = b.
Proof.
  intros H1 H2.
  assert (Ha : inject_Z b < inject_Z (a + 1)) by (rewrite inject_Z_plus; change (inject_Z 1) with 1; lra).
  assert (Hb : inject_Z a < inject_Z (b + 1)) by (rewrite inject_Z_plus; change (inject_Z 1) with 1; lra).
  rewrite <- Zlt_Qlt in Ha, Hb. lia.
Qed.

(** [roundToTwo x] is the division by 100 of an integer number of cents
    [n], the integer nearest to [100 x] up to the rounding of the
    intermediate sum and product. *)
Lemma roundToTwo_spec (x : JS.number) :
  valid x -> finite x -> 0 <= val x <= 1073741824 ->
  exists n : Z,
    (0 <= n)%Z /\ roundToTwo x = cents n /\
    inject_Z n - (1 # 2) - (1 # 10000) <= 100 * val x /\
    100 * val x < inject_Z n + (1 # 2) + (1 # 10000).
Proof.
  intros Hv Hf Hb.
  destruct const_facts as ((V100 & F100 & E100) & (Veps & Feps & Eeps) & _).
  unfold roundToTwo.
  assert (Ha : rounds_to (JS.add x JS.EPSILON) (val x + val JS.EPSILON) 31).
  { apply add_rounds; try assumption; [|lia]. rewrite Eeps. pow2_consts. lra. }
  destruct Ha as (Va & Fa & Ba & Pa & _ & Sa & _). rewrite Eeps in *. pow2_consts.
  specialize (Pa ltac:(lra)). specialize (Sa ltac:(lra)).
  set (a := JS.add x JS.EPSILON) in *.
  assert (Ht : rounds_to (JS.mul a n100) (val a * val n100) 38).
  { apply mul_rounds; try assumption; [|lia]. rewrite E100. pow2_consts. lra. }
  destruct Ht as (Vt & Ft & Bt & Pt & _ & St & _). rewrite E100 in *. pow2_consts.
  specialize (Pt ltac:(lra)).
  assert (Sgt : sign_of (JS.mul a n100) = false).
  { destruct (Qlt_le_dec 0 (val a)) as [Hpos|Hle]; [apply St; lra|].
    assert (Hz : val a == 0) by lra.
    rewrite (finite_val_zero a Fa Hz), Sa. reflexivity. }
  set (t := JS.mul a n100) in *.
  destruct (Math_round_spec t Vt Ft ltac:(pow2_consts; lra)) as (n & Hn & Hlo & Hhi).
  rewrite Sgt in Hn.
  assert (Hn0 : (0 <= n)%Z).
  { assert (inject_Z 0 < inject_Z (n + 1)) by (rewrite inject_Z_plus; change (inject_Z 1) with 1;
      change (inject_Z 0) with 0; lra).
    rewrite <- Zlt_Qlt in H. lia. }
  exists n. split; [exact Hn0|]. split; [now rewrite Hn|]. lra.
Qed.

(** The value of an amount of [n] cents. *)
Lemma cents_val (n : Z) :
  (0 <= n <= 107374182500)%Z ->
  valid (cents n) /\ finite (cents n) /\ sign_of (cents n) = false /\ 0 <= val (cents n) /\
  inject_Z n - (1 # 40000) <= 100 * val (cents n) <= inject_Z n + (1 # 40000).
Proof.
  intros Hn. set (y := cents n).
  destruct const_facts as ((V100 & F100 & E100) & _).
  destruct (Z.eq_dec n 0%Z) as [->|Hne].
  { unfold y. change (cents 0) with (S754_zero false).
    cbn [val sign_of]. change (inject_Z 0) with 0.
    split; [reflexivity|]. split; [exact I|]. split; [reflexivity|]. split; [lra|].
    split; lra. }
  destruct (int_result_exact false n ltac:(lia)) as (Vi & Fi & Ei).
  assert (Hq : 0 < inject_Z n).
  { change 0 with (inject_Z 0). rewrite <- Zlt_Qlt. lia. }
  assert (Hq' : inject_Z n <= 107374182500).
  { change 107374182500 with (inject_Z 107374182500). rewrite <- Zle_Qle. lia. }
  assert (Hy : rounds_to y (val (int_result false n) / val n100) 31).
  { unfold y, cents.
    apply div_rounds; [assumption|now exists false, 7036874417766400%positive, (-46)%Z| |lia].
    rewrite Ei, E100. unfold Qdiv. change (/ 100) with (1 # 100). pow2_consts. lra. }
  destruct Hy as (Vy & Fy & By & Py & _ & Sy & _).
  rewrite Ei, E100 in *. unfold Qdiv in *. change (/ 100) with (1 # 100) in *. pow2_consts.
  split; [assumption|]. split; [assumption|].
  split; [apply Sy; lra|]. split; [apply Py; lra|]. lra.
Qed.

(** Amounts of whole cents are fixed points of [roundToTwo]. *)
Lemma roundToTwo_cents (n : Z) :
  (0 <= n <= 107374182300)%Z ->
  roundToTwo (cents n) = cents n.
Proof.
  intros Hn.
  destruct (cents_val n ltac:(lia)) as (Vy & Fy & Sy & Py & By).
  set (y := cents n) in *.
  assert (Hq' : inject_Z n <= 107374182300).
  { change 107374182300 with (inject_Z 107374182300). rewrite <- Zle_Qle. lia. }
  destruct (roundToTwo_spec y Vy Fy ltac:(lra)) as (n' & Hn0 & -> & Hlo & Hhi).
  rewrite (int_close n' n); [reflexivity| |]; lra.
Qed.

End RoundToTwo.

Section Modes.

#[local] Open Scope Q_scope.

Lemma abs_val (r : JS.number) :
  valid r -> finite r ->
  valid (JS.Math_abs r) /\ finite (JS.Math_abs r) /\ val (JS.Math_abs r) == Qabs (val r).
Proof.
  intros Hv Hf. destruct r as [s|s| |s m e]; try contradiction; cbn [JS.Math_abs SFabs].
  - repeat split.
  - split; [exact Hv|]. split; [exact I|].
    pose proof (val_finite_pos m e) as Hp. rewrite !val_smant.
    destruct s; [rewrite Qabs_opp|]; now rewrite Qabs_pos by lra.
Qed.

(** Mode [none], and any unknown mode. *)
Lemma roundToTwo_cents_of (x : JS.number) :
  valid x -> finite x -> 0 <= val x <= 1073741823 ->
  exists n : Z,
    (0 <= n <= 107374182300)%Z /\ roundToTwo x = cents n /\
    inject_Z n - (1 # 2) - (1 # 10000) <= 100 * val x /\
    100 * val x < inject_Z n + (1 # 2) + (1 # 10000).
Proof.
  intros Hv Hf Hb.
  destruct (roundToTwo_spec x Hv Hf ltac:(lra)) as (n & Hn0 & Hr & Hlo & Hhi).
  exists n. split; [|now repeat split].
  split; [exact Hn0|].
  assert (H : inject_Z n < inject_Z 107374182301).
  { change (inject_Z 107374182301) with 107374182301. lra. }
  rewrite <- Zlt_Qlt in H. lia.
Qed.

Lemma roundToTwo_idempotent (x : JS.number) :
  valid x -> finite x -> 0 <= val x <= 1073741823 ->
  roundToTwo (roundToTwo x) = roundToTwo x.
Proof.
  intros Hv Hf Hb.
  destruct (roundToTwo_cents_of x Hv Hf Hb) as (n & Hn & -> & _).
  now apply roundToTwo_cents.
Qed.

(** Mode [.99]. *)
Lemma mode_99_cents (x : JS.number) :
  valid x -> finite x -> 0 < val x <= 1000000001 ->
  exists k : Z,
    (1 <= k)%Z /\ inject_Z k - 1 < val x /\ val x <= inject_Z k /\
    applyRounding ".99" x = cents (100 * k - 1).
Proof.
  intros Hv Hf Hb.
  destruct const_facts as (_ & _ & (V01 & F01 & E01) & _).
  destruct (Math_ceil_spec x Hv Hf ltac:(pow2_consts; lra)) as (k & Hc & Hlo & Hhi).
  assert (Hk1 : (1 <= k)%Z).
  { assert (H : inject_Z 0 < inject_Z k) by (change (inject_Z 0) with 0; lra).
    rewrite <- Zlt_Qlt in H. lia. }
  assert (Hk2 : (k <= 1000000001)%Z).
  { assert (H : inject_Z k < inject_Z 1000000002) by (change (inject_Z 1000000002) with 1000000002; lra).
    rewrite <- Zlt_Qlt in H. lia. }
  exists k. split; [exact Hk1|]. split; [exact Hlo|]. split; [exact Hhi|].
  change (applyRounding ".99" x) with (roundToTwo (JS.sub (JS.Math_ceil x) n0_01)).
  rewrite Hc. replace (int_result (sign_of x) k) with (JS.of_Z k) by (destruct k; [lia|reflexivity..]).
  destruct (of_Z_exact k ltac:(lia)) as (Vk & Fk & Ek).
  assert (Hq : 1 <= inject_Z k <= 1000000001).
  { change 1 with (inject_Z 1). change 1000000001 with (inject_Z 1000000001).
    rewrite <- !Zle_Qle. lia. }
  assert (Hd : rounds_to (JS.sub (JS.of_Z k) n0_01) (val (JS.of_Z k) - val n0_01) 31).
  { apply sub_rounds; try assumption; [|lia]. rewrite Ek, E01. pow2_consts. lra. }
  destruct Hd as (Vd & Fd & Bd & _). rewrite Ek, E01 in Bd. pow2_consts.
  destruct (roundToTwo_cents_of _ Vd Fd ltac:(lra)) as (n & Hn & -> & Hnlo & Hnhi).
  f_equal. apply int_close; rewrite inject_Z_sub, inject_Z_mult;
    change (inject_Z 100) with 100; change (inject_Z 1) with 1; lra.
Qed.

Lemma mode_99_zero (s : bool) :
  applyRounding ".99" (applyRounding ".99" (S754_zero s)) = applyRounding ".99" (S754_zero s).
Proof. destruct s; vm_compute; reflexivity. Qed.

Lemma mode_99_idempotent (x : JS.number) :
  valid x -> finite x -> 0 <= val x <= 1000000000 ->
  applyRounding ".99" (applyRounding ".99" x) = applyRounding ".99" x.
Proof.
  intros Hv Hf Hb.
  destruct (Qlt_le_dec 0 (val x)) as [Hpos|Hle].
  - destruct (mode_99_cents x Hv Hf ltac:(lra)) as (k & Hk & Hlo & Hhi & ->).
    assert (Hk2 : (k <= 1000000000)%Z).
    { assert (H : inject_Z k < inject_Z 1000000001)
        by (change (inject_Z 1000000001) with 1000000001; lra).
      rewrite <- Zlt_Qlt in H. lia. }
    assert (Hq : 1 <= inject_Z k <= 1000000000).
    { change 1 with (inject_Z 1). change 1000000000 with (inject_Z 1000000000).
      rewrite <- !Zle_Qle. lia. }
    destruct (cents_val (100 * k - 1) ltac:(lia)) as (Vy & Fy & _ & Py & By).
    rewrite inject_Z_sub, inject_Z_mult in By.
    change (inject_Z 100) with 100 in *. change (inject_Z 1) with 1 in *.
    destruct (mode_99_cents (cents (100 * k - 1)) Vy Fy ltac:(lra)) as (k' & Hk' & Hlo' & Hhi' & ->).
    do 2 f_equal. f_equal. apply int_close; lra.
  - assert (Hz : val x == 0) by lra.
    rewrite (finite_val_zero x Hf Hz). apply mode_99_zero.
Qed.

End Modes.

Section Mode95.

#[local] Open Scope Q_scope.

Lemma Z_of_bounds (k lo hi : Z) :
  inject_Z lo - 1 < inject_Z k -> inject_Z k < inject_Z hi + 1 -> (lo <= k <= hi)%Z.
Proof.
  intros H1 H2.
  assert (Ha : inject_Z lo < inject_Z (k + 1)) by (rewrite inject_Z_plus; change (inject_Z 1) with 1; lra).
  assert (Hb : inject_Z k < inject_Z (hi + 1)) by (rewrite inject_Z_plus; change (inject_Z 1) with 1; lra).
  rewrite <- Zlt_Qlt in Ha, Hb. lia.
Qed.

Lemma Q_of_bounds (k lo hi : Z) :
  (lo <= k <= hi)%Z -> inject_Z lo <= inject_Z k <= inject_Z hi.
Proof. intros H. rewrite <- !Zle_Qle. exact H. Qed.

(** In mode [.95] the lower candidate is chosen, and the result is
    [floor(price) + 0.95] as an amount of cents. *)
Lemma mode_95_cents (x : JS.number) :
  valid x -> finite x -> 0 <= val x <= 1000000001 ->
  exists k : Z,
    (0 <= k)%Z /\ inject_Z k <= val x /\ val x < inject_Z k + 1 /\
    let whole := JS.Math_floor x in
    let candidate1 := JS.add whole n0_95 in
    let candidate2 := JS.add whole n1_95 in
    JS.le (JS.Math_abs (JS.sub candidate1 x)) (JS.Math_abs (JS.sub candidate2 x)) = true /\
    applyRounding ".95" x = roundToTwo candidate1 /\
    applyRounding ".95" x = cents (100 * k + 95).
Proof.
  intros Hv Hf Hb.
  destruct const_facts as (_ & _ & _ & _ & (V95 & F95 & E95) & (V195 & F195 & E195) & _).
  destruct (Math_floor_spec x Hv Hf ltac:(pow2_consts; lra)) as (k & Hw & Hlo & Hhi).
  assert (Hk : (0 <= k <= 1000000001)%Z).
  { apply Z_of_bounds; change (inject_Z 0) with 0;
      change (inject_Z 1000000001) with 1000000001; lra. }
  pose proof (Q_of_bounds k 0 1000000001 Hk) as Hq.
  change (inject_Z 0) with 0 in Hq. change (inject_Z 1000000001) with 1000000001 in Hq.
  exists k. split; [lia|]. split; [exact Hlo|]. split; [exact Hhi|]. cbn zeta.
  destruct (int_result_exact (sign_of x) k ltac:(lia)) as (Vw & Fw & Ew).
  rewrite <- Hw in Vw, Fw, Ew.
  set (whole := JS.Math_floor x) in *.
  assert (H1 : rounds_to (JS.add whole n0_95) (val whole + val n0_95) 31).
  { apply add_rounds; try assumption; [|lia]. rewrite Ew, E95. pow2_consts. lra. }
  assert (H2 : rounds_to (JS.add whole n1_95) (val whole + val n1_95) 31).
  { apply add_rounds; try assumption; [|lia]. rewrite Ew, E195. pow2_consts. lra. }
  destruct H1 as (V1 & F1 & B1 & _). destruct H2 as (V2 & F2 & B2 & _).
  rewrite Ew, E95 in B1. rewrite Ew, E195 in B2. pow2_consts.
  set (c1 := JS.add whole n0_95) in *. set (c2 := JS.add whole n1_95) in *.
  assert (D1 : rounds_to (JS.sub c1 x) (val c1 - val x) 1).
  { apply sub_rounds; try assumption; [|lia]. pow2_consts. lra. }
  assert (D2 : rounds_to (JS.sub c2 x) (val c2 - val x) 1).
  { apply sub_rounds; try assumption; [|lia]. pow2_consts. lra. }
  destruct D1 as (Vd1 & Fd1 & Bd1 & _). destruct D2 as (Vd2 & Fd2 & Bd2 & _).
  pow2_consts.
  destruct (abs_val _ Vd1 Fd1) as (Va1 & Fa1 & Ea1).
  destruct (abs_val _ Vd2 Fd2) as (Va2 & Fa2 & Ea2).
  assert (Hsel : JS.le (JS.Math_abs (JS.sub c1 x)) (JS.Math_abs (JS.sub c2 x)) = true).
  { apply le_val; try assumption. rewrite Ea1, Ea2.
    rewrite (Qabs_pos (val (JS.sub c2 x))) by lra.
    apply Qabs_Qle_condition. lra. }
  split; [exact Hsel|].
  assert (Hr : applyRounding ".95" x = roundToTwo c1).
  { change (applyRounding ".95" x) with
      (roundToTwo (if JS.le (JS.Math_abs (JS.sub c1 x)) (JS.Math_abs (JS.sub c2 x))
                   then c1 else c2)).
    now rewrite Hsel. }
  split; [exact Hr|]. rewrite Hr.
  destruct (roundToTwo_cents_of c1 V1 F1 ltac:(lra)) as (n & Hn & -> & Hnlo & Hnhi).
  f_equal. apply int_close; rewrite inject_Z_plus, inject_Z_mult;
    change (inject_Z 100) with 100; change (inject_Z 95) with 95; lra.
Qed.

Lemma mode_95_idempotent (x : JS.number) :
  valid x -> finite x -> 0 <= val x <= 1000000000 ->
  applyRounding ".95" (applyRounding ".95" x) = applyRounding ".95" x.
Proof.
  intros Hv Hf Hb.
  destruct (mode_95_cents x Hv Hf ltac:(lra)) as (k & Hk & Hlo & Hhi & _ & _ & ->).
  assert (Hk2 : (0 <= k <= 1000000000)%Z).
  { apply Z_of_bounds; change (inject_Z 0) with 0;
      change (inject_Z 1000000000) with 1000000000; lra. }
  pose proof (Q_of_bounds k 0 1000000000 Hk2) as Hq.
  change (inject_Z 0) with 0 in Hq. change (inject_Z 1000000000) with 1000000000 in Hq.
  destruct (cents_val (100 * k + 95) ltac:(lia)) as (Vy & Fy & _ & Py & By).
  rewrite inject_Z_plus, inject_Z_mult in By.
  change (inject_Z 100) with 100 in *. change (inject_Z 95) with 95 in *.
  destruct (mode_95_cents (cents (100 * k + 95)) Vy Fy ltac:(lra))
    as (k' & Hk' & Hlo' & Hhi' & _ & _ & ->).
  do 2 f_equal. f_equal. apply int_close; lra.
Qed.

(** Mode [whole]. *)
Lemma mode_whole_cents (x : JS.number) :
  valid x -> finite x -> 0 <= val x <= 1000000001 ->
  exists k : Z,
    (0 <= k)%Z /\ inject_Z k <= val x + (1 # 2) /\ val x + (1 # 2) < inject_Z k + 1 /\
    applyRounding "whole" x = cents (100 * k).
Proof.
  intros Hv Hf Hb.
  destruct (Math_round_spec x Hv Hf ltac:(pow2_consts; lra)) as (k & Hw & Hlo & Hhi).
  assert (Hk : (0 <= k <= 1000000001)%Z).
  { apply Z_of_bounds; change (inject_Z 0) with 0;
      change (inject_Z 1000000001) with 1000000001; lra. }
  pose proof (Q_of_bounds k 0 1000000001 Hk) as Hq.
  change (inject_Z 0) with 0 in Hq. change (inject_Z 1000000001) with 1000000001 in Hq.
  exists k. split; [lia|]. split; [exact Hlo|]. split; [exact Hhi|].
  change (applyRounding "whole" x) with (roundToTwo (JS.Math_round x)). rewrite Hw.
  destruct (Z.eq_dec k 0%Z) as [->|Hne]; [destruct (sign_of x); vm_compute; reflexivity|].
  destruct (int_result_exact (sign_of x) k ltac:(lia)) as (Vw & Fw & Ew).
  destruct (roundToTwo_cents_of _ Vw Fw ltac:(rewrite Ew; lra)) as (n & Hn & -> & Hnlo & Hnhi).
  rewrite Ew in Hnlo, Hnhi.
  f_equal. apply int_close; rewrite inject_Z_mult; change (inject_Z 100) with 100; lra.
Qed.

Lemma mode_whole_idempotent (x : JS.number) :
  valid x -> finite x -> 0 <= val x <= 1000000000 ->
  applyRounding "whole" (applyRounding "whole" x) = applyRounding "whole" x.
Proof.
  intros Hv Hf Hb.
  destruct (mode_whole_cents x Hv Hf ltac:(lra)) as (k & Hk & Hlo & Hhi & ->).
  assert (Hk2 : (0 <= k <= 1000000000)%Z).
  { apply Z_of_bounds; change (inject_Z 0) with 0;
      change (inject_Z 1000000000) with 1000000000; lra. }
  pose proof (Q_of_bounds k 0 1000000000 Hk2) as Hq.
  change (inject_Z 0) with 0 in Hq. change (inject_Z 1000000000) with 1000000000 in Hq.
  destruct (cents_val (100 * k) ltac:(lia)) as (Vy & Fy & _ & Py & By).
  rewrite inject_Z_mult in By. change (inject_Z 100) with 100 in *.
  destruct (mode_whole_cents (cents (100 * k)) Vy Fy ltac:(lra)) as (k' & Hk' & Hlo' & Hhi' & ->).
  do 2 f_equal. f_equal. apply int_close; lra.
Qed.

End Mode95.

Section Inversion.

#[local] Open Scope Q_scope.

Lemma parseFloat_num (c : JS.number) :
  valid c -> finite c ->
  valid (JS.parseFloat (JS.VNum c)) /\ finite (JS.parseFloat (JS.VNum c)) /\
  val (JS.parseFloat (JS.VNum c)) == val c.
Proof. intros Hv Hf. destruct c; try contradiction; repeat split; assumption. Qed.

(** The unrounded price [P = (cost + 0.30) / 0.961]: it inverts back to the
    cost within [10^-9]. *)
Lemma formula_value (cost : JS.number) :
  valid cost -> finite cost -> 0 <= val cost <= 1000000 ->
  let P := ((JS.parseFloat (JS.VNum cost) + n0_30) / n0_961)%js in
  valid P /\ finite P /\ (3 # 10) <= val P <= 1040584 /\
  val cost + (3 # 10) - (1 # 1000000000) <= val P * (961 # 1000) /\
  val P * (961 # 1000) <= val cost + (3 # 10) + (1 # 1000000000).
Proof.
  intros Hv Hf Hb.
  destruct const_facts as (_ & _ & _ & (V30 & F30 & E30) & _ & _ & (V961 & F961 & E961)).
  destruct (parseFloat_num cost Hv Hf) as (Vc & Fc & Ec).
  set (c := JS.parseFloat (JS.VNum cost)) in *.
  assert (Hs : rounds_to (JS.add c n0_30) (val c + val n0_30) 20).
  { apply add_rounds; try assumption; [|lia]. rewrite Ec, E30. pow2_consts. lra. }
  destruct Hs as (Vs & Fs & Bs & _). rewrite Ec, E30 in Bs. pow2_consts.
  set (s := JS.add c n0_30) in *.
  assert (HP : rounds_to (JS.div s n0_961) (val s / val n0_961) 21).
  { apply div_rounds; [assumption|now exists false, 8655918483806093%positive, (-53)%Z| |lia].
    rewrite E961. unfold Qdiv.
    change (/ (8655918483806093 # 9007199254740992)) with (9007199254740992 # 8655918483806093).
    pow2_consts. lra. }
  destruct HP as (VP & FP & BP & _). rewrite E961 in BP. unfold Qdiv in BP.
  change (/ (8655918483806093 # 9007199254740992))
    with (9007199254740992 # 8655918483806093) in BP.
  pow2_consts. cbn zeta.
  split; [exact VP|]. split; [exact FP|]. lra.
Qed.

(** A price within [D] of [P] inverts back to the cost within
    [0.961 D], up to the rounding of the product and of the differences. *)
Lemma gap_of_price (cost price tol : JS.number) (vP D : Q) :
  valid cost -> finite cost -> 0 <= val cost <= 1000000 ->
  valid price -> finite price -> valid tol -> finite tol ->
  (3 # 10) <= vP <= 1040584 ->
  val cost + (3 # 10) - (1 # 1000000000) <= vP * (961 # 1000) ->
  vP * (961 # 1000) <= val cost + (3 # 10) + (1 # 1000000000) ->
  vP - D <= val price <= vP + D -> 0 <= D <= 1 ->
  D * (961 # 1000) + (1 # 500000000) <= val tol ->
  JS.le (JS.Math_abs (price * n0_961 - n0_30 - cost)%js) tol = true.
Proof.
  intros Hv Hf Hb Vy Fy Vt Ft HP Hlo Hhi Hpr HD Htol.
  destruct const_facts as (_ & _ & _ & (V30 & F30 & E30) & _ & _ & (V961 & F961 & E961)).
  assert (Hq : rounds_to (JS.mul price n0_961) (val price * val n0_961) 21).
  { apply mul_rounds; try assumption; [|lia]. rewrite E961. pow2_consts. lra. }
  destruct Hq as (Vq & Fq & Bq & _). rewrite E961 in Bq. pow2_consts.
  set (q := JS.mul price n0_961) in *.
  assert (Hr : rounds_to (JS.sub q n0_30) (val q - val n0_30) 21).
  { apply sub_rounds; try assumption; [|lia]. rewrite E30. pow2_consts. lra. }
  destruct Hr as (Vr & Fr & Br & _). rewrite E30 in Br. pow2_consts.
  set (r := JS.sub q n0_30) in *.
  assert (Hg : rounds_to (JS.sub r cost) (val r - val cost) 1).
  { apply sub_rounds; try assumption; [|lia]. pow2_consts. lra. }
  destruct Hg as (Vg & Fg & Bg & _). pow2_consts.
  destruct (abs_val _ Vg Fg) as (Va & Fa & Ea).
  apply (le_val _ tol Va Vt Fa Ft). rewrite Ea. apply Qabs_Qle_condition. lra.
Qed.

Lemma slack_facts :
  (valid n0_005 /\ finite n0_005 /\ val n0_005 == 5764607523034235 # 1152921504606846976) /\
  (valid n1 /\ finite n1 /\ val n1 == 1) /\
  (valid float_tolerance /\ finite float_tolerance /\
   (1 # 200000000) <= val float_tolerance).
Proof. repeat split; vm_compute; first [reflexivity | discriminate]. Qed.

Lemma formula_gap_small (cost : JS.number) :
  valid cost -> finite cost -> 0 <= val cost <= 1000000 ->
  JS.le (formula_gap cost) float_tolerance = true.
Proof.
  intros Hv Hf Hb.
  destruct (formula_value cost Hv Hf Hb) as (VP & FP & BP & Hlo & Hhi). cbn zeta in *.
  unfold formula_gap.
  set (P := ((JS.parseFloat (JS.VNum cost) + n0_30) / n0_961)%js) in *.
  destruct slack_facts as (_ & _ & (Vt & Ft & Et)).
  apply (gap_of_price cost P float_tolerance (val P) 0); try assumption;
    try rewrite Et; lra.
Qed.

Lemma inversion_gap_none (cost : JS.number) :
  valid cost -> finite cost -> 0 <= val cost <= 1000000 ->
  JS.le (JS.Math_abs (roundToTwo ((JS.parseFloat (JS.VNum cost) + n0_30) / n0_961)
                      * n0_961 - n0_30 - cost)%js) n0_005 = true.
Proof.
  intros Hv Hf Hb.
  destruct (formula_value cost Hv Hf Hb) as (VP & FP & BP & Hlo & Hhi). cbn zeta in *.
  set (P := ((JS.parseFloat (JS.VNum cost) + n0_30) / n0_961)%js) in *.
  destruct slack_facts as ((V5 & F5 & E5) & _ & _).
  destruct (roundToTwo_cents_of P VP FP ltac:(lra)) as (n & Hn & -> & Hnlo & Hnhi).
  destruct (cents_val n ltac:(lia)) as (Vy & Fy & _ & Py & By).
  apply (gap_of_price cost (cents n) n0_005 (val P) (50013 # 10000000)); try assumption;
    try rewrite E5; lra.
Qed.

Lemma inversion_gap_99 (cost : JS.number) :
  valid cost -> finite cost -> 0 <= val cost <= 1000000 ->
  JS.le (JS.Math_abs (applyRounding ".99" ((JS.parseFloat (JS.VNum cost) + n0_30) / n0_961)
                      * n0_961 - n0_30 - cost)%js) n1 = true.
Proof.
  intros Hv Hf Hb.
  destruct (formula_value cost Hv Hf Hb) as (VP & FP & BP & Hlo & Hhi). cbn zeta in *.
  set (P := ((JS.parseFloat (JS.VNum cost) + n0_30) / n0_961)%js) in *.
  destruct slack_facts as (_ & (V1 & F1 & E1) & _).
  destruct (mode_99_cents P VP FP ltac:(lra)) as (k & Hk & Hklo & Hkhi & ->).
  assert (Hk2 : (1 <= k <= 1040584)%Z).
  { apply Z_of_bounds; change (inject_Z 1) with 1; change (inject_Z 1040584) with 1040584; lra. }
  destruct (cents_val (100 * k - 1) ltac:(lia)) as (Vy & Fy & _ & Py & By).
  rewrite inject_Z_sub, inject_Z_mult in By.
  change (inject_Z 100) with 100 in By. change (inject_Z 1) with 1 in By.
  apply (gap_of_price cost (cents (100 * k - 1)) n1 (val P) (991 # 1000)); try assumption;
    try rewrite E1; lra.
Qed.

Lemma inversion_gap_95 (cost : JS.number) :
  valid cost -> finite cost -> 0 <= val cost <= 1000000 ->
  JS.le (JS.Math_abs (applyRounding ".95" ((JS.parseFloat (JS.VNum cost) + n0_30) / n0_961)
                      * n0_961 - n0_30 - cost)%js) n1 = true.
Proof.
  intros Hv Hf Hb.
  destruct (formula_value cost Hv Hf Hb) as (VP & FP & BP & Hlo & Hhi). cbn zeta in *.
  set (P := ((JS.parseFloat (JS.VNum cost) + n0_30) / n0_961)%js) in *.
  destruct slack_facts as (_ & (V1 & F1 & E1) & _).
  destruct (mode_95_cents P VP FP ltac:(lra)) as (k & Hk & Hklo & Hkhi & _ & _ & ->).
  assert (Hk2 : (0 <= k <= 1040584)%Z).
  { apply Z_of_bounds; change (inject_Z 0) with 0; change (inject_Z 1040584) with 1040584; lra. }
  destruct (cents_val (100 * k + 95) ltac:(lia)) as (Vy & Fy & _ & Py & By).
  rewrite inject_Z_plus, inject_Z_mult in By.
  change (inject_Z 100) with 100 in By. change (inject_Z 95) with 95 in By.
  apply (gap_of_price cost (cents (100 * k + 95)) n1 (val P) (951 # 1000)); try assumption;
    try rewrite E1; lra.
Qed.

Lemma inversion_gap_whole (cost : JS.number) :
  valid cost -> finite cost -> 0 <= val cost <= 1000000 ->
  JS.le (JS.Math_abs (applyRounding "whole" ((JS.parseFloat (JS.VNum cost) + n0_30) / n0_961)
                      * n0_961 - n0_30 - cost)%js) n1 = true.
Proof.
  intros Hv Hf Hb.
  destruct (formula_value cost Hv Hf Hb) as (VP & FP & BP & Hlo & Hhi). cbn zeta in *.
  set (P := ((JS.parseFloat (JS.VNum cost) + n0_30) / n0_961)%js) in *.
  destruct slack_facts as (_ & (V1 & F1 & E1) & _).
  destruct (mode_whole_cents P VP FP ltac:(lra)) as (k & Hk & Hklo & Hkhi & ->).
  assert (Hk2 : (0 <= k <= 1040585)%Z).
  { apply Z_of_bounds; change (inject_Z 0) with 0; change (inject_Z 1040585) with 1040585; lra. }
  destruct (cents_val (100 * k) ltac:(lia)) as (Vy & Fy & _ & Py & By).
  rewrite inject_Z_mult in By. change (inject_Z 100) with 100 in By.
  apply (gap_of_price cost (cents (100 * k)) n1 (val P) (501 # 1000)); try assumption;
    try rewrite E1; lra.
Qed.

End Inversion.
(** * The pricing pass *)

(** ** The monad of requests *)

Lemma bind_unfold {A B : Type} (c : M A) (k : A -> M B) (tr : list event) :
  (c ≫= k) tr = match c tr with Some (a, tr') => k a tr' | None => None end.
Proof. reflexivity. Qed.

(** ** Costs that are not used *)

Lemma gt_zero_has_cost (cost : JS.number) :
  JS.gt cost n0 = true -> no_cost cost = false.
Proof.
  destruct cost as [s|s| |s m e]; try destruct s; cbn; try discriminate; reflexivity.
Qed.

Lemma le_zero_no_cost (cost : JS.number) :
  JS.le cost n0 = true -> no_cost cost = true.
Proof.
  unfold no_cost. intros ->. apply orb_true_r.
Qed.

(** C3.  A variant whose resolved supplier cost is zero, not a number, or
    at most zero is counted as skipped: whatever its current price, the
    counters change by one skip only and the trace is unchanged, so no update
    was attempted. *)
Theorem no_cost_is_skipped (cfg : env) (w : world) (v : variant) (supplierCost : JS.number)
    (c : counts) (tr : list event) :
  (exists s, supplierCost = S754_zero s) \/ supplierCost = JS.NaN \/
  JS.le supplierCost n0 = true ->
  price_variant cfg w v supplierCost c tr = Some (incr_skipped c, tr).
Proof.
  intros H. unfold price_variant.
  assert (Hn : no_cost supplierCost = true).
  { destruct H as [[s ->]|[->|H]]; [reflexivity | reflexivity | now apply le_zero_no_cost]. }
  now rewrite Hn.
Qed.

Ltac count :=
  unfold total, incr_updated, incr_skipped, incr_errors in *; cbn in *; lia.

Section Counting.

Variable cfg : env.
Variable w : world.
Variable fuel : nat.
Variable tbl : gmap string JS.number.

Lemma printify_loop_returns (sku : string) (bound : nat) :
  catalog_ends w bound ->
  forall (n : nat) (page : Z) (tr : list event),
    (0 < n)%nat -> Z.of_nat bound < page + Z.of_nat n ->
    exists cost tr', printify_loop w sku n page tr = Some (cost, tr').
Proof.
  intros Hend n. induction n as [|n IH]; intros page tr Hpos Hb; [lia|].
  cbn [printify_loop]. rewrite bind_unfold. cbn [axios_get_printify].
  pose proof (Hend tr page) as Hfull.
  destruct (printify_page w tr page) as [| |l]; try (eexists _, _; reflexivity).
  destruct (Z.of_nat (length l) =? 0); [eexists _, _; reflexivity|].
  destruct (scan_products sku l); try (eexists _, _; reflexivity).
  destruct (Z.of_nat (length l) <? perPage) eqn:Hlt; [eexists _, _; reflexivity|].
  assert (page < Z.of_nat bound).
  { destruct (Z_lt_le_dec page (Z.of_nat bound)) as [|Hge]; [assumption|].
    specialize (Hfull Hge). cbn in Hfull. lia. }
  apply IH; lia.
Qed.

Lemma lookup_returns (sku : string) (tr : list event) :
  (0 < fuel)%nat -> catalog_ends w fuel ->
  exists cost tr', getPrintifyVariantCostBySku cfg w fuel sku tr = Some (cost, tr').
Proof.
  intros Hpos Hend. unfold getPrintifyVariantCostBySku.
  destruct (printify_unconfigured cfg); [eexists _, _; reflexivity|].
  apply (printify_loop_returns sku fuel Hend); lia.
Qed.

Lemma price_variant_counts (v : variant) (cost : JS.number) (c : counts) (tr : list event) :
  exists c' tr', price_variant cfg w v cost c tr = Some (c', tr') /\ total c' = S (total c).
Proof.
  unfold price_variant.
  destruct (no_cost cost); [eexists _, _; split; [reflexivity|count]|].
  destruct (JS.gt _ _).
  - rewrite bind_unfold. cbn [updateShopifyVariantPrice].
    destruct (shopify_put w tr _ _); eexists _, _; (split; [reflexivity|count]).
  - eexists _, _; split; [reflexivity|count].
Qed.

Lemma process_variant_counts (vendor : string) (p : product) (v : variant) (c : counts)
    (tr : list event) :
  (0 < fuel)%nat -> catalog_ends w fuel ->
  exists c' tr', process_variant cfg w fuel tbl vendor p v c tr = Some (c', tr') /\
                 total c' = S (total c).
Proof.
  intros Hpos Hend. unfold process_variant.
  destruct (trim_method _) as [sku|]; [|eexists _, _; split; [reflexivity|count]].
  destruct (is_printify vendor p) as [[|]|].
  - rewrite bind_unfold.
    destruct (lookup_returns sku tr Hpos Hend) as (cost & tr1 & ->).
    apply price_variant_counts.
  - apply price_variant_counts.
  - eexists _, _; split; [reflexivity|count].
Qed.

Lemma process_variants_counts (vendor : string) (p : product) (vs : list variant) :
  (0 < fuel)%nat -> catalog_ends w fuel ->
  forall (c : counts) (tr : list event),
  exists c' tr', process_variants cfg w fuel tbl vendor p vs c tr = Some (c', tr') /\
                 total c' = (total c + length vs)%nat.
Proof.
  intros Hpos Hend. induction vs as [|v vs IH]; intros c tr.
  - eexists _, _; split; [reflexivity|count].
  - cbn [process_variants]. rewrite bind_unfold.
    destruct (process_variant_counts vendor p v c tr Hpos Hend) as (c1 & tr1 & -> & H1).
    destruct (IH c1 tr1) as (c2 & tr2 & -> & H2).
    eexists _, _; split; [reflexivity|cbn [length]; lia].
Qed.

Lemma process_products_counts (products : list product) :
  (0 < fuel)%nat -> catalog_ends w fuel ->
  forall (c : counts) (tr : list event),
  exists c' tr', process_products cfg w fuel tbl products c tr = Some (c', tr') /\
                 total c' = (total c + variant_count products)%nat.
Proof.
  intros Hpos Hend. induction products as [|p ps IH]; intros c tr.
  - eexists _, _; split; [reflexivity|count].
  - cbn [process_products]. rewrite bind_unfold. unfold process_product.
    destruct (process_variants_counts (JS.toLowerCase (str_or (p_vendor p) "")) p
                (default [] (p_variants p)) Hpos Hend c tr) as (c1 & tr1 & -> & H1).
    destruct (IH c1 tr1) as (c2 & tr2 & -> & H2).
    eexists _, _; split; [reflexivity|].
    cbn [variant_count]. lia.
Qed.

Lemma process_variant_total (vendor : string) (p : product) (v : variant) (c c' : counts)
    (tr tr' : list event) :
  process_variant cfg w fuel tbl vendor p v c tr = Some (c', tr') -> total c' = S (total c).
Proof.
  unfold process_variant.
  destruct (trim_method _) as [sku|]; [|intros [= <- _]; count].
  destruct (is_printify vendor p) as [[|]|].
  - rewrite bind_unfold.
    destruct (getPrintifyVariantCostBySku cfg w fuel sku tr) as [[cost tr1]|]; [|discriminate].
    destruct (price_variant_counts v cost c tr1) as (c2 & tr2 & -> & H).
    now intros [= <- _].
  - destruct (price_variant_counts v (csv_cost tbl sku) c tr) as (c2 & tr2 & -> & H).
    now intros [= <- _].
  - intros [= <- _]; count.
Qed.

Lemma process_variants_total (vendor : string) (p : product) (vs : list variant) :
  forall (c c' : counts) (tr tr' : list event),
  process_variants cfg w fuel tbl vendor p vs c tr = Some (c', tr') ->
  total c' = (total c + length vs)%nat.
Proof.
  induction vs as [|v vs IH]; intros c c' tr tr'.
  - intros [= <- _]. cbn [length]. lia.
  - cbn [process_variants]. rewrite bind_unfold.
    destruct (process_variant cfg w fuel tbl vendor p v c tr) as [[c1 tr1]|] eqn:E1;
      [|discriminate].
    intros E2. apply process_variant_total in E1. apply IH in E2. cbn [length]. lia.
Qed.

Lemma process_products_total (products : list product) :
  forall (c c' : counts) (tr tr' : list event),
  process_products cfg w fuel tbl products c tr = Some (c', tr') ->
  total c' = (total c + variant_count products)%nat.
Proof.
  induction products as [|p ps IH]; intros c c' tr tr'.
  - intros [= <- _]. cbn [variant_count]. lia.
  - cbn [process_products]. rewrite bind_unfold. unfold process_product.
    destruct (process_variants _ _ _ _ _ _ _ _ _) as [[c1 tr1]|] eqn:E1; [|discriminate].
    intros E2. apply process_variants_total in E1. apply IH in E2.
    cbn [variant_count]. lia.
Qed.

End Counting.

(** C9.  The three counters of a pass that returns add up to the number of
    variants iterated over: each variant is counted exactly once.  And a pass
    does return when the remote catalog ends (from some page on it never
    serves a full page, and the loop bound reaches that page). *)
Theorem counters_partition (cfg : env) (w : world) (fuel : nat) (f : csv_file)
    (products : list product) :
  (forall c tr, runPricingJob cfg w fuel f products = Some (c, tr) ->
     (updated c + skipped c + errors c = variant_count products)%nat) /\
  ((0 < fuel)%nat -> catalog_ends w fuel ->
   exists c tr, runPricingJob cfg w fuel f products = Some (c, tr)).
Proof.
  unfold runPricingJob. split.
  - intros c tr H. apply process_products_total in H. exact H.
  - intros Hpos Hend.
    destruct (process_products_counts cfg w fuel (loadAliExpressCSV f) products Hpos Hend
                {| updated := 0; skipped := 0; errors := 0 |} []) as (c & tr & -> & _).
    now exists c, tr.
Qed.

(** ** The bulk cost feed *)

Lemma load_row_spec (map : gmap string JS.number) (r : gmap string string) :
  load_row map r =
  if String.eqb (row_sku r) "" then map
  else if String.eqb (row_sku r) "__proto__" then map
  else <[row_sku r := row_cost r]> map.
Proof.
  unfold load_row, object_set, row_sku, row_cost, row_cost_text.
  now destruct (String.eqb _ "").
Qed.

Lemma load_rows_other (rs : list (gmap string string)) (k : string) :
  Forall (fun r' => row_sku r' <> k) rs ->
  forall map : gmap string JS.number, fold_left load_row rs map !! k = map !! k.
Proof.
  induction 1 as [|r rs Hr _ IH]; intros map; [reflexivity|].
  cbn [fold_left]. rewrite IH, load_row_spec.
  destruct (String.eqb _ ""); [reflexivity|].
  destruct (String.eqb _ "__proto__"); [reflexivity|].
  now apply lookup_insert_ne.
Qed.

Lemma load_rows_last (rs1 rs2 : list (gmap string string)) (r : gmap string string) :
  row_sku r <> "" -> row_sku r <> "__proto__" ->
  Forall (fun r' => row_sku r' <> row_sku r) rs2 ->
  loadAliExpressCSV (CsvRecords (rs1 ++ r :: rs2)) !! row_sku r = Some (row_cost r).
Proof.
  intros Hne Hproto Hlater. cbn [loadAliExpressCSV].
  rewrite fold_left_app. cbn [fold_left].
  rewrite (load_rows_other rs2 (row_sku r) Hlater), load_row_spec.
  apply String.eqb_neq in Hne, Hproto. rewrite Hne, Hproto.
  apply lookup_insert_eq.
Qed.


(** ** Supplier routing *)

#[local] Arguments append !s1 s2 : simpl nomatch.

Lemma prefix_app (t s : string) :
  String.prefix t s = true <-> exists post, s = t +:+ post.
Proof.
  revert s. induction t as [|c t IH]; intros s.
  - destruct s; (split; [intros _; now eexists | reflexivity]).
  - destruct s as [|c' s]; cbn; [split; [discriminate|intros [? [=]]]|].
    destruct (Ascii.ascii_dec c c') as [->|Hne].
    + rewrite IH. split; intros [post H]; exists post; [now rewrite H | now injection H].
    + split; [discriminate|]. intros [post [= Hc _]]. now symmetry in Hc.
Qed.

Lemma includes_app (s t : string) :
  JS.includes s t = true <-> exists pre post, s = pre +:+ t +:+ post.
Proof.
  induction s as [|c s IH]; cbn [JS.includes].
  - rewrite orb_false_r, prefix_app. split.
    + intros [post H]. now exists "", post.
    + intros (pre & post & H). destruct pre; [now exists post|discriminate].
  - rewrite orb_true_iff, prefix_app, IH. split.
    + intros [[post H]|(pre & post & H)].
      * now exists "", post.
      * exists (String c pre), post. cbn. now rewrite H.
    + intros (pre & post & H). destruct pre as [|c' pre].
      * left. now exists post.
      * right. injection H as _ H. now exists pre, post.
Qed.

Lemma toLowerCase_app (a b : string) :
  JS.toLowerCase (a +:+ b) = JS.toLowerCase a +:+ JS.toLowerCase b.
Proof. induction a as [|c a IH]; cbn; [reflexivity|now rewrite IH]. Qed.

Lemma toLowerCase_split (s a b : string) :
  JS.toLowerCase s = a +:+ b ->
  exists a' b', s = a' +:+ b' /\ JS.toLowerCase a' = a /\ JS.toLowerCase b' = b.
Proof.
  revert s. induction a as [|c a IH]; intros s H.
  - now exists "", s.
  - destruct s as [|c' s]; [discriminate|]. cbn in H. injection H as Hc H.
    destruct (IH s H) as (a' & b' & -> & <- & <-).
    exists (String c' a'), b'. cbn. now rewrite Hc.
Qed.

Lemma code_inj (a b : ascii) : JS.code a = JS.code b -> a = b.
Proof.
  unfold JS.code. intros H. apply N2Z.inj in H.
  rewrite <- (Ascii.ascii_N_embedding a), <- (Ascii.ascii_N_embedding b). now rewrite H.
Qed.

Lemma code_bound (c : ascii) : 0 <= JS.code c < 256.
Proof. unfold JS.code. pose proof (Ascii.N_ascii_bounded c). lia. Qed.

Lemma code_of (n : Z) : 0 <= n < 256 -> JS.code (Ascii.ascii_of_N (Z.to_N n)) = n.
Proof. intros H. unfold JS.code. rewrite Ascii.N_ascii_embedding; lia. Qed.

Lemma lower_cases (c : ascii) :
  ((65 <= JS.code c <= 90) \/ (192 <= JS.code c <= 222 /\ JS.code c <> 215)) /\
  JS.code (JS.lower c) = JS.code c + 32 \/
  ~ ((65 <= JS.code c <= 90) \/ (192 <= JS.code c <= 222 /\ JS.code c <> 215)) /\
  JS.lower c = c.
Proof.
  unfold JS.lower. cbn zeta. pose proof (code_bound c) as Hb.
  destruct (Z.leb_spec 65 (JS.code c)); destruct (Z.leb_spec (JS.code c) 90);
    destruct (Z.leb_spec 192 (JS.code c)); destruct (Z.leb_spec (JS.code c) 222);
    destruct (Z.eqb_spec (JS.code c) 215); cbn [andb orb negb];
    first [left; split; [lia|apply code_of; lia] | right; split; [lia|reflexivity]].
Qed.

(** On a small letter or a character without case, lower-casing compares
    like [same_letter]. *)
Lemma lower_same (c m : ascii) : JS.lower m = m -> JS.lower c = m <-> same_letter c m.
Proof.
  intros Hm. split.
  - intros Hc. destruct (lower_cases c) as [[Hcap Hl]|[_ Hl]].
    + right. left. split; [exact Hcap|]. now rewrite <- Hc.
    + left. now rewrite <- Hc.
  - intros [->|[[Hcap Hl]|[Hcap Hl]]]; [exact Hm| |].
    + destruct (lower_cases c) as [[_ Hc]|[Hn _]]; [|now contradiction Hn].
      apply code_inj. lia.
    + destruct (lower_cases m) as [[_ Hc]|[Hn _]]; [|now contradiction Hn].
      rewrite Hm in Hc. lia.
Qed.

Lemma toLowerCase_same (mid : string) :
  forall marker, JS.toLowerCase marker = marker ->
  JS.toLowerCase mid = marker <-> same_text mid marker.
Proof.
  induction mid as [|c mid IH]; intros [|m marker] Hm; cbn [JS.toLowerCase same_text];
    try (split; [discriminate|contradiction]); [tauto|].
  cbn [JS.toLowerCase] in Hm. injection Hm as Hm1 Hm2.
  rewrite <- (IH marker Hm2), <- (lower_same c m Hm1).
  split; [now intros [= -> ->]|now intros [-> ->]].
Qed.

(** The test of the source is the case-insensitive substring match, for a
    marker written in small letters. *)
Lemma includes_lower_same (s marker : string) :
  JS.toLowerCase marker = marker ->
  JS.includes (JS.toLowerCase s) marker = true <-> contains_ci s marker.
Proof.
  intros Hm. rewrite includes_app. split.
  - intros (pre & post & H).
    apply toLowerCase_split in H as (pre' & r & -> & _ & H).
    apply toLowerCase_split in H as (mid & post' & -> & Hmid & _).
    exists pre', mid, post'. split; [reflexivity|]. now apply toLowerCase_same.
  - intros (pre & mid & post & -> & Hmid).
    apply (toLowerCase_same mid marker Hm) in Hmid. rewrite <- Hmid.
    exists (JS.toLowerCase pre), (JS.toLowerCase post).
    now rewrite !toLowerCase_app.
Qed.

Lemma includes_lower_ci (s : string) :
  JS.includes (JS.toLowerCase s) "printify" = true <-> contains_ci s "printify".
Proof. now apply includes_lower_same. Qed.


(** ** The remote-catalog lookup *)

Lemma fetched_0 (tr : list event) (first : Z) : fetched tr first 0 = tr.
Proof. unfold fetched. cbn. apply app_nil_r. Qed.

Lemma fetched_S (tr : list event) (first : Z) (k : nat) :
  fetched tr first (S k) = fetched (tr ++ [GetPrintifyPage first]) (first + 1) k.
Proof.
  unfold fetched. cbn [seq map]. rewrite <- app_assoc. cbn [app].
  rewrite Z.add_0_r. do 2 f_equal.
  rewrite <- seq_shift, map_map. apply map_ext. intros i. f_equal. lia.
Qed.

Lemma fetched_last (tr : list event) (first : Z) (k : nat) :
  fetched tr first (S k) = fetched tr first k ++ [GetPrintifyPage (first + Z.of_nat k)].
Proof.
  unfold fetched. rewrite seq_S, map_app, app_assoc. reflexivity.
Qed.

Lemma scan_variants_app (sku : string) (vs1 vs2 : list pvariant) :
  scan_variants sku (vs1 ++ vs2) =
  match scan_variants sku vs1 with
  | Next => scan_variants sku vs2
  | c => c
  end.
Proof.
  induction vs1 as [|v vs1 IH]; cbn [scan_variants app]; [reflexivity|].
  destruct (trim_method _) as [s|]; [|reflexivity].
  destruct (String.eqb s ""); [exact IH|].
  destruct (String.eqb s sku); [reflexivity|exact IH].
Qed.

Lemma scan_products_flat (sku : string) (list_ : list pproduct) :
  scan_products sku list_ = scan_variants sku (variants_of list_).
Proof.
  induction list_ as [|[vs|] rest IH]; cbn [scan_products variants_of]; [reflexivity| |exact IH].
  rewrite scan_variants_app, IH. now destruct (scan_variants sku vs).
Qed.

Lemma scan_first_match (sku : string) (before after : list pvariant) (v : pvariant) :
  Forall (passed_over sku) before -> matches sku v ->
  scan_variants sku (before ++ v :: after) =
  Return (first_price [pv_price v; pv_retail_price v; pv_default_price v; pv_variant_price v]).
Proof.
  intros Hb [Hv Hne]. induction Hb as [|v' before (s & Hs & Hd) _ IH]; cbn [app scan_variants].
  - fold (ident v). rewrite Hv.
    apply String.eqb_neq in Hne. now rewrite Hne, String.eqb_refl.
  - fold (ident v'). rewrite Hs. destruct Hd as [->|Hd]; [exact IH|].
    apply String.eqb_neq in Hd. rewrite Hd. now destruct (String.eqb s "").
Qed.

Section Lookup.

Variable w : world.
Variable sku : string.

Lemma printify_loop_skips (n : nat) :
  forall (fuel : nat) (page : Z) (tr : list event),
  (forall k, (k < n)%nat ->
     full_without_match w sku (fetched tr page k) (page + Z.of_nat k)) ->
  printify_loop w sku (n + fuel) page tr =
  printify_loop w sku fuel (page + Z.of_nat n) (fetched tr page n).
Proof.
  induction n as [|n IH]; intros fuel page tr Hfull.
  - now rewrite fetched_0, Z.add_0_r.
  - destruct (Hfull 0%nat ltac:(lia)) as (l & Hl & Hlen & Hscan).
    rewrite fetched_0, Z.add_0_r in Hl.
    cbn [Nat.add printify_loop]. rewrite bind_unfold. cbn [axios_get_printify].
    rewrite Hl, Hscan.
    destruct (Z.eqb_spec (Z.of_nat (length l)) 0) as [H0|_]; [unfold perPage in Hlen; lia|].
    destruct (Z.ltb_spec (Z.of_nat (length l)) perPage) as [Hlt|_]; [lia|].
    rewrite IH.
    + rewrite fetched_S. f_equal. lia.
    + intros k Hk. specialize (Hfull (S k) ltac:(lia)).
      rewrite fetched_S in Hfull. replace (page + 1 + Z.of_nat k) with (page + Z.of_nat (S k)) by lia.
      exact Hfull.
Qed.

End Lookup.

(** C6.  The lookup stops at the first page that is empty, or short and
    without a match, or that holds a match: after [n] full pages without a
    match it returns having requested pages [1 .. n+1] and no other, with [0]
    in the first two cases and, on a match, the first populated price field
    of the matching variant. *)
Theorem lookup_stops (cfg : env) (w : world) (sku : string) (n fuel : nat)
    (tr : list event) (list_ : list pproduct) :
  printify_unconfigured cfg = false ->
  (n < fuel)%nat ->
  (forall k, (k < n)%nat -> full_without_match w sku (fetched tr 1 k) (1 + Z.of_nat k)) ->
  printify_page w (fetched tr 1 n) (1 + Z.of_nat n) = RespList list_ ->
  (list_ = [] \/ (Z.of_nat (length list_) < perPage /\ scan_products sku list_ = Next) ->
   getPrintifyVariantCostBySku cfg w fuel sku tr = Some (n0, fetched tr 1 (S n))) /\
  (forall before v after,
     variants_of list_ = before ++ v :: after ->
     Forall (passed_over sku) before -> matches sku v ->
     getPrintifyVariantCostBySku cfg w fuel sku tr =
     Some (first_price [pv_price v; pv_retail_price v; pv_default_price v;
                        pv_variant_price v],
           fetched tr 1 (S n))).
Proof.
  intros Hcfg Hfuel Hfull Hlast.
  unfold getPrintifyVariantCostBySku. rewrite Hcfg.
  replace fuel with (n + S (fuel - S n))%nat by lia.
  rewrite (printify_loop_skips w sku n _ 1 tr Hfull).
  cbn [printify_loop]. rewrite bind_unfold. cbn [axios_get_printify].
  rewrite Hlast, <- fetched_last. split.
  - intros [->|[Hshort Hscan]]; [reflexivity|].
    rewrite Hscan.
    destruct (Z.of_nat (length list_) =? 0); [reflexivity|].
    destruct (Z.ltb_spec (Z.of_nat (length list_)) perPage); [reflexivity|lia].
  - intros before v after Hvs Hb Hv.
    rewrite scan_products_flat, Hvs, (scan_first_match sku before after v Hb Hv).
    destruct (Z.eqb_spec (Z.of_nat (length list_)) 0) as [H0|_]; [|reflexivity].
    destruct list_; [destruct before; discriminate|cbn in H0; lia].
Qed.

(** * The rounding policy and the price formula on binary64 *)

Section Ranges.

#[local] Open Scope Q_scope.

Lemma in_range_of (x : JS.number) (N : Z) :
  (0 <= N < 2 ^ 53)%Z ->
  valid x -> JS.le n0 x = true -> JS.le x (JS.of_Z N) = true ->
  finite x /\ 0 <= val x <= inject_Z N.
Proof.
  intros HN Hv H0 H1.
  destruct (of_Z_exact N ltac:(lia)) as (Vm & Fm & Em).
  assert (Hf : finite x).
  { destruct x as [s|[|]| |s m e]; try exact I; try discriminate.
    unfold JS.le, SFleb in H1. cbn [SFcompare] in H1.
    destruct (JS.of_Z N) as [?|[|]| |]; try contradiction; discriminate. }
  split; [exact Hf|].
  apply (le_val n0 x) in H0; [|reflexivity|assumption|exact I|assumption].
  apply (le_val x (JS.of_Z N)) in H1; try assumption.
  rewrite Em in H1. cbn [val n0 JS.zero] in H0. lra.
Qed.

Lemma other_modes (mode : string) :
  mode <> ".99" -> mode <> ".95" -> mode <> "whole" ->
  forall x, applyRounding mode x = roundToTwo x.
Proof.
  intros H99 H95 Hw x. unfold applyRounding.
  destruct (String.eqb mode "none" || String.eqb mode "")%bool; [reflexivity|].
  destruct (String.eqb_spec mode ".99"); [contradiction|].
  destruct (String.eqb_spec mode ".95"); [contradiction|].
  destruct (String.eqb_spec mode "whole"); [contradiction|reflexivity].
Qed.

End Ranges.

(** A catalog of one product with one variant. *)
Lemma single_variant (cfg : env) (w : world) (fuel : nat) (tbl : gmap string JS.number)
    (p : product) (v : variant) (c : counts) (tr : list event) :
  p_variants p = Some [v] ->
  process_products cfg w fuel tbl [p] c tr =
  process_variant cfg w fuel tbl (JS.toLowerCase (str_or (p_vendor p) "")) p v c tr.
Proof.
  intros Hv. cbn [process_products]. unfold process_product. rewrite Hv.
  cbn [default from_option id process_variants]. unfold mbind, M_bind, mret, M_ret.
  now destruct (process_variant _ _ _ _ _ _ _ _ _) as [[c' tr']|].
Qed.

(** C1, as amended.  For every cost from 0 to 1,000,000 the formula result
    [P = (cost + 0.30) / 0.961] inverts back to the cost within floating
    tolerance: the code's [|P * 0.961 - 0.30 - cost|] is at most [0.00000001].
    The returned price, which is [P] passed through the rounding policy,
    inverts back up to that policy only: [|price * 0.961 - 0.30 - cost|] is
    at most [0.005] in mode [none] (and in any mode that is none of [.99],
    [.95], [whole]), and at most [1] in the modes [.99], [.95] and
    [whole]. *)
Theorem inversion_up_to_rounding (mode : string) (cost : JS.number) :
  valid cost -> JS.le n0 cost = true -> JS.le cost max_cost = true ->
  JS.le (formula_gap cost) float_tolerance = true /\
  JS.le (inversion_gap mode cost) (rounding_slack mode) = true.
Proof.
  intros Hv H0 H1.
  destruct (in_range_of cost 1000000 ltac:(lia) Hv H0 H1) as (Hf & Hb).
  change (inject_Z 1000000) with 1000000%Q in Hb.
  split; [now apply formula_gap_small|].
  unfold inversion_gap, computePriceFromCost, rounding_slack.
  destruct (String.eqb_spec mode ".99") as [->|H99]; [now apply inversion_gap_99|].
  destruct (String.eqb_spec mode ".95") as [->|H95]; [now apply inversion_gap_95|].
  destruct (String.eqb_spec mode "whole") as [->|Hw]; [now apply inversion_gap_whole|].
  rewrite (other_modes mode H99 H95 Hw). now apply inversion_gap_none.
Qed.

Lemma inversion_up_to_rounding_witness :
  JS.le (formula_gap n4_00) float_tolerance = true /\
  JS.le (inversion_gap "none" n4_00) n0_005 = true.
Proof.
  apply (inversion_up_to_rounding "none" n4_00); vm_compute; reflexivity.
Defined.

(** C1 as stated fails: at cost 4.00 in mode [none] the price is 4.47, and
    [4.47 * 0.961 - 0.30] is off the cost by more than 0.004; in mode [.99]
    the price is 4.99, and [4.99 * 0.961 - 0.30] is off the cost by more than
    0.49. *)
Lemma inversion_exceeds_tolerance :
  computePriceFromCost "none" (JS.VNum n4_00) = n4_47 /\
  JS.le (inversion_gap "none" n4_00) n0_004 = false /\
  computePriceFromCost ".99" (JS.VNum n4_00) = n4_99 /\
  JS.le (inversion_gap ".99" n4_00) n0_49 = false.
Proof. repeat split; vm_compute; reflexivity. Qed.

(** C2, as amended.  With rounding mode [none], the feed [SKU123,4.00] and a
    bulk-feed-routed variant [SKU123] priced 4.00, the target price is 4.47;
    one update of the variant to 4.47 is sent and, when it succeeds, the pass
    returns one update, no skip and no error. *)
Theorem scenario_updates_to_4_47 (cfg : env) (w : world) (fuel : nat) (id : Z) :
  ROUND_MODE cfg = "none" ->
  shopify_put w [] id n4_47 = true ->
  computePriceFromCost (ROUND_MODE cfg) (JS.VNum n4_00) = n4_47 /\
  runPricingJob cfg w fuel scenario_feed (scenario_products id) =
  Some ({| updated := 1; skipped := 0; errors := 0 |}, [PutVariantPrice id n4_47]).
Proof.
  intros Hmode Hput.
  assert (Hprice : computePriceFromCost "none" (JS.VNum n4_00) = n4_47)
    by (vm_compute; reflexivity).
  rewrite Hmode. split; [exact Hprice|].
  unfold runPricingJob, scenario_products.
  rewrite (single_variant _ _ _ _ _ (scenario_variant id)) by reflexivity.
  unfold process_variant.
  change (trim_method (v_sku (scenario_variant id) || JS.VStr "")%js) with (Some "SKU123").
  match goal with
  | |- context [is_printify ?v ?p] =>
      replace (is_printify v p) with (Some false) by (vm_compute; reflexivity)
  end.
  replace (csv_cost (loadAliExpressCSV scenario_feed) "SKU123") with n4_00
    by (vm_compute; reflexivity).
  unfold price_variant.
  replace (no_cost n4_00) with false by (vm_compute; reflexivity).
  rewrite Hmode, Hprice.
  match goal with
  | |- context [JS.gt ?a ?b] => replace (JS.gt a b) with true by (vm_compute; reflexivity)
  end.
  rewrite bind_unfold. cbn [updateShopifyVariantPrice v_id scenario_variant].
  rewrite Hput. reflexivity.
Qed.

Lemma scenario_updates_to_4_47_witness :
  computePriceFromCost (ROUND_MODE env_default) (JS.VNum n4_00) = n4_47 /\
  runPricingJob env_default world_accepting 1 scenario_feed (scenario_products 7) =
  Some ({| updated := 1; skipped := 0; errors := 0 |}, [PutVariantPrice 7 n4_47]).
Proof.
  apply (scenario_updates_to_4_47 env_default world_accepting 1 7); reflexivity.
Defined.

(** C2 as stated fails: in the scenario no update to 4.48 is sent. *)
Lemma scenario_not_4_48 :
  computePriceFromCost "none" (JS.VNum n4_00) <> n4_48 /\
  ~ exists c, runPricingJob env_default world_accepting 1 scenario_feed (scenario_products 7) =
              Some (c, [PutVariantPrice 7 n4_48]).
Proof.
  split.
  - vm_compute. discriminate.
  - intros [c H]. vm_compute in H. discriminate.
Qed.

(** C7, as amended.  For every rounding mode and every price from 0 to
    1,000,000,000, applying the rounding policy twice gives the result of
    applying it once. *)
Theorem rounding_idempotent_in_range (mode : string) (x : JS.number) :
  valid x -> JS.le n0 x = true -> JS.le x max_amount = true ->
  applyRounding mode (applyRounding mode x) = applyRounding mode x.
Proof.
  intros Hv H0 H1.
  destruct (in_range_of x 1000000000 ltac:(lia) Hv H0 H1) as (Hf & Hb).
  change (inject_Z 1000000000) with 1000000000%Q in Hb.
  destruct (String.eqb_spec mode ".99") as [->|H99]; [now apply mode_99_idempotent|].
  destruct (String.eqb_spec mode ".95") as [->|H95]; [now apply mode_95_idempotent|].
  destruct (String.eqb_spec mode "whole") as [->|Hw]; [now apply mode_whole_idempotent|].
  rewrite !(other_modes mode H99 H95 Hw).
  apply roundToTwo_idempotent; try assumption. lra.
Qed.

Lemma rounding_idempotent_in_range_witness :
  applyRounding ".99" (applyRounding ".99" n7_20) = applyRounding ".99" n7_20.
Proof.
  apply (rounding_idempotent_in_range ".99" n7_20); vm_compute; reflexivity.
Defined.

(** C7 as stated fails far above that range: rounding 35215096703674.875 in
    mode [none] gives 35215096703674.88, and rounding that gives
    35215096703674.89. *)
Lemma rounding_not_idempotent_huge :
  valid huge_a /\
  JS.eq (applyRounding "none" (applyRounding "none" huge_a)) (applyRounding "none" huge_a) = false.
Proof. split; vm_compute; reflexivity. Qed.

(** C10, as amended.  In mode [.95], for every price from 0 to
    1,000,000,000 the lower candidate is at least as close as the higher
    one, so it is the one chosen: the result is [roundToTwo] of
    [floor(price) + 0.95], that is the amount of [100 * floor(price) + 95]
    cents. *)
Theorem mode_95_lower_candidate (x : JS.number) :
  valid x -> JS.le n0 x = true -> JS.le x max_amount = true ->
  let whole := JS.Math_floor x in
  let candidate1 := (whole + n0_95)%js in
  let candidate2 := (whole + n1_95)%js in
  (JS.Math_abs (candidate1 - x) <= JS.Math_abs (candidate2 - x))%js = true /\
  applyRounding ".95" x = roundToTwo candidate1 /\
  exists k : Z,
    (inject_Z k <= val x < inject_Z k + 1)%Q /\
    applyRounding ".95" x = cents (100 * k + 95).
Proof.
  intros Hv H0 H1.
  destruct (in_range_of x 1000000000 ltac:(lia) Hv H0 H1) as (Hf & Hb).
  change (inject_Z 1000000000) with 1000000000%Q in Hb.
  destruct (mode_95_cents x Hv Hf ltac:(lra)) as (k & Hk & Hlo & Hhi & Hsel & Hr & Hc).
  cbn zeta in *. split; [exact Hsel|]. split; [exact Hr|].
  exists k. split; [split; assumption|exact Hc].
Qed.

Lemma mode_95_lower_candidate_witness :
  (JS.Math_abs (JS.Math_floor n7_20 + n0_95 - n7_20) <=
   JS.Math_abs (JS.Math_floor n7_20 + n1_95 - n7_20))%js = true /\
  applyRounding ".95" n7_20 = roundToTwo (JS.Math_floor n7_20 + n0_95)%js /\
  exists k : Z,
    (inject_Z k <= val n7_20 < inject_Z k + 1)%Q /\
    applyRounding ".95" n7_20 = cents (100 * k + 95).
Proof.
  apply (mode_95_lower_candidate n7_20); vm_compute; reflexivity.
Defined.

(** C10 as stated fails far above that range: at 35187221588663.74 the
    result is 35187221588663.96, which is neither [floor(price) + 0.95] as the
    code computes it nor the amount of [100 * floor(price) + 95] cents. *)
Lemma mode_95_not_floor_plus_95_huge :
  valid huge_b /\ JS.Math_floor huge_b = JS.of_Z 35187221588663 /\
  JS.eq (applyRounding ".95" huge_b) (JS.Math_floor huge_b + n0_95)%js = false /\
  JS.eq (applyRounding ".95" huge_b) (cents (100 * 35187221588663 + 95)) = false.
Proof. repeat split; vm_compute; reflexivity. Qed.

(** * Instances of the pass-level theorems *)

Lemma no_cost_is_skipped_witness :
  price_variant env_default world_accepting variant_tee JS.zero counts_zero [] =
  Some (incr_skipped counts_zero, []).
Proof.
  apply (no_cost_is_skipped env_default world_accepting variant_tee JS.zero counts_zero []).
  left. exists false. reflexivity.
Defined.

Lemma counters_partition_witness :
  (forall c tr,
     runPricingJob env_default world_accepting 1 scenario_feed (scenario_products 7) =
     Some (c, tr) ->
     (updated c + skipped c + errors c = variant_count (scenario_products 7))%nat) /\
  exists c tr,
    runPricingJob env_default world_accepting 1 scenario_feed (scenario_products 7) =
    Some (c, tr).
Proof.
  split.
  - apply (proj1 (counters_partition env_default world_accepting 1 scenario_feed
                    (scenario_products 7))).
  - apply (proj2 (counters_partition env_default world_accepting 1 scenario_feed
                    (scenario_products 7))).
    + lia.
    + intros tr page _. reflexivity.
Defined.




Lemma lookup_stops_witness :
  getPrintifyVariantCostBySku env_printify world_three_pages 3 "TEE-1" [] =
  Some (JS.lit 125 (-1), [GetPrintifyPage 1; GetPrintifyPage 2; GetPrintifyPage 3]).
Proof.
  refine (proj2 (lookup_stops env_printify world_three_pages "TEE-1" 2 3 [] page_match eq_refl
                   _ _ _) (repeat pv_other 49) pv_sought [] _ _ _).
  - lia.
  - intros k Hk. exists page_plain.
    destruct k as [|[|k]]; [repeat split; vm_compute; congruence..|lia].
  - reflexivity.
  - reflexivity.
  - apply Forall_forall. intros v Hin. apply list_elem_of_In, repeat_spec in Hin. subst v.
    exists "OTHER". split; [reflexivity|right; discriminate].
  - split; [reflexivity|discriminate].
Defined.
(** * Further properties of the pipeline *)

(** ** The bulk cost feed *)

Lemma row_cost_not_nan (r : gmap string string) : JS.isNaN (row_cost r) = false.
Proof.
  unfold row_cost. cbn zeta.
  destruct (JS.isNaN (JS.parseFloat_string (row_cost_text r))) eqn:E; [reflexivity|exact E].
Qed.

Lemma load_rows_from (rs : list (gmap string string)) :
  forall (map : gmap string JS.number) (k : string) (c : JS.number),
  fold_left load_row rs map !! k = Some c ->
  map !! k = Some c \/
  (k <> "" /\ k <> "__proto__" /\ exists r, In r rs /\ row_sku r = k /\ row_cost r = c).
Proof.
  induction rs as [|r rs IH]; intros map k c H; [now left|].
  cbn [fold_left] in H. apply IH in H as [H|(Hk & Hp & r' & Hin & Hr)].
  - rewrite load_row_spec in H.
    destruct (String.eqb_spec (row_sku r) "") as [_|Hne]; [now left|].
    destruct (String.eqb_spec (row_sku r) "__proto__") as [_|Hproto]; [now left|].
    destruct (String.eqb_spec (row_sku r) k) as [Hk|Hk].
    + subst k. rewrite lookup_insert_eq in H. injection H as <-.
      right. split; [exact Hne|]. split; [exact Hproto|].
      exists r. split; [now left|split; reflexivity].
    + rewrite lookup_insert_ne in H by exact Hk. now left.
  - right. split; [exact Hk|]. split; [exact Hp|]. exists r'. split; [now right|exact Hr].
Qed.

Lemma load_rows_keeps (rs : list (gmap string string)) :
  forall (map : gmap string JS.number) (k : string),
  is_Some (map !! k) -> is_Some (fold_left load_row rs map !! k).
Proof.
  induction rs as [|r rs IH]; intros map k H; [exact H|].
  cbn [fold_left]. apply IH. rewrite load_row_spec.
  destruct (String.eqb (row_sku r) ""); [exact H|].
  destruct (String.eqb (row_sku r) "__proto__"); [exact H|].
  destruct (String.eqb_spec (row_sku r) k) as [->|Hk].
  - rewrite lookup_insert_eq. now eexists.
  - now rewrite lookup_insert_ne.
Qed.

Lemma load_rows_has (rs : list (gmap string string)) :
  forall (map : gmap string JS.number) (r : gmap string string),
  In r rs -> row_sku r <> "" -> row_sku r <> "__proto__" ->
  is_Some (fold_left load_row rs map !! row_sku r).
Proof.
  induction rs as [|r' rs IH]; intros map r Hin Hne Hproto; [contradiction|].
  cbn [fold_left]. destruct Hin as [->|Hin]; [|now apply IH].
  apply load_rows_keeps. rewrite load_row_spec.
  apply String.eqb_neq in Hne, Hproto. rewrite Hne, Hproto, lookup_insert_eq. now eexists.
Qed.

Lemma feed_lookup_iff (rs : list (gmap string string)) (k : string) :
  is_Some (loadAliExpressCSV (CsvRecords rs) !! k) <->
  k <> "" /\ k <> "__proto__" /\ exists r, In r rs /\ row_sku r = k.
Proof.
  cbn [loadAliExpressCSV]. split.
  - intros [c H]. apply load_rows_from in H as [H|(Hk & Hp & r & Hin & Hr & _)].
    + now rewrite lookup_empty in H.
    + split; [exact Hk|]. split; [exact Hp|]. now exists r.
  - intros (Hk & Hp & r & Hin & <-). now apply load_rows_has.
Qed.

(** X1.  The entries the loader stores in the table: the table holds a SKU
    exactly when the SKU is neither empty nor [__proto__] and is the trimmed
    SKU of some row; the cost it holds for it is the cost of such a row, and
    is never NaN. *)
Theorem feed_table_entries (rs : list (gmap string string)) (k : string) :
  (is_Some (loadAliExpressCSV (CsvRecords rs) !! k) <->
   k <> "" /\ k <> "__proto__" /\ exists r, In r rs /\ row_sku r = k) /\
  (forall c, loadAliExpressCSV (CsvRecords rs) !! k = Some c ->
     JS.isNaN c = false /\ exists r, In r rs /\ row_sku r = k /\ row_cost r = c).
Proof.
  split; [apply feed_lookup_iff|].
  intros c H. cbn [loadAliExpressCSV] in H.
  apply load_rows_from in H as [H|(_ & _ & r & Hin & Hr & Hc)].
  - now rewrite lookup_empty in H.
  - split; [rewrite <- Hc; apply row_cost_not_nan|]. now exists r.
Qed.

Lemma size_list_to_set_length (l : list string) :
  (size (list_to_set l : gset string) <= length l)%nat.
Proof.
  induction l as [|x l IH]; cbn [list_to_set length].
  - now rewrite size_empty.
  - rewrite size_union_alt, size_singleton.
    pose proof (subseteq_size (list_to_set l ∖ {[x]}) (list_to_set l : gset string)
                  (subseteq_difference_l _ _ _ (reflexivity _))) as Hs.
    lia.
Qed.

Lemma feed_dom (rs : list (gmap string string)) :
  dom (loadAliExpressCSV (CsvRecords rs)) =
  (list_to_set (filter (fun k => k <> "" /\ k <> "__proto__") (row_sku <$> rs)) : gset string).
Proof.
  apply set_eq. intros k.
  rewrite elem_of_dom, feed_lookup_iff, elem_of_list_to_set, list_elem_of_filter,
    list_elem_of_fmap.
  split.
  - intros (Hk & Hp & r & Hin & Hr). split; [now split|]. exists r.
    split; [now symmetry|now apply list_elem_of_In].
  - intros ((Hk & Hp) & r & Hr & Hin). split; [exact Hk|]. split; [exact Hp|]. exists r.
    split; [now apply list_elem_of_In|now symmetry].
Qed.

(** X2.  The count the loader logs and the refresh route returns is the
    number of distinct trimmed SKUs of the feed, the empty one and
    [__proto__] left out, hence at most the number of rows; it is zero when
    the file is missing or unreadable. *)
Theorem loaded_count_distinct (rs : list (gmap string string)) :
  loaded_count (CsvRecords rs) =
  size (list_to_set (filter (fun k => k <> "" /\ k <> "__proto__") (row_sku <$> rs))
          : gset string) /\
  (loaded_count (CsvRecords rs) <= length rs)%nat /\
  loaded_count CsvMissing = 0%nat /\ loaded_count CsvUnreadable = 0%nat.
Proof.
  assert (H : loaded_count (CsvRecords rs) =
    size (list_to_set (filter (fun k => k <> "" /\ k <> "__proto__") (row_sku <$> rs))
            : gset string)).
  { unfold loaded_count. rewrite <- size_dom. now rewrite feed_dom. }
  split; [exact H|]. split; [|split; reflexivity].
  rewrite H.
  etransitivity; [apply size_list_to_set_length|].
  etransitivity; [apply length_filter|]. now rewrite length_fmap.
Qed.

(** ** The remote-catalog lookup *)

Lemma first_price_not_nan (possible : list JS.value) : JS.isNaN (first_price possible) = false.
Proof.
  induction possible as [|pval rest IH]; cbn [first_price]; [reflexivity|].
  destruct (JS.truthy pval); cbn [andb]; [|exact IH].
  destruct (JS.isNaN (JS.parseFloat pval)) eqn:E; cbn [negb]; [exact IH|exact E].
Qed.

Lemma scan_variants_not_nan (sku : string) (vs : list pvariant) (c : JS.number) :
  scan_variants sku vs = Return c -> JS.isNaN c = false.
Proof.
  induction vs as [|v vs IH]; cbn [scan_variants]; [discriminate|].
  destruct (trim_method _) as [s|]; [|discriminate].
  destruct (String.eqb s ""); [exact IH|].
  destruct (String.eqb s sku); [|exact IH].
  intros [= Hc]. rewrite <- Hc.
  exact (first_price_not_nan [pv_price v; pv_retail_price v; pv_default_price v;
                              pv_variant_price v]).
Qed.

Lemma scan_products_not_nan (sku : string) (list_ : list pproduct) (c : JS.number) :
  scan_products sku list_ = Return c -> JS.isNaN c = false.
Proof.
  rewrite scan_products_flat. apply scan_variants_not_nan.
Qed.

Lemma fetched_1 (tr : list event) (page : Z) : fetched tr page 1 = tr ++ [GetPrintifyPage page].
Proof. now rewrite fetched_S, fetched_0. Qed.

Lemma printify_loop_trace (w : world) (sku : string) (fuel : nat) :
  forall (page : Z) (tr : list event) (c : JS.number) (tr' : list event),
  printify_loop w sku fuel page tr = Some (c, tr') ->
  JS.isNaN c = false /\ exists k, (1 <= k <= fuel)%nat /\ tr' = fetched tr page k.
Proof.
  induction fuel as [|fuel IH]; intros page tr c tr'; [discriminate|].
  cbn [printify_loop]. rewrite bind_unfold. cbn [axios_get_printify].
  assert (Hstop : Some (n0, tr ++ [GetPrintifyPage page]) = Some (c, tr') ->
                  JS.isNaN c = false /\
                  exists k, (1 <= k <= S fuel)%nat /\ tr' = fetched tr page k).
  { intros [= <- <-]. split; [reflexivity|]. exists 1%nat. split; [lia|]. now rewrite fetched_1. }
  destruct (printify_page w tr page) as [| |l]; try exact Hstop.
  destruct (Z.of_nat (length l) =? 0); [exact Hstop|].
  destruct (scan_products sku l) as [c0| |] eqn:Hscan; try exact Hstop.
  - intros [= <- <-]. split; [exact (scan_products_not_nan _ _ _ Hscan)|].
    exists 1%nat. split; [lia|]. now rewrite fetched_1.
  - destruct (Z.of_nat (length l) <? perPage); [exact Hstop|].
    intros H. apply IH in H as (Hc & k & Hk & ->). split; [exact Hc|].
    exists (S k). split; [lia|]. now rewrite fetched_S.
Qed.

Lemma puts_app (t1 t2 : list event) : puts (t1 ++ t2) = puts t1 ++ puts t2.
Proof.
  induction t1 as [|[page|id price] t1 IH]; cbn [app puts]; [reflexivity|exact IH|].
  now rewrite IH.
Qed.

Lemma puts_gets (f : nat -> Z) (l : list nat) :
  puts (map (fun i => GetPrintifyPage (f i)) l) = [].
Proof. induction l as [|i l IH]; cbn [map puts]; [reflexivity|exact IH]. Qed.

Lemma puts_fetched (tr : list event) (page : Z) (k : nat) : puts (fetched tr page k) = puts tr.
Proof.
  unfold fetched. rewrite puts_app.
  rewrite (puts_gets (fun i => page + Z.of_nat i)). apply app_nil_r.
Qed.

Lemma lookup_trace (cfg : env) (w : world) (fuel : nat) (sku : string)
    (tr : list event) (c : JS.number) (tr' : list event) :
  getPrintifyVariantCostBySku cfg w fuel sku tr = Some (c, tr') ->
  JS.isNaN c = false /\ puts tr' = puts tr /\
  exists k, (k <= fuel)%nat /\ tr' = fetched tr 1 k.
Proof.
  unfold getPrintifyVariantCostBySku.
  destruct (printify_unconfigured cfg).
  - intros [= <- <-]. split; [reflexivity|]. split; [reflexivity|].
    exists 0%nat. split; [lia|]. now rewrite fetched_0.
  - intros H. apply printify_loop_trace in H as (Hc & k & Hk & ->).
    split; [exact Hc|]. split; [apply puts_fetched|]. exists k. split; [lia|reflexivity].
Qed.

(** X3.  Whenever the lookup returns, its result is not NaN, and what it
    added to the trace is a run of page requests, pages 1, 2, ... in order:
    it sends no update. *)
Theorem lookup_requests_pages_in_order (cfg : env) (w : world) (fuel : nat) (sku : string)
    (tr : list event) (c : JS.number) (tr' : list event) :
  getPrintifyVariantCostBySku cfg w fuel sku tr = Some (c, tr') ->
  JS.isNaN c = false /\ puts tr' = puts tr /\
  exists k, (k <= fuel)%nat /\ tr' = fetched tr 1 k.
Proof. exact (lookup_trace cfg w fuel sku tr c tr'). Qed.

Lemma scan_throws (sku : string) (before after : list pvariant) (v : pvariant) :
  Forall (passed_over sku) before -> ident v = None ->
  scan_variants sku (before ++ v :: after) = Throw.
Proof.
  intros Hb Hv. induction Hb as [|v' before (s & Hs & Hd) _ IH]; cbn [app scan_variants].
  - fold (ident v). now rewrite Hv.
  - fold (ident v'). rewrite Hs. destruct Hd as [->|Hd]; [exact IH|].
    apply String.eqb_neq in Hd. rewrite Hd. now destruct (String.eqb s "").
Qed.

(** X4.  The lookup is best effort: after [n] full pages without a match,
    when the request for page [n+1] fails, or its answer is not an array, or
    a variant of the page whose SKU is neither a string nor falsy is met
    before any match, the lookup returns [0] having requested pages
    [1 .. n+1]; in the last case a match further down the page is not
    seen. *)
Theorem lookup_gives_up (cfg : env) (w : world) (sku : string) (n fuel : nat)
    (tr : list event) :
  printify_unconfigured cfg = false ->
  (n < fuel)%nat ->
  (forall k, (k < n)%nat -> full_without_match w sku (fetched tr 1 k) (1 + Z.of_nat k)) ->
  printify_page w (fetched tr 1 n) (1 + Z.of_nat n) = RespFailed \/
  printify_page w (fetched tr 1 n) (1 + Z.of_nat n) = RespNotArray \/
  (exists list_ before v after,
     printify_page w (fetched tr 1 n) (1 + Z.of_nat n) = RespList list_ /\
     variants_of list_ = before ++ v :: after /\
     Forall (passed_over sku) before /\ ident v = None) ->
  getPrintifyVariantCostBySku cfg w fuel sku tr = Some (n0, fetched tr 1 (S n)).
Proof.
  intros Hcfg Hfuel Hfull Hlast.
  unfold getPrintifyVariantCostBySku. rewrite Hcfg.
  replace fuel with (n + S (fuel - S n))%nat by lia.
  rewrite (printify_loop_skips w sku n _ 1 tr Hfull).
  cbn [printify_loop]. rewrite bind_unfold. cbn [axios_get_printify].
  rewrite <- fetched_last.
  destruct Hlast as [->|[->|(l & before & v & after & -> & Hvs & Hb & Hv)]];
    [reflexivity|reflexivity|].
  rewrite scan_products_flat, Hvs, (scan_throws sku before after v Hb Hv).
  now destruct (Z.of_nat (length l) =? 0).
Qed.

(** ** Variants that are never updated *)

Lemma scan_variants_blank (vs : list pvariant) (c : JS.number) :
  scan_variants "" vs <> Return c.
Proof.
  induction vs as [|v vs IH]; cbn [scan_variants]; [discriminate|].
  destruct (trim_method _) as [s|]; [|discriminate].
  destruct (String.eqb s ""); exact IH.
Qed.

Lemma printify_loop_blank (w : world) (fuel : nat) :
  forall (page : Z) (tr : list event) (c : JS.number) (tr' : list event),
  printify_loop w "" fuel page tr = Some (c, tr') -> c = n0.
Proof.
  induction fuel as [|fuel IH]; intros page tr c tr'; [discriminate|].
  cbn [printify_loop]. rewrite bind_unfold. cbn [axios_get_printify].
  destruct (printify_page w tr page) as [| |l]; try (now intros [= <- _]).
  destruct (Z.of_nat (length l) =? 0); [now intros [= <- _]|].
  rewrite scan_products_flat.
  destruct (scan_variants "" (variants_of l)) as [c0| |] eqn:Hscan.
  - now apply scan_variants_blank in Hscan.
  - now intros [= <- _].
  - destruct (Z.of_nat (length l) <? perPage); [now intros [= <- _]|]. apply IH.
Qed.

Lemma feed_no_blank (f : csv_file) : csv_cost (loadAliExpressCSV f) "" = n0.
Proof.
  unfold csv_cost.
  destruct (loadAliExpressCSV f !! "") as [c|] eqn:E; [|reflexivity].
  destruct f as [| |rs]; try (cbn in E; now rewrite lookup_empty in E).
  assert (H : is_Some (loadAliExpressCSV (CsvRecords rs) !! "")) by (exists c; exact E).
  apply feed_lookup_iff in H as [H _]. now contradiction H.
Qed.

(** X5.  A variant whose SKU is missing or blank is never sent an update:
    whichever way it is routed, the pass leaves [updated] and the update
    requests of the trace as they were.  It is dealt with whenever the
    remote catalog ends. *)
Theorem blank_sku_never_updated (cfg : env) (w : world) (fuel : nat) (f : csv_file)
    (vendor : string) (p : product) (v : variant) (c : counts) (tr : list event) :
  trim_method (v_sku v || JS.VStr "")%js = Some "" ->
  (forall c' tr',
     process_variant cfg w fuel (loadAliExpressCSV f) vendor p v c tr = Some (c', tr') ->
     updated c' = updated c /\ puts tr' = puts tr) /\
  ((0 < fuel)%nat -> catalog_ends w fuel ->
   exists c' tr',
     process_variant cfg w fuel (loadAliExpressCSV f) vendor p v c tr = Some (c', tr')).
Proof.
  intros Hsku. split.
  - intros c' tr'. unfold process_variant. rewrite Hsku.
    destruct (is_printify vendor p) as [[|]|].
    + rewrite bind_unfold.
      destruct (getPrintifyVariantCostBySku cfg w fuel "" tr) as [[cost tr1]|] eqn:E;
        [|discriminate].
      assert (cost = n0) as ->.
      { unfold getPrintifyVariantCostBySku in E.
        destruct (printify_unconfigured cfg); [now injection E as <- _|].
        now apply printify_loop_blank in E. }
      apply lookup_trace in E as (_ & E & _). intros [= <- <-]. now split.
    + rewrite feed_no_blank. now intros [= <- <-].
    + now intros [= <- <-].
  - intros Hpos Hend.
    destruct (process_variant_counts cfg w fuel (loadAliExpressCSV f) vendor p v c tr Hpos Hend)
      as (c' & tr' & H & _).
    now exists c', tr'.
Qed.

(** X6.  A variant routed to the bulk feed whose SKU no row of the feed
    carries, or whose feed is missing or unreadable, is counted as skipped,
    and nothing is requested for it. *)
Theorem unknown_sku_is_skipped (cfg : env) (w : world) (fuel : nat) (f : csv_file)
    (vendor : string) (p : product) (v : variant) (sku : string) (c : counts)
    (tr : list event) :
  trim_method (v_sku v || JS.VStr "")%js = Some sku ->
  is_printify vendor p = Some false ->
  (forall rs, f = CsvRecords rs -> Forall (fun r => row_sku r <> sku) rs) ->
  process_variant cfg w fuel (loadAliExpressCSV f) vendor p v c tr =
  Some (incr_skipped c, tr).
Proof.
  intros Hsku Hroute Hrows. unfold process_variant. rewrite Hsku, Hroute.
  assert (Hnone : loadAliExpressCSV f !! sku = None).
  { destruct f as [| |rs]; try apply lookup_empty.
    destruct (loadAliExpressCSV (CsvRecords rs) !! sku) as [c0|] eqn:E; [|reflexivity].
    assert (H : is_Some (loadAliExpressCSV (CsvRecords rs) !! sku)) by (exists c0; exact E).
    apply feed_lookup_iff in H as (_ & _ & r & Hin & Hr).
    specialize (Hrows rs eq_refl). rewrite Forall_forall in Hrows.
    apply list_elem_of_In in Hin. now apply Hrows in Hin. }
  unfold csv_cost. rewrite Hnone. reflexivity.
Qed.

(** X7.  A variant routed to the bulk feed is counted as skipped, with
    nothing requested, when the last feed row for its SKU has a cost that
    does not parse or that is zero or negative. *)
Theorem unusable_feed_cost_is_skipped (cfg : env) (w : world) (fuel : nat)
    (rs1 rs2 : list (gmap string string)) (r : gmap string string)
    (vendor : string) (p : product) (v : variant) (c : counts) (tr : list event) :
  trim_method (v_sku v || JS.VStr "")%js = Some (row_sku r) ->
  is_printify vendor p = Some false ->
  row_sku r <> "" -> Forall (fun r' => row_sku r' <> row_sku r) rs2 ->
  JS.parseFloat_string (row_cost_text r) = JS.NaN \/
  JS.le (JS.parseFloat_string (row_cost_text r)) n0 = true ->
  process_variant cfg w fuel (loadAliExpressCSV (CsvRecords (rs1 ++ r :: rs2))) vendor p v c tr =
  Some (incr_skipped c, tr).
Proof.
  intros Hsku Hroute Hne Hlater Hcost. unfold process_variant. rewrite Hsku, Hroute.
  assert (Hno : no_cost (csv_cost (loadAliExpressCSV (CsvRecords (rs1 ++ r :: rs2)))
                                  (row_sku r)) = true).
  { unfold csv_cost.
    destruct (String.eqb_spec (row_sku r) "__proto__") as [Hp|Hp].
    - destruct (_ !! row_sku r) as [c0|] eqn:E; [|reflexivity].
      assert (H : is_Some (loadAliExpressCSV (CsvRecords (rs1 ++ r :: rs2)) !! row_sku r))
        by (exists c0; exact E).
      apply feed_lookup_iff in H as (_ & H & _). now contradiction H.
    - rewrite (load_rows_last rs1 rs2 r Hne Hp Hlater).
      unfold row_cost. cbn zeta. destruct Hcost as [->|Hle]; [reflexivity|].
      destruct (JS.isNaN _); [reflexivity|].
      destruct (JS.num_truthy _); [now apply le_zero_no_cost|reflexivity]. }
  unfold price_variant. now rewrite Hno.
Qed.

(** X8.  Without a token or a shop id for the remote catalog, a variant
    routed to the remote lookup is counted as skipped and nothing is
    requested for it. *)
Theorem unconfigured_lookup_skips (cfg : env) (w : world) (fuel : nat)
    (tbl : gmap string JS.number) (vendor : string) (p : product) (v : variant)
    (sku : string) (c : counts) (tr : list event) :
  printify_unconfigured cfg = true ->
  trim_method (v_sku v || JS.VStr "")%js = Some sku ->
  is_printify vendor p = Some true ->
  getPrintifyVariantCostBySku cfg w fuel sku tr = Some (n0, tr) /\
  process_variant cfg w fuel tbl vendor p v c tr = Some (incr_skipped c, tr).
Proof.
  intros Hcfg Hsku Hroute.
  assert (H : getPrintifyVariantCostBySku cfg w fuel sku tr = Some (n0, tr)).
  { unfold getPrintifyVariantCostBySku. now rewrite Hcfg. }
  split; [exact H|].
  unfold process_variant. rewrite Hsku, Hroute, bind_unfold, H. reflexivity.
Qed.

(** X9.  A variant whose current price does not read as a number is counted
    as skipped and is sent no update, whatever its cost: the comparison of
    line 194 is false on NaN. *)
Theorem unreadable_price_is_skipped (cfg : env) (w : world) (v : variant)
    (supplierCost : JS.number) (c : counts) (tr : list event) :
  JS.parseFloat (v_price v || JS.VStr "0")%js = JS.NaN ->
  price_variant cfg w v supplierCost c tr = Some (incr_skipped c, tr).
Proof.
  intros Hnan. unfold price_variant. rewrite Hnan.
  destruct (no_cost supplierCost); reflexivity.
Qed.

(** X10.  When the vendor lacks the marker, the title decides: a title that
    contains it, letter case ignored, routes the variant to the remote
    lookup; a title that is neither a string nor falsy makes the variant an
    error, with nothing requested. *)
Theorem title_routing (cfg : env) (w : world) (fuel : nat) (tbl : gmap string JS.number)
    (p : product) (v : variant) (sku : string) (c : counts) (tr : list event) :
  trim_method (v_sku v || JS.VStr "")%js = Some sku ->
  let vendor := str_or (p_vendor p) "" in
  ~ contains_ci vendor "printify" ->
  (forall title, (p_title p || JS.VStr "")%js = JS.VStr title ->
   contains_ci title "printify" ->
   process_variant cfg w fuel tbl (JS.toLowerCase vendor) p v c tr =
   (supplierCost ← getPrintifyVariantCostBySku cfg w fuel sku;
    price_variant cfg w v supplierCost c) tr) /\
  (JS.truthy (p_title p) = true -> (forall title, p_title p <> JS.VStr title) ->
   process_variant cfg w fuel tbl (JS.toLowerCase vendor) p v c tr =
   Some (incr_errors c, tr)).
Proof.
  intros Hsku vendor Hv. unfold process_variant, is_printify. rewrite Hsku.
  rewrite <- includes_lower_ci in Hv. apply not_true_is_false in Hv. rewrite Hv.
  split.
  - intros title Ht Hc. apply includes_lower_ci in Hc.
    rewrite Ht. cbn [toLowerCase_method]. now rewrite Hc.
  - intros Ht Hns. unfold JS.or. rewrite Ht.
    destruct (p_title p) as [| | | |s]; try reflexivity. now contradiction (Hns s).
Qed.

(** X11.  A variant whose SKU is neither a string nor falsy (a number, say)
    is counted as an error, and nothing is requested for it. *)
Theorem non_string_sku_is_error (cfg : env) (w : world) (fuel : nat)
    (tbl : gmap string JS.number) (vendor : string) (p : product) (v : variant)
    (c : counts) (tr : list event) :
  JS.truthy (v_sku v) = true -> (forall s, v_sku v <> JS.VStr s) ->
  process_variant cfg w fuel tbl vendor p v c tr = Some (incr_errors c, tr).
Proof.
  intros Ht Hns. unfold process_variant, JS.or. rewrite Ht.
  destruct (v_sku v) as [| | | |s]; try reflexivity. now contradiction (Hns s).
Qed.

(** ** What a pass sends *)

Lemma accepted_app (w : world) (t1 : list event) :
  forall (before t2 : list event),
  accepted w before (t1 ++ t2) = (accepted w before t1 + accepted w (before ++ t1) t2)%nat.
Proof.
  induction t1 as [|e t1 IH]; intros before t2; cbn [app accepted].
  - now rewrite app_nil_r.
  - rewrite IH, <- app_assoc. cbn [app]. lia.
Qed.

Lemma accepted_gets (w : world) (f : nat -> Z) (l : list nat) :
  forall before, accepted w before (map (fun i => GetPrintifyPage (f i)) l) = 0%nat.
Proof. induction l as [|i l IH]; intros before; cbn [map accepted]; [reflexivity|apply IH]. Qed.

Lemma pass_step_refl (cfg : env) (w : world) (c : counts) (tr : list event) :
  pass_step cfg w [] c tr c tr.
Proof.
  exists [], []. rewrite app_nil_r. cbn [puts accepted length].
  split; [reflexivity|]. split; [constructor|]. split; [constructor|]. repeat split; lia.
Qed.

Lemma pass_step_trans (cfg : env) (w : world) (vs1 vs2 : list variant)
    (c1 c2 c3 : counts) (t1 t2 t3 : list event) :
  pass_step cfg w vs1 c1 t1 c2 t2 -> pass_step cfg w vs2 c2 t2 c3 t3 ->
  pass_step cfg w (vs1 ++ vs2) c1 t1 c3 t3.
Proof.
  intros (e1 & s1 & -> & Hs1 & Hf1 & Hu1 & He1 & Hk1) (e2 & s2 & -> & Hs2 & Hf2 & Hu2 & He2 & Hk2).
  exists (e1 ++ e2), (s1 ++ s2). rewrite puts_app, accepted_app, length_app.
  split; [now rewrite app_assoc|].
  split; [now apply sublist_app|].
  split; [now apply Forall2_app|].
  repeat split; lia.
Qed.

Lemma pass_step_gets (cfg : env) (w : world) (c : counts) (tr : list event) (k : nat) :
  pass_step cfg w [] c tr c (fetched tr 1 k).
Proof.
  exists (map (fun i => GetPrintifyPage (1 + Z.of_nat i)) (seq 0 k)), [].
  rewrite (puts_gets (fun i => 1 + Z.of_nat i)), (accepted_gets w (fun i => 1 + Z.of_nat i)).
  cbn [length].
  split; [reflexivity|]. split; [constructor|]. split; [constructor|]. repeat split; lia.
Qed.

Lemma price_variant_step (cfg : env) (w : world) (v : variant) (cost : JS.number)
    (c : counts) (tr : list event) (c' : counts) (tr' : list event) :
  price_variant cfg w v cost c tr = Some (c', tr') -> pass_step cfg w [v] c tr c' tr'.
Proof.
  unfold price_variant.
  assert (Hskip : Some (incr_skipped c, tr) = Some (c', tr') -> pass_step cfg w [v] c tr c' tr').
  { intros [= <- <-]. exists [], []. rewrite app_nil_r. cbn.
    split; [reflexivity|]. split; [apply sublist_nil_l|]. split; [constructor|].
    repeat split; lia. }
  destruct (no_cost cost) eqn:Hcost; [exact Hskip|].
  destruct (JS.gt _ _); [|exact Hskip].
  rewrite bind_unfold. cbn [updateShopifyVariantPrice].
  set (price := computePriceFromCost (ROUND_MODE cfg) (JS.VNum cost)).
  intros [= <- <-].
  exists [PutVariantPrice (v_id v) price], [v].
  split; [reflexivity|]. split; [reflexivity|].
  split.
  { constructor; [|constructor]. split; [reflexivity|]. now exists cost. }
  cbn [accepted puts length].
  destruct (shopify_put w tr (v_id v) price); cbn; repeat split; lia.
Qed.

Lemma pass_step_skip_variant (cfg : env) (w : world) (v : variant)
    (c : counts) (tr : list event) (c' : counts) (tr' : list event) :
  pass_step cfg w [] c tr c' tr' -> pass_step cfg w [v] c tr c' tr'.
Proof.
  intros (e & s & H1 & H2 & H3). exists e, s. split; [exact H1|]. split; [|exact H3].
  apply sublist_nil_r in H2 as ->. apply sublist_nil_l.
Qed.

Lemma process_variant_step (cfg : env) (w : world) (fuel : nat) (tbl : gmap string JS.number)
    (vendor : string) (p : product) (v : variant) (c : counts) (tr : list event)
    (c' : counts) (tr' : list event) :
  process_variant cfg w fuel tbl vendor p v c tr = Some (c', tr') ->
  pass_step cfg w [v] c tr c' tr'.
Proof.
  unfold process_variant.
  assert (Herr : Some (incr_errors c, tr) = Some (c', tr') -> pass_step cfg w [v] c tr c' tr').
  { intros [= <- <-]. exists [], []. rewrite app_nil_r. cbn.
    split; [reflexivity|]. split; [apply sublist_nil_l|]. split; [constructor|].
    repeat split; lia. }
  destruct (trim_method _) as [sku|]; [|exact Herr].
  destruct (is_printify vendor p) as [[|]|]; [| |exact Herr].
  - rewrite bind_unfold.
    destruct (getPrintifyVariantCostBySku cfg w fuel sku tr) as [[cost tr1]|] eqn:E;
      [|discriminate].
    apply lookup_trace in E as (_ & _ & k & _ & ->).
    intros H. apply price_variant_step in H.
    exact (pass_step_trans cfg w [] [v] c c c' tr _ tr' (pass_step_gets cfg w c tr k) H).
  - apply price_variant_step.
Qed.

Lemma process_variants_step (cfg : env) (w : world) (fuel : nat) (tbl : gmap string JS.number)
    (vendor : string) (p : product) (vs : list variant) :
  forall (c : counts) (tr : list event) (c' : counts) (tr' : list event),
  process_variants cfg w fuel tbl vendor p vs c tr = Some (c', tr') ->
  pass_step cfg w vs c tr c' tr'.
Proof.
  induction vs as [|v vs IH]; intros c tr c' tr'.
  - intros [= <- <-]. apply pass_step_refl.
  - cbn [process_variants]. rewrite bind_unfold.
    destruct (process_variant cfg w fuel tbl vendor p v c tr) as [[c1 tr1]|] eqn:E1;
      [|discriminate].
    intros E2. apply process_variant_step in E1. apply IH in E2.
    exact (pass_step_trans cfg w [v] vs c c1 c' tr tr1 tr' E1 E2).
Qed.

Lemma process_products_step (cfg : env) (w : world) (fuel : nat) (tbl : gmap string JS.number)
    (products : list product) :
  forall (c : counts) (tr : list event) (c' : counts) (tr' : list event),
  process_products cfg w fuel tbl products c tr = Some (c', tr') ->
  pass_step cfg w (all_variants products) c tr c' tr'.
Proof.
  induction products as [|p ps IH]; intros c tr c' tr'.
  - intros [= <- <-]. apply pass_step_refl.
  - cbn [process_products all_variants]. rewrite bind_unfold. unfold process_product.
    destruct (process_variants _ _ _ _ _ _ _ _ _) as [[c1 tr1]|] eqn:E1; [|discriminate].
    intros E2. apply process_variants_step in E1. apply IH in E2.
    exact (pass_step_trans cfg w _ _ c c1 c' tr tr1 tr' E1 E2).
Qed.

(** X12.  In the outcome of a pass, [updated] is exactly the number of
    update requests the storefront accepted, and every update request it
    refused is counted in [errors]: the requests sent are at most
    [updated + errors]. *)
Theorem updated_counts_accepted (cfg : env) (w : world) (fuel : nat) (f : csv_file)
    (products : list product) (c : counts) (tr : list event) :
  runPricingJob cfg w fuel f products = Some (c, tr) ->
  updated c = accepted w [] tr /\
  (length (puts tr) <= updated c + errors c)%nat.
Proof.
  unfold runPricingJob. intros H.
  apply process_products_step in H as (ext & sent & -> & _ & _ & Hu & He & _).
  cbn [app updated errors] in *. split; [exact Hu|lia].
Qed.

(** X13.  The update requests of a pass are for variants of the catalog,
    in catalog order and at most one per variant, and each carries a price
    computed from a cost that is neither zero, nor NaN, nor negative. *)
Theorem updates_follow_catalog (cfg : env) (w : world) (fuel : nat) (f : csv_file)
    (products : list product) (c : counts) (tr : list event) :
  runPricingJob cfg w fuel f products = Some (c, tr) ->
  exists sent, sublist sent (all_variants products) /\
               Forall2 (update_for cfg) sent (puts tr).
Proof.
  unfold runPricingJob. intros H.
  apply process_products_step in H as (ext & sent & -> & Hs & Hf & _).
  exists sent. split; [exact Hs|exact Hf].
Qed.

(** ** What the rounding policy returns *)

Section Amounts.

#[local] Open Scope Q_scope.

(** X14.  On prices from 0 to 1,000,000,000, [roundToTwo] returns an amount
    of whole cents [n], where [n] is the integer nearest to [100 x] up to
    a ten-thousandth of a cent. *)
Theorem roundToTwo_nearest_cent (x : JS.number) :
  valid x -> JS.le n0 x = true -> JS.le x max_amount = true ->
  exists n : Z,
    (0 <= n)%Z /\ roundToTwo x = cents n /\
    inject_Z n - (1 # 2) - (1 # 10000) <= 100 * val x /\
    100 * val x < inject_Z n + (1 # 2) + (1 # 10000).
Proof.
  intros Hv H0 H1.
  destruct (in_range_of x 1000000000 ltac:(lia) Hv H0 H1) as (Hf & Hb).
  change (inject_Z 1000000000) with 1000000000 in Hb.
  destruct (roundToTwo_cents_of x Hv Hf ltac:(lra)) as (n & Hn & Hr & Hlo & Hhi).
  exists n. split; [lia|]. split; [exact Hr|]. split; assumption.
Qed.

(** X15.  In mode [.99], on prices above 0 and up to 1,000,000,000, the
    result is the amount ending in [.99] just below the ceiling [k] of the
    price, [100 k - 1] cents: a price that is a whole number is lowered by
    one cent. *)
Theorem mode_99_below_ceiling (x : JS.number) :
  valid x -> JS.lt n0 x = true -> JS.le x max_amount = true ->
  exists k : Z,
    (1 <= k)%Z /\ inject_Z k - 1 < val x /\ val x <= inject_Z k /\
    applyRounding ".99" x = cents (100 * k - 1).
Proof.
  intros Hv H0 H1.
  assert (H0' : JS.le n0 x = true).
  { unfold JS.le, SFleb. unfold JS.lt, SFltb in H0.
    destruct (SFcompare n0 x) as [[| |]|]; try discriminate; reflexivity. }
  destruct (in_range_of x 1000000000 ltac:(lia) Hv H0' H1) as (Hf & Hb).
  change (inject_Z 1000000000) with 1000000000 in Hb.
  apply (lt_val n0 x) in H0; [|reflexivity|assumption|exact I|assumption].
  cbn [val n0 JS.zero] in H0.
  exact (mode_99_cents x Hv Hf ltac:(lra)).
Qed.

(** X16.  In mode [whole], on prices from 0 to 1,000,000,000, the result is
    the whole amount [k] nearest to the price, a tie going up:
    [k <= x + 1/2 < k + 1]. *)
Theorem mode_whole_nearest (x : JS.number) :
  valid x -> JS.le n0 x = true -> JS.le x max_amount = true ->
  exists k : Z,
    (0 <= k)%Z /\ inject_Z k <= val x + (1 # 2) /\ val x + (1 # 2) < inject_Z k + 1 /\
    applyRounding "whole" x = cents (100 * k).
Proof.
  intros Hv H0 H1.
  destruct (in_range_of x 1000000000 ltac:(lia) Hv H0 H1) as (Hf & Hb).
  change (inject_Z 1000000000) with 1000000000 in Hb.
  exact (mode_whole_cents x Hv Hf ltac:(lra)).
Qed.

(** The price computed from a cost is an amount of whole cents, in every
    mode. *)
Lemma price_is_cents (mode : string) (cost : JS.number) :
  valid cost -> finite cost -> 0 <= val cost <= 1000000 ->
  let P := ((JS.parseFloat (JS.VNum cost) + n0_30) / n0_961)%js in
  exists n : Z,
    (0 <= n <= 107374182300)%Z /\ computePriceFromCost mode (JS.VNum cost) = cents n /\
    (mode <> "whole" -> (31 <= n)%Z) /\
    (mode = "whole" -> exists k : Z, n = (100 * k)%Z /\
                       inject_Z k <= val P + (1 # 2) /\ val P + (1 # 2) < inject_Z k + 1).
Proof.
  intros Hv Hf Hb.
  destruct (formula_value cost Hv Hf Hb) as (VP & FP & BP & Hlo & Hhi). cbn zeta in *.
  unfold computePriceFromCost.
  set (P := ((JS.parseFloat (JS.VNum cost) + n0_30) / n0_961)%js) in *.
  destruct (String.eqb_spec mode ".99") as [->|H99].
  { destruct (mode_99_cents P VP FP ltac:(lra)) as (k & Hk & Hklo & Hkhi & ->).
    assert (Hk2 : (1 <= k <= 1040584)%Z).
    { apply Z_of_bounds; change (inject_Z 1) with 1;
        change (inject_Z 1040584) with 1040584; lra. }
    exists (100 * k - 1)%Z. split; [lia|]. split; [reflexivity|].
    split; [intros _; lia|discriminate]. }
  destruct (String.eqb_spec mode ".95") as [->|H95].
  { destruct (mode_95_cents P VP FP ltac:(lra)) as (k & Hk & Hklo & Hkhi & _ & _ & ->).
    assert (Hk2 : (0 <= k <= 1040584)%Z).
    { apply Z_of_bounds; change (inject_Z 0) with 0;
        change (inject_Z 1040584) with 1040584; lra. }
    exists (100 * k + 95)%Z. split; [lia|]. split; [reflexivity|].
    split; [intros _; lia|discriminate]. }
  destruct (String.eqb_spec mode "whole") as [->|Hw].
  { destruct (mode_whole_cents P VP FP ltac:(lra)) as (k & Hk & Hklo & Hkhi & ->).
    assert (Hk2 : (0 <= k <= 1040585)%Z).
    { apply Z_of_bounds; change (inject_Z 0) with 0;
        change (inject_Z 1040585) with 1040585; lra. }
    exists (100 * k)%Z. split; [lia|]. split; [reflexivity|].
    split; [intros H; now contradiction H|]. intros _. exists k. now repeat split. }
  rewrite (other_modes mode H99 H95 Hw).
  destruct (roundToTwo_cents_of P VP FP ltac:(lra)) as (n & Hn & -> & Hnlo & Hnhi).
  exists n. split; [exact Hn|]. split; [reflexivity|]. split; [|intros H; now contradiction Hw].
  intros _.
  assert (Hn' : inject_Z 0 <= inject_Z n <= inject_Z 107374182300)
    by (apply Q_of_bounds; exact Hn).
  change (inject_Z 0) with 0 in Hn'. change (inject_Z 107374182300) with 107374182300 in Hn'.
  apply (Z_of_bounds n 31 107374182300); change (inject_Z 31) with 31;
    change (inject_Z 107374182300) with 107374182300; lra.
Qed.

Lemma cost_in_range (cost : JS.number) :
  valid cost -> JS.le n0 cost = true -> JS.le cost max_cost = true ->
  finite cost /\ 0 <= val cost <= 1000000.
Proof.
  intros Hv H0 H1.
  destruct (in_range_of cost 1000000 ltac:(lia) Hv H0 H1) as (Hf & Hb).
  change (inject_Z 1000000) with 1000000 in Hb. now split.
Qed.

Lemma price_floor (mode : string) (cost : JS.number) :
  mode <> "whole" ->
  valid cost -> finite cost -> 0 <= val cost <= 1000000 ->
  exists n : Z, (31 <= n <= 107374182300)%Z /\
                computePriceFromCost mode (JS.VNum cost) = cents n /\
                JS.le n0_30 (cents n) = true.
Proof.
  intros Hmode Hv Hf Hb.
  destruct (price_is_cents mode cost Hv Hf Hb) as (n & Hn & Hp & H31 & _).
  specialize (H31 Hmode). exists n. split; [lia|]. split; [exact Hp|].
  destruct const_facts as (_ & _ & _ & (V30 & F30 & E30) & _).
  destruct (cents_val n ltac:(lia)) as (Vy & Fy & _ & Py & By).
  apply (le_val n0_30 (cents n) V30 Vy F30 Fy). rewrite E30.
  assert (31 <= inject_Z n) by (change 31 with (inject_Z 31); rewrite <- Zle_Qle; lia).
  lra.
Qed.

(** X17.  For every cost from 0 to 1,000,000 and every rounding mode other
    than [whole], the price computed from the cost is at least the fixed fee
    of [0.30]. *)
Theorem price_at_least_fee (mode : string) (cost : JS.number) :
  mode <> "whole" ->
  valid cost -> JS.le n0 cost = true -> JS.le cost max_cost = true ->
  JS.le n0_30 (computePriceFromCost mode (JS.VNum cost)) = true.
Proof.
  intros Hmode Hv H0 H1.
  destruct (cost_in_range cost Hv H0 H1) as (Hf & Hb).
  destruct (price_floor mode cost Hmode Hv Hf Hb) as (n & _ & -> & H). exact H.
Qed.

(** X18.  In mode [whole], every cost from 0 to [0.18] gives the price
    [0]. *)
Theorem mode_whole_prices_cheap_at_zero (cost : JS.number) :
  valid cost -> JS.le n0 cost = true -> JS.le cost n0_18 = true ->
  computePriceFromCost "whole" (JS.VNum cost) = JS.zero.
Proof.
  intros Hv H0 H1.
  assert (F18 : valid n0_18 /\ finite n0_18 /\ val n0_18 <= (18 # 100) + (1 # 1000000)).
  { repeat split; vm_compute; first [reflexivity|discriminate]. }
  destruct F18 as (V18 & F18 & E18).
  assert (Hf : finite cost).
  { destruct cost as [s|[|]| |s m e]; try exact I; try discriminate. }
  apply (le_val n0 cost) in H0; [|reflexivity|assumption|exact I|assumption].
  apply (le_val cost n0_18) in H1; try assumption.
  cbn [val n0 JS.zero] in H0.
  assert (Hb : 0 <= val cost <= 1000000) by lra.
  destruct (price_is_cents "whole" cost Hv Hf Hb) as (n & _ & -> & _ & Hw).
  destruct (Hw eq_refl) as (k & -> & Hklo & Hkhi).
  destruct (formula_value cost Hv Hf Hb) as (VP & FP & BP & Hlo & Hhi). cbn zeta in *.
  set (P := ((JS.parseFloat (JS.VNum cost) + n0_30) / n0_961)%js) in *.
  assert (k = 0%Z) as ->.
  { apply (int_between k 0 (val P + (1 # 2))); try assumption;
      change (inject_Z 0) with 0; lra. }
  vm_compute. reflexivity.
Qed.

End Amounts.

(** ** The price an update carries reads back as the price computed *)

Lemma digit_of_char (d : Z) : 0 <= d <= 9 -> JS.digit (digit_char d) = Some d.
Proof.
  intros H.
  assert (Hd : d = 0 \/ d = 1 \/ d = 2 \/ d = 3 \/ d = 4 \/ d = 5 \/ d = 6 \/ d = 7 \/
               d = 8 \/ d = 9) by lia.
  repeat (destruct Hd as [->|Hd]; [reflexivity|]). subst d. reflexivity.
Qed.

Lemma digit_range (c : ascii) (d : Z) : JS.digit c = Some d -> 48 <= JS.code c <= 57.
Proof.
  unfold JS.digit. cbn zeta.
  destruct (Z.leb_spec 48 (JS.code c)); destruct (Z.leb_spec (JS.code c) 57);
    cbn [andb]; try discriminate. intros _. lia.
Qed.

Lemma read_digits_stop (s : string) (acc cnt : Z) :
  match s with String c _ => JS.digit c = None | EmptyString => True end ->
  JS.read_digits s acc cnt = (acc, cnt, s).
Proof. destruct s as [|c r]; cbn [JS.read_digits]; [reflexivity|]. now intros ->. Qed.

Lemma decimal_digits_S (fuel : nat) (n : Z) (acc : string) :
  decimal_digits (S fuel) n acc =
  if n / 10 =? 0 then String (digit_char (n mod 10)) acc
  else decimal_digits fuel (n / 10) (String (digit_char (n mod 10)) acc).
Proof. reflexivity. Qed.

Lemma read_decimal_digits (rest : string) (fuel : nat) :
  forall (n : Z) (acc : string),
  0 <= n < 10 ^ Z.of_nat (S fuel) ->
  exists d, 1 <= d /\
    JS.read_digits (String.append (decimal_digits (S fuel) n acc) rest) 0 0 =
    JS.read_digits (String.append acc rest) n d.
Proof.
  induction fuel as [|fuel IH]; intros n acc Hn.
  - change (10 ^ Z.of_nat 1) with 10 in Hn.
    rewrite decimal_digits_S, (Z.div_small n 10) by lia. cbn [Z.eqb].
    rewrite (Z.mod_small n 10) by lia.
    exists 1. split; [lia|]. cbn [String.append JS.read_digits].
    rewrite (digit_of_char n) by lia. f_equal; lia.
  - rewrite decimal_digits_S.
    destruct (Z.eqb_spec (n / 10) 0) as [H0|H0].
    + assert (n < 10) by (apply Z.div_small_iff in H0; lia).
      rewrite (Z.mod_small n 10) by lia.
      exists 1. split; [lia|]. cbn [String.append JS.read_digits].
      rewrite (digit_of_char n) by lia. f_equal; lia.
    + assert (Hq : 0 <= n / 10 < 10 ^ Z.of_nat (S fuel)).
      { split; [apply Z.div_pos; lia|].
        apply Z.div_lt_upper_bound; [lia|].
        replace (Z.of_nat (S (S fuel))) with (Z.succ (Z.of_nat (S fuel))) in Hn by lia.
        rewrite Z.pow_succ_r in Hn by lia. lia. }
      destruct (IH (n / 10) (String (digit_char (n mod 10)) acc) Hq) as (d & Hd & ->).
      exists (d + 1). split; [lia|]. cbn [String.append JS.read_digits].
      rewrite (digit_of_char (n mod 10)) by (pose proof (Z.mod_pos_bound n 10); lia).
      f_equal. pose proof (Z.div_mod n 10 ltac:(lia)). lia.
Qed.

Lemma decimal_fuel (n : Z) : 0 <= n -> n < 10 ^ Z.of_nat (S (Z.to_nat (Z.log2 n))).
Proof.
  intros Hn.
  replace (Z.of_nat (S (Z.to_nat (Z.log2 n)))) with (Z.succ (Z.log2 n))
    by (pose proof (Z.log2_nonneg n); lia).
  destruct (Z.eq_dec n 0) as [->|Hne]; [reflexivity|].
  pose proof (Z.log2_spec n ltac:(lia)) as [_ Hlt].
  eapply Z.lt_le_trans; [exact Hlt|].
  apply Z.pow_le_mono_l. pose proof (Z.log2_nonneg n). lia.
Qed.

(** Reading a number written with two decimals. *)
Lemma read_two_decimals (n : Z) :
  0 <= n ->
  two_decimals n <> "" /\
  JS.parseFloat_string (two_decimals n) = JS.lit n (-2).
Proof.
  intros Hn. unfold two_decimals, decimal.
  set (tail := String "." (String (digit_char (n mod 100 / 10))
                             (String (digit_char (n mod 10)) EmptyString))).
  assert (Hq : 0 <= n / 100) by (apply Z.div_pos; lia).
  destruct (read_decimal_digits tail (Z.to_nat (Z.log2 (n / 100))) (n / 100) EmptyString
              (conj Hq (decimal_fuel (n / 100) Hq))) as (d & Hd & Hread).
  change (String.append EmptyString tail) with tail in Hread.
  rewrite (read_digits_stop tail) in Hread by reflexivity.
  set (s := String.append _ tail) in *.
  destruct s as [|c r] eqn:Es.
  { cbn [JS.read_digits] in Hread. injection Hread as _ Hread _. lia. }
  split; [discriminate|].
  destruct (JS.digit c) as [x|] eqn:Ec.
  2:{ cbn [JS.read_digits] in Hread. rewrite Ec in Hread. injection Hread as _ Hread _. lia. }
  pose proof (digit_range c x Ec) as Hc.
  assert (Hsp : JS.is_space c = false).
  { unfold JS.is_space. cbn zeta.
    destruct (Z.leb_spec 9 (JS.code c)); destruct (Z.leb_spec (JS.code c) 13);
      destruct (Z.eqb_spec (JS.code c) 32); destruct (Z.eqb_spec (JS.code c) 160);
      cbn [andb orb]; try reflexivity; lia. }
  unfold JS.parseFloat_string. cbn [JS.trimStart]. rewrite Hsp.
  destruct (Z.eqb_spec (JS.code c) 45) as [?|_]; [lia|].
  destruct (Z.eqb_spec (JS.code c) 43) as [?|_]; [lia|].
  unfold JS.read_unsigned.
  assert (Hinf : String.prefix "Infinity" (String c r) = false).
  { cbn [String.prefix]. destruct (Ascii.ascii_dec "I" c) as [<-|_]; [|reflexivity].
    change (JS.code "I") with 73 in Hc. lia. }
  rewrite Hinf, Hread. unfold tail.
  change (JS.code "." =? 46) with true. cbn iota.
  cbn [JS.read_digits].
  assert (H1 : 0 <= n mod 100 / 10 <= 9).
  { pose proof (Z.mod_pos_bound n 100 ltac:(lia)).
    split; [apply Z.div_pos; lia|]. apply Z.lt_succ_r. apply Z.div_lt_upper_bound; lia. }
  rewrite (digit_of_char _ H1).
  rewrite (digit_of_char (n mod 10)) by (pose proof (Z.mod_pos_bound n 10); lia).
  assert (Hm : 10 * (10 * (n / 100) + n mod 100 / 10) + n mod 10 = n).
  { pose proof (Z.div_mod n 100 ltac:(lia)).
    pose proof (Z.div_mod (n mod 100) 10 ltac:(lia)).
    assert (n mod 100 mod 10 = n mod 10).
    { replace 100 with (10 * 10) by reflexivity.
      rewrite Z.rem_mul_r by lia.
      rewrite Z.add_mod, Z.mul_comm, Z.mod_mul, Z.add_0_r, !Z.mod_mod by lia. reflexivity. }
    lia. }
  rewrite Hm.
  destruct (Z.eqb_spec d 0) as [?|_]; [lia|]. cbn [andb].
  reflexivity.
Qed.

Section Stored.

#[local] Open Scope Q_scope.

(** An amount of whole cents is written with those cents. *)
Lemma toFixed2_cents (n : Z) :
  (0 <= n <= 107374182500)%Z -> toFixed2 (cents n) = Some (two_decimals n).
Proof.
  intros Hn.
  destruct (Z.eq_dec n 0%Z) as [->|Hne]; [vm_compute; reflexivity|].
  destruct (cents_val n Hn) as (Vy & Fy & Sy & Py & Blo & Bhi).
  assert (Hn1 : 1 <= inject_Z n <= 107374182500).
  { change 1 with (inject_Z 1). change 107374182500 with (inject_Z 107374182500).
    apply Q_of_bounds. lia. }
  destruct (cents n) as [s|s| |s m e] eqn:Ec; try contradiction.
  { cbn [val] in Blo. lra. }
  cbn [sign_of] in Sy. subst s.
  assert (He : (e < 0)%Z).
  { apply (small_exponent false m e Vy). pow2_consts. lra. }
  unfold toFixed2.
  destruct (Z.leb_spec 0%Z e) as [?|_]; [lia|]. cbn [andb String.append].
  do 2 f_equal.
  destruct (shift_floor (200 * Zpos m + 2 ^ (- e))%Z (1 - e)%Z ltac:(lia)) as [Hlo Hhi].
  set (n' := Z.shiftr (200 * Zpos m + 2 ^ (- e))%Z (1 - e)%Z) in *.
  assert (Hv : inject_Z (200 * Zpos m + 2 ^ (- e))%Z * 2 ^ (- (1 - e)) ==
               100 * val (S754_finite false m e) + (1 # 2)).
  { rewrite inject_Z_plus, inject_Z_mult, pow2_inject by lia.
    replace (- (1 - e))%Z with (e + -1)%Z by lia. rewrite pow2_add.
    assert (H1 : 2 ^ (- e) * 2 ^ e == 1).
    { rewrite <- pow2_add. replace (- e + e)%Z with 0%Z by lia. reflexivity. }
    change (2 ^ (-1)) with (1 # 2). change (inject_Z 200) with 200.
    cbn [val JS.smant cond_Zopp].
    assert (H2 : (200 * inject_Z (Z.pos m) + 2 ^ (- e)) * (2 ^ e * (1 # 2)) ==
                 100 * (inject_Z (Z.pos m) * 2 ^ e) + (2 ^ (- e) * 2 ^ e) * (1 # 2)) by ring.
    rewrite H2, H1. ring. }
  rewrite Hv in Hlo, Hhi.
  apply (int_between n' n (100 * val (S754_finite false m e) + (1 # 2))); try assumption; lra.
Qed.

Lemma lit_cents (n : Z) :
  (0 <= n <= 107374182300)%Z ->
  valid (JS.lit n (-2)) /\ finite (JS.lit n (-2)) /\
  inject_Z n - (1 # 40000) <= 100 * val (JS.lit n (-2)) <= inject_Z n + (1 # 40000).
Proof.
  intros Hn. destruct n as [|p|p]; [| |lia].
  - repeat split; vm_compute; first [reflexivity|discriminate].
  - unfold JS.lit. cbn [Z.leb Z.compare Z.opp].
    change (Z.to_pos (10 ^ (- (-2)))%Z) with 100%positive.
    assert (Hp : 1 <= inject_Z (Zpos p) <= 107374182300).
    { change 1 with (inject_Z 1). change 107374182300 with (inject_Z 107374182300).
      apply Q_of_bounds. lia. }
    assert (Hq : rounds_to (JS.div (S754_finite false p 0) (S754_finite false 100 0))
                   (val (S754_finite false p 0) / val (S754_finite false 100 0)) 31).
    { apply div_rounds; [exact I|now exists false, 100%positive, 0%Z| |lia].
      cbn [val JS.smant cond_Zopp]. unfold Qdiv.
      change (/ (inject_Z 100 * 2 ^ 0)) with (1 # 100).
      change (2 ^ 0) with 1. pow2_consts. lra. }
    destruct Hq as (Vq & Fq & Bq & _).
    cbn [val JS.smant cond_Zopp] in Bq. unfold Qdiv in Bq.
    change (/ (inject_Z 100 * 2 ^ 0)) with (1 # 100) in Bq.
    change (2 ^ 0) with 1 in Bq. pow2_consts.
    split; [exact Vq|]. split; [exact Fq|]. lra.
Qed.

Lemma within_tolerance (a b : JS.number) (n : Z) :
  valid a -> finite a -> valid b -> finite b ->
  inject_Z n - (1 # 40000) <= 100 * val a <= inject_Z n + (1 # 40000) ->
  inject_Z n - (1 # 40000) <= 100 * val b <= inject_Z n + (1 # 40000) ->
  JS.gt (JS.Math_abs (a - b)%js) n0_009 = false.
Proof.
  intros Va Fa Vb Fb Ha Hb.
  assert (H9 : valid n0_009 /\ finite n0_009 /\ (8 # 1000) <= val n0_009).
  { repeat split; vm_compute; first [reflexivity|discriminate]. }
  destruct H9 as (V9 & F9 & E9).
  assert (Hd : rounds_to (JS.sub a b) (val a - val b) (-10)).
  { apply sub_rounds; try assumption; [|lia]. pow2_consts. lra. }
  destruct Hd as (Vd & Fd & Bd & _). pow2_consts.
  destruct (abs_val _ Vd Fd) as (Vx & Fx & Ex).
  unfold JS.gt. fold (JS.lt n0_009 (JS.Math_abs (a - b)%js)).
  destruct (JS.lt n0_009 (JS.Math_abs (a - b)%js)) eqn:E; [|reflexivity].
  apply (lt_val n0_009 _ V9 Vx F9 Fx) in E. rewrite Ex in E.
  assert (Qabs (val (JS.sub a b)) <= 1 # 1000); [|lra].
  apply Qabs_Qle_condition. lra.
Qed.

(** X19.  The price an update carries, once stored, is left alone: for
    every cost from 0 to 1,000,000 and every rounding mode, the price
    computed is an amount of whole cents and its [toFixed(2)] rendering is
    those cents written with two decimals; a variant whose current price is
    that rendering is within the tolerance, so it is counted as skipped and
    nothing is sent. *)
Theorem stored_price_is_kept (cfg : env) (w : world) (v : variant) (cost : JS.number)
    (c : counts) (tr : list event) :
  valid cost -> JS.le n0 cost = true -> JS.le cost max_cost = true ->
  let newPrice := computePriceFromCost (ROUND_MODE cfg) (JS.VNum cost) in
  (exists n : Z, newPrice = cents n /\ toFixed2 newPrice = Some (two_decimals n)) /\
  (forall s, toFixed2 newPrice = Some s -> v_price v = JS.VStr s ->
   price_variant cfg w v cost c tr = Some (incr_skipped c, tr)).
Proof.
  intros Hv H0 H1 newPrice.
  destruct (cost_in_range cost Hv H0 H1) as (Hf & Hb).
  destruct (price_is_cents (ROUND_MODE cfg) cost Hv Hf Hb) as (n & Hn & Hp & _).
  fold newPrice in Hp.
  assert (Hfix : toFixed2 newPrice = Some (two_decimals n))
    by (rewrite Hp; apply toFixed2_cents; lia).
  split; [exists n; now split|].
  intros s Hs Hprice. rewrite Hfix in Hs. injection Hs as <-.
  unfold price_variant.
  destruct (no_cost cost); [reflexivity|].
  fold newPrice. rewrite Hp, Hprice.
  destruct (read_two_decimals n ltac:(lia)) as (Hne & Hread).
  assert (Hor : (JS.VStr (two_decimals n) || JS.VStr "0")%js = JS.VStr (two_decimals n)).
  { unfold JS.or. cbn [JS.truthy]. apply String.eqb_neq in Hne. now rewrite Hne. }
  rewrite Hor. cbn [JS.parseFloat]. rewrite Hread.
  destruct (lit_cents n Hn) as (Va & Fa & Ba).
  destruct (cents_val n ltac:(lia)) as (Vb & Fb & _ & _ & Bb).
  now rewrite (within_tolerance _ _ n Va Fa Vb Fb Ba Bb).
Qed.

(** X20.  A variant without a current price (absent, empty, or zero) is
    always sent an update when its cost is above 0 and at most 1,000,000 and
    the rounding mode is not [whole]: its price counts as 0, and the price
    computed is at least [0.30]. *)
Theorem missing_price_is_updated (cfg : env) (w : world) (v : variant) (cost : JS.number)
    (c : counts) (tr : list event) :
  ROUND_MODE cfg <> "whole" ->
  valid cost -> JS.lt n0 cost = true -> JS.le cost max_cost = true ->
  JS.truthy (v_price v) = false ->
  let newPrice := computePriceFromCost (ROUND_MODE cfg) (JS.VNum cost) in
  price_variant cfg w v cost c tr =
  Some (if shopify_put w tr (v_id v) newPrice then incr_updated c else incr_errors c,
        tr ++ [PutVariantPrice (v_id v) newPrice]).
Proof.
  intros Hmode Hv H0 H1 Hfalsy newPrice.
  assert (H0' : JS.le n0 cost = true).
  { unfold JS.le, SFleb. unfold JS.lt, SFltb in H0.
    destruct (SFcompare n0 cost) as [[| |]|]; try discriminate; reflexivity. }
  destruct (cost_in_range cost Hv H0' H1) as (Hf & Hb).
  unfold price_variant. fold (JS.gt cost n0) in H0.
  rewrite (gt_zero_has_cost _ H0). fold newPrice.
  unfold JS.or. rewrite Hfalsy.
  change (JS.parseFloat (JS.VStr "0")) with JS.zero.
  destruct (price_floor (ROUND_MODE cfg) cost Hmode Hv Hf Hb) as (n & Hn & Hp & Hle).
  fold newPrice in Hp.
  assert (Hgt : JS.gt (JS.Math_abs (JS.zero - newPrice)%js) n0_009 = true).
  { rewrite Hp.
    destruct const_facts as (_ & _ & _ & (V30 & F30 & E30) & _).
    destruct (cents_val n ltac:(lia)) as (Vy & Fy & _ & Py & By).
    assert (Hn' : inject_Z 31 <= inject_Z n <= inject_Z 107374182300)
      by (apply Q_of_bounds; exact Hn).
    change (inject_Z 31) with 31 in Hn'.
    change (inject_Z 107374182300) with 107374182300 in Hn'.
    apply (le_val n0_30 (cents n) V30 Vy F30 Fy) in Hle. rewrite E30 in Hle.
    assert (H9 : valid n0_009 /\ finite n0_009 /\ val n0_009 <= (1 # 100)).
    { repeat split; vm_compute; first [reflexivity|discriminate]. }
    destruct H9 as (V9 & F9 & E9).
    assert (Hd : rounds_to (JS.sub JS.zero (cents n)) (val JS.zero - val (cents n)) 31).
    { apply sub_rounds; [reflexivity|exact Vy|exact I|exact Fy| |lia].
      cbn [val JS.zero]. pow2_consts. lra. }
    destruct Hd as (Vd & Fd & Bd & _). cbn [val JS.zero] in Bd. pow2_consts.
    destruct (abs_val _ Vd Fd) as (Vx & Fx & Ex).
    unfold JS.gt. fold (JS.lt n0_009 (JS.Math_abs (JS.zero - cents n)%js)).
    apply (lt_val n0_009 _ V9 Vx F9 Fx). rewrite Ex.
    assert (val (JS.sub JS.zero (cents n)) <= - (2 # 10)) by lra.
    rewrite Qabs_neg by lra. lra. }
  rewrite Hgt, bind_unfold. reflexivity.
Qed.

End Stored.

(** ** Fetching the storefront catalog *)

Lemma append_assoc (a b c : string) :
  String.append (String.append a b) c = String.append a (String.append b c).
Proof. induction a as [|x a IH]; cbn; [reflexivity|now rewrite IH]. Qed.

Lemma append_nil_r (a : string) : String.append a "" = a.
Proof. induction a as [|x a IH]; cbn; [reflexivity|now rewrite IH]. Qed.

Lemma lacks_app (c : ascii) (a b : string) :
  lacks c (String.append a b) = lacks c a && lacks c b.
Proof.
  induction a as [|x a IH]; cbn [String.append lacks]; [reflexivity|].
  now rewrite IH, andb_assoc.
Qed.

Lemma span_not_gt_stop (u r : string) :
  lacks ">" u = true -> span_not_gt (String.append u (String ">" r)) = (u, String ">" r).
Proof.
  induction u as [|c u IH]; cbn [String.append span_not_gt lacks]; [reflexivity|].
  intros H. apply andb_true_iff in H as [Hc Hu].
  apply negb_true_iff in Hc. rewrite Hc, (IH Hu). reflexivity.
Qed.

Lemma match_at_shape (url t : string) :
  lacks ">" url = true ->
  match_at (String "<" (String.append url (String ">" (String ";" t)))) =
  if String.eqb url "" then None
  else if String.prefix rel_next (JS.trimStart t) then Some url else None.
Proof.
  intros Hu. unfold match_at. change (Ascii.eqb "<" "<") with true. cbn iota.
  rewrite (span_not_gt_stop url _ Hu). reflexivity.
Qed.

Lemma link_entry_shape (url rel post : string) :
  String.append (link_entry url rel) post =
  String "<" (String.append url (String ">" (String ";"
    (String.append " rel=" (String dquote (String.append rel (String dquote post))))))).
Proof.
  unfold link_entry. cbn [String.append]. rewrite !append_assoc. cbn [String.append].
  now rewrite append_assoc.
Qed.

Lemma match_at_next (url post : string) :
  lacks ">" url = true -> url <> "" ->
  match_at (String.append (link_entry url "next") post) = Some url.
Proof.
  intros Hu Hne. rewrite link_entry_shape, (match_at_shape url _ Hu).
  apply String.eqb_neq in Hne. rewrite Hne. now destruct post.
Qed.

Lemma match_at_previous (url post : string) :
  lacks ">" url = true ->
  match_at (String.append (link_entry url "previous") post) = None.
Proof.
  intros Hu. rewrite link_entry_shape, (match_at_shape url _ Hu).
  now destruct (String.eqb url "").
Qed.

Lemma link_match_skip (pre t : string) :
  lacks "<" pre = true -> link_match (String.append pre t) = link_match t.
Proof.
  induction pre as [|c pre IH]; cbn [String.append lacks]; [reflexivity|].
  intros H. apply andb_true_iff in H as [Hc Hp]. apply negb_true_iff in Hc.
  cbn [link_match match_at]. rewrite Hc. exact (IH Hp).
Qed.

Lemma link_match_head (s : string) (url : string) :
  match_at s = Some url -> link_match s = Some url.
Proof. intros H. destruct s; cbn [link_match]; now rewrite H. Qed.

Lemma includes_inside (pre t post : string) :
  JS.includes (String.append pre (String.append t post)) t = true.
Proof. apply includes_app. now exists pre, post. Qed.

Lemma match_at_nonempty (s url : string) : match_at s = Some url -> url <> "".
Proof.
  unfold match_at. destruct s as [|c r]; [discriminate|].
  destruct (Ascii.eqb c "<"); [|discriminate].
  destruct (span_not_gt r) as [u rest].
  destruct (String.eqb_spec u "") as [|Hne]; [discriminate|].
  destruct rest as [|c1 [|c2 t]]; try discriminate.
  destruct (_ && _); [|discriminate]. now intros [= <-].
Qed.

Lemma link_match_nonempty (s url : string) : link_match s = Some url -> url <> "".
Proof.
  induction s as [|c r IH]; cbn [link_match].
  - destruct (match_at "") eqn:E; [|discriminate]. intros [= <-]. now apply match_at_nonempty in E.
  - destruct (match_at (String c r)) eqn:E; [|exact IH].
    intros [= <-]. now apply match_at_nonempty in E.
Qed.

Lemma next_endpoint_nonempty (link : option string) (url : string) :
  next_endpoint link = Some url -> url <> "".
Proof.
  unfold next_endpoint. destruct link as [l|]; [|discriminate].
  destruct (_ && _); [|discriminate]. apply link_match_nonempty.
Qed.

Lemma link_match_tail (c : ascii) (r : string) :
  match_at (String c r) = None -> link_match (String c r) = link_match r.
Proof. intros H. cbn [link_match]. now rewrite H. Qed.

Lemma link_match_previous (u1 post : string) :
  lacks "<" u1 = true -> lacks ">" u1 = true ->
  link_match (String.append (link_entry u1 "previous") post) = link_match post.
Proof.
  intros Hlt Hgt.
  pose proof (match_at_previous u1 post Hgt) as Hm.
  rewrite link_entry_shape in Hm |- *.
  rewrite (link_match_tail _ _ Hm).
  set (K := String ">" (String ";" (String.append " rel="
              (String dquote (String.append "previous" (String dquote EmptyString)))))).
  assert (HK : String ">" (String ";" (String.append " rel="
                 (String dquote (String.append "previous" (String dquote post))))) =
               String.append K post) by reflexivity.
  rewrite HK, <- append_assoc.
  apply link_match_skip. rewrite lacks_app, Hlt. reflexivity.
Qed.

(** X21.  From a link header the loop takes the address of the entry
    marked [next], whether that entry stands alone or follows the entry
    marked [previous]; a header with the [previous] entry alone, or no
    header, ends the loop. *)
Theorem next_link_is_followed (u1 u2 : string) :
  lacks "<" u1 = true -> lacks ">" u1 = true -> lacks ">" u2 = true -> u2 <> "" ->
  next_endpoint (Some (link_entry u2 "next")) = Some u2 /\
  next_endpoint (Some (String.append (link_entry u1 "previous")
                         (String.append ", " (link_entry u2 "next")))) = Some u2 /\
  next_endpoint (Some (link_entry u1 "previous")) = None /\
  next_endpoint None = None.
Proof.
  intros Hlt1 Hgt1 Hgt2 Hne2.
  assert (Hnext : link_entry u2 "next" =
            String.append (String "<" (String.append u2 ">; "))
              (String.append rel_next "")).
  { rewrite <- (append_nil_r (link_entry u2 "next")), link_entry_shape.
    cbn [String.append]. f_equal. rewrite append_assoc. reflexivity. }
  assert (Hm : link_match (link_entry u2 "next") = Some u2).
  { apply link_match_head. rewrite <- (append_nil_r (link_entry u2 "next")).
    now apply match_at_next. }
  assert (Hinc : forall pre, JS.includes (String.append pre (link_entry u2 "next")) rel_next
                             = true).
  { intros pre. rewrite Hnext, <- append_assoc. apply includes_inside. }
  split; [|split; [|split; [|reflexivity]]].
  - unfold next_endpoint. rewrite Hm.
    change (link_entry u2 "next") with (String.append "" (link_entry u2 "next")) at 2.
    now rewrite Hinc.
  - unfold next_endpoint.
    rewrite (link_match_previous u1 _ Hlt1 Hgt1).
    rewrite (link_match_skip ", " (link_entry u2 "next") eq_refl), Hm.
    rewrite <- append_assoc, Hinc. reflexivity.
  - assert (Hlm : link_match (link_entry u1 "previous") = None).
    { rewrite <- (append_nil_r (link_entry u1 "previous")).
      now rewrite (link_match_previous u1 "" Hlt1 Hgt1). }
    unfold next_endpoint. rewrite Hlm. now destruct (_ && _).
Qed.

Lemma first_endpoint_nonempty (sc : shop_env) : first_endpoint sc <> "".
Proof. discriminate. Qed.

Lemma fetch_loop_walk (s : storefront) (pages : list (string * shop_page)) :
  forall (fuel : nat) (endpoint : option string) (results : list product)
         (asked : list string) (final : option string),
  (forall u, endpoint = Some u -> u <> "") ->
  walk s asked endpoint pages final ->
  (forall u, final = Some u -> u <> "") /\
  fetch_loop s (length pages + fuel) endpoint results asked =
  fetch_loop s fuel final (results ++ products_of pages) (asked ++ map fst pages).
Proof.
  induction pages as [|[url pg] pages IH]; intros fuel endpoint results asked final Hok Hw.
  - cbn in Hw. subst final. cbn [length products_of map Nat.add]. rewrite !app_nil_r.
    now split.
  - destruct Hw as (-> & Hs & Hw).
    assert (Hurl : String.eqb url "" = false) by (apply String.eqb_neq; now apply Hok).
    destruct (IH fuel (next_endpoint (headers_link pg))
                (results ++ default [] (body_products pg)) (asked ++ [url]) final
                (next_endpoint_nonempty _) Hw) as (Hfin & Hrun).
    split; [exact Hfin|].
    cbn [length Nat.add fetch_loop]. rewrite Hurl, Hs, Hrun.
    cbn [products_of map fst]. now rewrite <- !app_assoc.
Qed.

(** X22.  The fetch follows the pages the storefront links: it requests
    them in turn, starting from [products.json?limit=250], and when the last
    page leads nowhere it returns the products of all the pages, in order.
    When the request after them fails, it returns the products gathered so
    far all the same. *)
Theorem fetch_follows_links (sc : shop_env) (s : storefront) (fuel : nat)
    (pages : list (string * shop_page)) (final : option string) :
  walk s [] (Some (first_endpoint sc)) pages final ->
  (length pages < fuel)%nat ->
  (final = None ->
   fetchAllShopifyProducts sc s fuel = Some (products_of pages, map fst pages)) /\
  (forall url, final = Some url -> s (map fst pages) url = ShopFailed ->
   fetchAllShopifyProducts sc s fuel = Some (products_of pages, map fst pages ++ [url])).
Proof.
  intros Hw Hfuel. unfold fetchAllShopifyProducts.
  replace fuel with (length pages + S (fuel - S (length pages)))%nat by lia.
  destruct (fetch_loop_walk s pages (S (fuel - S (length pages)))
              (Some (first_endpoint sc)) [] [] final) as (Hfin & ->); [|exact Hw|].
  { intros u [= <-]. apply first_endpoint_nonempty. }
  cbn [app]. split.
  - intros ->. reflexivity.
  - intros url -> Hfail. cbn [fetch_loop].
    assert (Hurl : String.eqb url "" = false) by (apply String.eqb_neq; now apply Hfin).
    now rewrite Hurl, Hfail.
Qed.

(** X23.  When the first request to the storefront fails, the catalog is
    empty and the pass ends with all three counters at zero, having sent
    nothing else. *)
Theorem outage_gives_empty_pass (cfg : env) (sc : shop_env) (s : storefront) (w : world)
    (fuel : nat) (f : csv_file) :
  s [] (first_endpoint sc) = ShopFailed -> (0 < fuel)%nat ->
  fetchAllShopifyProducts sc s fuel = Some ([], [first_endpoint sc]) /\
  pricing_pass cfg sc s w fuel f =
  Some ({| updated := 0; skipped := 0; errors := 0 |}, [first_endpoint sc], []).
Proof.
  intros Hfail Hfuel.
  assert (H : fetchAllShopifyProducts sc s fuel = Some ([], [first_endpoint sc])).
  { unfold fetchAllShopifyProducts. destruct fuel as [|fuel]; [lia|].
    cbn [fetch_loop].
    assert (Hurl : String.eqb (first_endpoint sc) "" = false)
      by (apply String.eqb_neq, first_endpoint_nonempty).
    now rewrite Hurl, Hfail. }
  split; [exact H|]. unfold pricing_pass. now rewrite H.
Qed.

(** ** The tolerance of line 194 *)

Section Tolerance.

#[local] Open Scope Q_scope.

Lemma magnitude_bound (x : JS.number) :
  valid x -> JS.le (JS.Math_abs x) max_amount = true ->
  finite x /\ Qabs (val x) <= 1000000000.
Proof.
  intros Hv Hle.
  assert (Hf : finite x).
  { destruct x as [s|s| |s m e]; try exact I; discriminate. }
  split; [exact Hf|].
  destruct (abs_val x Hv Hf) as (Va & Fa & Ea).
  destruct (of_Z_exact 1000000000 ltac:(lia)) as (Vm & Fm & Em).
  apply (le_val _ max_amount Va Vm Fa Fm) in Hle.
  unfold max_amount in Hle. rewrite Em, Ea in Hle. exact Hle.
Qed.

(** The difference the code computes between a price and an amount of
    cents, against the tolerance. *)
Lemma gap_decides (cur : JS.number) (n : Z) :
  valid cur -> finite cur -> Qabs (val cur) <= 1000000000 ->
  (0 <= n <= 107374182300)%Z ->
  let d := JS.Math_abs (cur - cents n)%js in
  let gap := Qabs (val cur - val (cents n)) in
  (JS.le d n0_009 = true -> JS.gt d n0_009 = false) /\
  (gap <= 89999 # 10000000 -> JS.gt d n0_009 = false) /\
  (90001 # 10000000 <= gap -> JS.gt d n0_009 = true).
Proof.
  intros Vc Fc Bc Hn d gap.
  assert (H9 : valid n0_009 /\ finite n0_009 /\
               (9 # 1000) - (1 # 1000000000) <= val n0_009 /\ val n0_009 <= (9 # 1000)).
  { repeat split; vm_compute; first [reflexivity|discriminate]. }
  destruct H9 as (V9 & F9 & L9 & U9).
  destruct (cents_val n ltac:(lia)) as (Vn & Fn & _ & Pn & Bn).
  assert (Hn' : inject_Z 0 <= inject_Z n <= inject_Z 107374182300)
    by (apply Q_of_bounds; exact Hn).
  change (inject_Z 0) with 0 in Hn'.
  change (inject_Z 107374182300) with 107374182300 in Hn'.
  apply Qabs_Qle_condition in Bc.
  set (D := val cur - val (cents n)) in *.
  assert (Hs : rounds_to (JS.sub cur (cents n)) D 31).
  { apply sub_rounds; try assumption; [|lia]. fold D. unfold D. pow2_consts. lra. }
  destruct Hs as (Vs & Fs & Bs & _). pow2_consts.
  assert (Hsmall : Qabs D <= 1 # 64 ->
                   D - (1 # 288230376151711744) <= val (JS.sub cur (cents n)) <=
                   D + (1 # 288230376151711744)).
  { intros Hd. apply Qabs_Qle_condition in Hd.
    assert (Hs : rounds_to (JS.sub cur (cents n)) D (-5)).
    { apply sub_rounds; try assumption; [|lia]. fold D. pow2_consts. lra. }
    destruct Hs as (_ & _ & Hs & _). pow2_consts. exact Hs. }
  destruct (abs_val _ Vs Fs) as (Vd & Fd & Ed). fold d in Vd, Fd, Ed.
  assert (Hlt : forall b, (b = true <-> val n0_009 < val d) -> JS.gt d n0_009 = b).
  { intros b Hb. unfold JS.gt. fold (JS.lt n0_009 d).
    pose proof (lt_val n0_009 d V9 Vd F9 Fd) as Hl.
    destruct (JS.lt n0_009 d), b; try reflexivity.
    - symmetry. apply Hb, Hl. reflexivity.
    - apply Hl, Hb. reflexivity. }
  split; [|split].
  - intros Hle. apply (le_val d n0_009 Vd V9 Fd F9) in Hle.
    apply Hlt. split; [discriminate|]. intros H. lra.
  - intros Hg. apply Hlt. split; [discriminate|]. intros H. rewrite Ed in H.
    assert (Hd : Qabs D <= 1 # 64) by (unfold gap in Hg; lra).
    specialize (Hsmall Hd). unfold gap in Hg. apply Qabs_Qle_condition in Hg.
    assert (Hx : Qabs (val (JS.sub cur (cents n))) <= (89999 # 10000000) + (1 # 1000000000));
      [|lra].
    apply Qabs_Qle_condition. lra.
  - intros Hg. apply Hlt. split; [intros _|reflexivity]. rewrite Ed. unfold gap in Hg.
    destruct (Qlt_le_dec (1 # 64) (Qabs D)) as [Hbig|Hd].
    + destruct (Qlt_le_dec D 0) as [Dneg|Dpos].
      * rewrite (Qabs_neg D) in Hbig by lra.
        rewrite <- Qabs_opp.
        eapply Qlt_le_trans; [|apply Qle_Qabs]. lra.
      * rewrite (Qabs_pos D) in Hbig by lra.
        eapply Qlt_le_trans; [|apply Qle_Qabs]. lra.
    + specialize (Hsmall Hd).
      destruct (Qlt_le_dec D 0) as [Dneg|Dpos].
      * rewrite (Qabs_neg D) in Hg by lra.
        rewrite <- Qabs_opp.
        eapply Qlt_le_trans; [|apply Qle_Qabs]. lra.
      * rewrite (Qabs_pos D) in Hg by lra.
        eapply Qlt_le_trans; [|apply Qle_Qabs]. lra.
Qed.

(** C4, as amended.  For a variant whose resolved cost is positive, the
    code tests the binary64 difference it computes between the current and
    the target price against [0.009], strictly: a computed difference of at
    most [0.009] counts the variant as skipped and sends nothing.  When the
    two prices are at most [0.0089999] apart the variant is skipped, and when
    they are [0.0090001] or more apart, [0.0091] say, one update to the
    target price is sent and counted by its outcome; closer to [0.009] than
    that, the rounding of the two prices and of their difference decides.
    Costs go up to 1,000,000 and current prices up to 1,000,000,000 in
    magnitude. *)
Theorem tolerance_boundary (cfg : env) (w : world) (v : variant) (cost : JS.number)
    (c : counts) (tr : list event) :
  valid cost -> JS.gt cost n0 = true -> JS.le cost max_cost = true ->
  let newPrice := computePriceFromCost (ROUND_MODE cfg) (JS.VNum cost) in
  let currentPrice := JS.parseFloat (v_price v || JS.VStr "0")%js in
  valid currentPrice -> JS.le (JS.Math_abs currentPrice) max_amount = true ->
  let gap := Qabs (val currentPrice - val newPrice) in
  (JS.le (JS.Math_abs (currentPrice - newPrice)%js) n0_009 = true ->
   price_variant cfg w v cost c tr = Some (incr_skipped c, tr)) /\
  (gap <= 89999 # 10000000 ->
   price_variant cfg w v cost c tr = Some (incr_skipped c, tr)) /\
  (90001 # 10000000 <= gap ->
   price_variant cfg w v cost c tr =
   Some (if shopify_put w tr (v_id v) newPrice then incr_updated c else incr_errors c,
         tr ++ [PutVariantPrice (v_id v) newPrice])).
Proof.
  intros Hv Hgt Hle newPrice currentPrice Vc Hmag gap.
  assert (H0 : JS.le n0 cost = true).
  { unfold JS.le, SFleb. unfold JS.gt, SFltb in Hgt.
    destruct (SFcompare n0 cost) as [[| |]|]; try discriminate; reflexivity. }
  destruct (cost_in_range cost Hv H0 Hle) as (Hf & Hb).
  destruct (price_is_cents (ROUND_MODE cfg) cost Hv Hf Hb) as (n & Hn & Hp & _).
  fold newPrice in Hp.
  destruct (magnitude_bound currentPrice Vc Hmag) as (Fc & Bc).
  unfold price_variant. rewrite (gt_zero_has_cost _ Hgt).
  fold newPrice currentPrice.
  unfold gap. rewrite Hp.
  destruct (gap_decides currentPrice n Vc Fc Bc Hn) as (H1 & H2 & H3). cbn zeta in *.
  split; [|split].
  - intros H. now rewrite (H1 H).
  - intros H. now rewrite (H2 H).
  - intros H. rewrite (H3 H), bind_unfold. reflexivity.
Qed.

Lemma tolerance_boundary_witness :
  price_variant env_default world_accepting variant_4_4789 n4_00 counts_zero [] =
  Some (incr_skipped counts_zero, []) /\
  price_variant env_default world_accepting variant_4_4791 n4_00 counts_zero [] =
  Some (incr_updated counts_zero, [PutVariantPrice 14 n4_47]).
Proof.
  split.
  - apply (proj1 (proj2 (tolerance_boundary env_default world_accepting variant_4_4789 n4_00
                           counts_zero [] eq_refl eq_refl eq_refl eq_refl eq_refl))).
    vm_compute. discriminate.
  - apply (proj2 (proj2 (tolerance_boundary env_default world_accepting variant_4_4791 n4_00
                           counts_zero [] eq_refl eq_refl eq_refl eq_refl eq_refl))).
    vm_compute. discriminate.
Defined.

(** C4 as stated fails: with the target price 4.47, a variant priced 4.479,
    exactly 0.009 above, is sent an update, while a variant priced 4.461,
    exactly 0.009 below, is skipped. *)
Lemma exactly_0_009_apart_is_updated :
  JS.gt n4_00 n0 = true /\
  computePriceFromCost (ROUND_MODE env_default) (JS.VNum n4_00) = JS.lit 447 (-2) /\
  JS.parseFloat (v_price variant_4_479 || JS.VStr "0")%js = JS.lit 4479 (-3) /\
  (4479 # 1000) - (447 # 100) == 9 # 1000 /\
  price_variant env_default world_accepting variant_4_479 n4_00 counts_zero [] =
  Some (incr_updated counts_zero, [PutVariantPrice 10 n4_47]) /\
  (447 # 100) - (4461 # 1000) == 9 # 1000 /\
  price_variant env_default world_accepting variant_4_461 n4_00 counts_zero [] =
  Some (incr_skipped counts_zero, []).
Proof. repeat split; vm_compute; reflexivity. Qed.

End Tolerance.

(** * Instances of the further properties *)

Lemma feed_table_entries_witness :
  (is_Some (loadAliExpressCSV (CsvRecords (feed_rows_before ++ [feed_row_proto])) !! "A1") <->
   "A1" <> "" /\ "A1" <> "__proto__" /\
   exists r, In r (feed_rows_before ++ [feed_row_proto]) /\ row_sku r = "A1") /\
  (JS.isNaN (JS.lit 250 (-2)) = false /\
   exists r, In r (feed_rows_before ++ [feed_row_proto]) /\ row_sku r = "A1" /\
             row_cost r = JS.lit 250 (-2)).
Proof.
  split.
  - apply (proj1 (feed_table_entries (feed_rows_before ++ [feed_row_proto]) "A1")).
  - apply (proj2 (feed_table_entries (feed_rows_before ++ [feed_row_proto]) "A1")).
    reflexivity.
Defined.

Lemma lookup_requests_pages_in_order_witness :
  JS.isNaN (JS.lit 125 (-1)) = false /\
  puts [GetPrintifyPage 1; GetPrintifyPage 2; GetPrintifyPage 3] = puts [] /\
  exists k, (k <= 3)%nat /\
            [GetPrintifyPage 1; GetPrintifyPage 2; GetPrintifyPage 3] = fetched [] 1 k.
Proof.
  apply (lookup_requests_pages_in_order env_printify world_three_pages 3 "TEE-1" []).
  vm_compute. reflexivity.
Defined.

Lemma lookup_gives_up_witness :
  getPrintifyVariantCostBySku env_printify world_malformed 1 "TEE-1" [] =
  Some (n0, [GetPrintifyPage 1]).
Proof.
  apply (lookup_gives_up env_printify world_malformed "TEE-1" 0 1 []).
  - reflexivity.
  - lia.
  - intros k Hk. lia.
  - right. right.
    exists [Some [pv_other; pv_numeric; pv_sought]], [pv_other], pv_numeric, [pv_sought].
    split; [reflexivity|]. split; [reflexivity|].
    split; [|reflexivity].
    repeat constructor. exists "OTHER". split; [reflexivity|right; discriminate].
Defined.

Lemma blank_sku_never_updated_witness :
  (updated (incr_skipped counts_zero) = updated counts_zero /\ puts [] = puts []) /\
  exists c' tr',
    process_variant env_default world_accepting 1 (loadAliExpressCSV scenario_feed)
      "generic" product_generic variant_blank counts_zero [] = Some (c', tr').
Proof.
  split.
  - apply (proj1 (blank_sku_never_updated env_default world_accepting 1 scenario_feed
                    "generic" product_generic variant_blank counts_zero [] eq_refl)
             (incr_skipped counts_zero) []).
    vm_compute. reflexivity.
  - apply (proj2 (blank_sku_never_updated env_default world_accepting 1 scenario_feed
                    "generic" product_generic variant_blank counts_zero [] eq_refl)).
    + lia.
    + intros tr page _. reflexivity.
Defined.

Lemma unknown_sku_is_skipped_witness :
  process_variant env_default world_accepting 1 (loadAliExpressCSV scenario_feed)
    "generic" product_generic variant_tee counts_zero [] =
  Some (incr_skipped counts_zero, []).
Proof.
  apply (unknown_sku_is_skipped env_default world_accepting 1 scenario_feed
           "generic" product_generic variant_tee "TEE-1" counts_zero []).
  - reflexivity.
  - vm_compute. reflexivity.
  - intros rs [= <-]. repeat constructor. vm_compute. discriminate.
Defined.

Lemma unusable_feed_cost_is_skipped_witness :
  process_variant env_default world_accepting 1
    (loadAliExpressCSV (CsvRecords (feed_rows_before ++ feed_row_bad :: [feed_row_last])))
    "generic" product_generic variant_b2 counts_zero [] =
  Some (incr_skipped counts_zero, []).
Proof.
  apply (unusable_feed_cost_is_skipped env_default world_accepting 1 feed_rows_before
           [feed_row_last] feed_row_bad "generic" product_generic variant_b2 counts_zero []).
  - reflexivity.
  - vm_compute. reflexivity.
  - discriminate.
  - repeat constructor. discriminate.
  - left. reflexivity.
Defined.

Lemma unconfigured_lookup_skips_witness :
  getPrintifyVariantCostBySku env_default world_three_pages 3 "TEE-1" [] = Some (n0, []) /\
  process_variant env_default world_three_pages 3 ∅ "printify prints" product_printify
    variant_tee counts_zero [] = Some (incr_skipped counts_zero, []).
Proof.
  apply (unconfigured_lookup_skips env_default world_three_pages 3 ∅ "printify prints"
           product_printify variant_tee "TEE-1" counts_zero []).
  - reflexivity.
  - reflexivity.
  - vm_compute. reflexivity.
Defined.

Lemma unreadable_price_is_skipped_witness :
  price_variant env_default world_accepting variant_mispriced n4_00 counts_zero [] =
  Some (incr_skipped counts_zero, []).
Proof.
  apply (unreadable_price_is_skipped env_default world_accepting variant_mispriced n4_00
           counts_zero []).
  vm_compute. reflexivity.
Defined.

Lemma title_routing_witness :
  process_variant env_printify world_three_pages 3 (loadAliExpressCSV feed_tee)
    (JS.toLowerCase "Acme") product_titled variant_tee counts_zero [] =
  Some (incr_updated counts_zero,
        [GetPrintifyPage 1; GetPrintifyPage 2; GetPrintifyPage 3; PutVariantPrice 1 n13_32]) /\
  process_variant env_printify world_three_pages 3 (loadAliExpressCSV feed_tee)
    (JS.toLowerCase "") product_numbered variant_tee counts_zero [] =
  Some (incr_errors counts_zero, []).
Proof.
  split.
  - etransitivity.
    + refine (proj1 (title_routing env_printify world_three_pages 3
                       (loadAliExpressCSV feed_tee) product_titled variant_tee
                       "TEE-1" counts_zero [] eq_refl _) "Tee by PRINTIFY" eq_refl _).
      * intros H. apply includes_lower_ci in H. discriminate.
      * exists "Tee by ", "PRINTIFY", "". split; [reflexivity|].
        cbn [same_text]. repeat split;
          right; left; (split; [left; vm_compute; split; discriminate|reflexivity]).
    + vm_compute. reflexivity.
  - refine (proj2 (title_routing env_printify world_three_pages 3
                     (loadAliExpressCSV feed_tee) product_numbered variant_tee
                     "TEE-1" counts_zero [] eq_refl _) eq_refl _).
    + intros H. apply includes_lower_ci in H. discriminate.
    + discriminate.
Defined.

Lemma non_string_sku_is_error_witness :
  process_variant env_default world_accepting 1 ∅ "generic" product_generic variant_numeric
    counts_zero [] = Some (incr_errors counts_zero, []).
Proof.
  apply (non_string_sku_is_error env_default world_accepting 1 ∅ "generic" product_generic
           variant_numeric counts_zero []).
  - reflexivity.
  - discriminate.
Defined.

Lemma updated_counts_accepted_witness :
  updated {| updated := 0; skipped := 0; errors := 1 |} =
  accepted world_refusing [] [PutVariantPrice 7 n4_47] /\
  (length (puts [PutVariantPrice 7 n4_47]) <=
   updated {| updated := 0; skipped := 0; errors := 1 |} +
   errors {| updated := 0; skipped := 0; errors := 1 |})%nat.
Proof.
  apply (updated_counts_accepted env_default world_refusing 1 scenario_feed
           (scenario_products 7)).
  vm_compute. reflexivity.
Defined.

Lemma updates_follow_catalog_witness :
  exists sent, sublist sent (all_variants (scenario_products 7)) /\
               Forall2 (update_for env_default) sent (puts [PutVariantPrice 7 n4_47]).
Proof.
  apply (updates_follow_catalog env_default world_accepting 1 scenario_feed
           (scenario_products 7) {| updated := 1; skipped := 0; errors := 0 |}).
  vm_compute. reflexivity.
Defined.

Lemma roundToTwo_nearest_cent_witness :
  exists n : Z,
    (0 <= n)%Z /\ roundToTwo n1_005 = cents n /\
    (inject_Z n - (1 # 2) - (1 # 10000) <= 100 * val n1_005)%Q /\
    (100 * val n1_005 < inject_Z n + (1 # 2) + (1 # 10000))%Q.
Proof.
  apply (roundToTwo_nearest_cent n1_005); vm_compute; reflexivity.
Defined.

Lemma mode_99_below_ceiling_witness :
  exists k : Z,
    (1 <= k)%Z /\ (inject_Z k - 1 < val n7_20)%Q /\ (val n7_20 <= inject_Z k)%Q /\
    applyRounding ".99" n7_20 = cents (100 * k - 1).
Proof.
  apply (mode_99_below_ceiling n7_20); vm_compute; reflexivity.
Defined.

Lemma mode_whole_nearest_witness :
  exists k : Z,
    (0 <= k)%Z /\ (inject_Z k <= val n7_20 + (1 # 2))%Q /\
    (val n7_20 + (1 # 2) < inject_Z k + 1)%Q /\
    applyRounding "whole" n7_20 = cents (100 * k).
Proof.
  apply (mode_whole_nearest n7_20); vm_compute; reflexivity.
Defined.

Lemma price_at_least_fee_witness :
  JS.le n0_30 (computePriceFromCost ".95" (JS.VNum n4_00)) = true.
Proof.
  apply (price_at_least_fee ".95" n4_00); [discriminate|vm_compute; reflexivity..].
Defined.

Lemma mode_whole_prices_cheap_at_zero_witness :
  computePriceFromCost "whole" (JS.VNum n0_01) = JS.zero.
Proof.
  apply (mode_whole_prices_cheap_at_zero n0_01); vm_compute; reflexivity.
Defined.

Lemma stored_price_is_kept_witness :
  (exists n : Z,
     computePriceFromCost (ROUND_MODE env_default) (JS.VNum n4_00) = cents n /\
     toFixed2 (computePriceFromCost (ROUND_MODE env_default) (JS.VNum n4_00)) =
     Some (two_decimals n)) /\
  price_variant env_default world_accepting variant_4_47 n4_00 counts_zero [] =
  Some (incr_skipped counts_zero, []).
Proof.
  split.
  - apply (proj1 (stored_price_is_kept env_default world_accepting variant_4_47 n4_00
                    counts_zero [] eq_refl eq_refl eq_refl)).
  - apply (proj2 (stored_price_is_kept env_default world_accepting variant_4_47 n4_00
                    counts_zero [] eq_refl eq_refl eq_refl) "4.47").
    + vm_compute. reflexivity.
    + reflexivity.
Defined.

Lemma missing_price_is_updated_witness :
  price_variant env_default world_accepting variant_unpriced n4_00 counts_zero [] =
  Some (incr_updated counts_zero, [PutVariantPrice 6 n4_47]).
Proof.
  apply (missing_price_is_updated env_default world_accepting variant_unpriced n4_00
           counts_zero []); [discriminate|vm_compute; reflexivity..].
Defined.

Lemma next_link_is_followed_witness :
  next_endpoint (Some (link_entry url_two "next")) = Some url_two /\
  next_endpoint (Some (String.append (link_entry url_one "previous")
                         (String.append ", " (link_entry url_two "next")))) = Some url_two /\
  next_endpoint (Some (link_entry url_one "previous")) = None /\
  next_endpoint None = None.
Proof.
  apply (next_link_is_followed url_one url_two); [reflexivity..|discriminate].
Defined.

Lemma fetch_follows_links_witness :
  fetchAllShopifyProducts shop_env_unset storefront_two_pages 3 =
  Some (scenario_products 7 ++ [product_generic],
        [first_endpoint shop_env_unset; url_two]) /\
  fetchAllShopifyProducts shop_env_unset storefront_failing_second 3 =
  Some (scenario_products 7, [first_endpoint shop_env_unset; url_two]).
Proof.
  split.
  - apply (proj1 (fetch_follows_links shop_env_unset storefront_two_pages 3
                    [(first_endpoint shop_env_unset, shop_page_one); (url_two, shop_page_two)]
                    None (conj eq_refl (conj eq_refl (conj eq_refl (conj eq_refl eq_refl))))
                    ltac:(cbn; lia)) eq_refl).
  - apply (proj2 (fetch_follows_links shop_env_unset storefront_failing_second 3
                    [(first_endpoint shop_env_unset, shop_page_one)]
                    (Some url_two) (conj eq_refl (conj eq_refl eq_refl))
                    ltac:(cbn; lia)) url_two eq_refl eq_refl).
Defined.

Lemma outage_gives_empty_pass_witness :
  fetchAllShopifyProducts shop_env_unset storefront_down 1 =
  Some ([], [first_endpoint shop_env_unset]) /\
  pricing_pass env_default shop_env_unset storefront_down world_accepting 1 scenario_feed =
  Some ({| updated := 0; skipped := 0; errors := 0 |}, [first_endpoint shop_env_unset], []).
Proof.
  apply (outage_gives_empty_pass env_default shop_env_unset storefront_down world_accepting 1
           scenario_feed); [reflexivity|lia].
Defined.
